(** * Feature alignment, label vocabulary and reconstruction of [run_uda_ner.py]

    A shallow embedding of the pure parts of [scripts/run_uda_ner.py]:
    the label vocabulary ([LabelVocab]), the word-to-subword feature
    conversion ([convert_examples_to_features] and its unlabeled sibling),
    the reconstruction walk of [write_predictions], the empty-batch guard of
    [BertForUdaNer.forward], the evaluators ([evaluate_model],
    [evaluate_model_unsupervised]), the readers ([read_ner_examples],
    [read_unsupervised_examples]), [_get_validation_file_distribution] and
    the read-or-recompute handling of the feature cache.

    Python values are modelled as follows: [str] as [string], a [set] of
    strings as [gset string], a [dict] as [gmap], a [list] as [list], an
    [int] as [Z] (positions and label ids, which are never negative, as
    [nat]), and a raised exception as the [Err] case of [result]. *)

From Stdlib Require Import ZArith QArith String Ascii List Lia.
From stdpp Require Import base option list gmap strings sorting.

Local Open Scope string_scope.
Local Open Scope list_scope.

(** ** Exceptions *)

Module Py.

Inductive exn : Type :=
  | KeyError
  | IndexError
  | AssertionError
  | ValueError
  | ZeroDivisionError
  | OSError.

Inductive result (A : Type) : Type :=
  | Ok (a : A)
  | Err (e : exn).
Arguments Ok {A} a.
Arguments Err {A} e.

Definition bind {A B : Type} (m : result A) (k : A -> result B) : result B :=
  match m with
  | Ok a => k a
  | Err e => Err e
  end.

Definition of_option {A : Type} (e : exn) (o : option A) : result A :=
  match o with
  | Some a => Ok a
  | None => Err e
  end.

(** [[f(x) for x in l]], stopping at the first exception. *)
Fixpoint mapM {A B : Type} (f : A -> result B) (l : list A) : result (list B) :=
  match l with
  | [] => Ok []
  | x :: l' =>
      bind (f x) (fun y => bind (mapM f l') (fun ys => Ok (y :: ys)))
  end.

(** A loop [for x in l: ...] whose body updates a state and may raise. *)
Fixpoint foldM {A S : Type} (f : S -> A -> result S) (s : S) (l : list A)
  : result S :=
  match l with
  | [] => Ok s
  | x :: l' => bind (f s x) (fun s' => foldM f s' l')
  end.

(** [assert b] *)
Definition assert (b : bool) : result unit :=
  if b then Ok tt else Err AssertionError.

(** [enumerate(l)], counting from [n]. *)
Fixpoint enumerate_from {A : Type} (n : nat) (l : list A) : list (nat * A) :=
  match l with
  | [] => []
  | x :: l' => (n, x) :: enumerate_from (S n) l'
  end.

Definition enumerate {A : Type} (l : list A) : list (nat * A) :=
  enumerate_from 0 l.

(** [l[:n]] for a Python integer [n]: a negative bound counts from the end. *)
Definition slice_to {A : Type} (n : Z) (l : list A) : list A :=
  if (0 <=? n)%Z then take (Z.to_nat n) l
  else take (length l - Z.to_nat (- n)) l.

End Py.

Import Py.

#[global] Instance result_ret : MRet result := @Ok.
#[global] Instance result_bind : MBind result := fun A B k m => Py.bind m k.
#[global] Instance result_fmap : FMap result :=
  fun A B f m => Py.bind m (fun a => Ok (f a)).

(** ** [LabelVocab] *)

(** Python compares strings code point by code point; on byte strings this
    is [String.leb]. *)
Definition str_le (s1 s2 : string) : Prop := String.leb s1 s2 = true.

#[global] Instance str_le_dec : RelDecision str_le.
Proof. intros s1 s2. unfold str_le. apply _. Defined.

(** [sorted(l)] on a list of strings. *)
Definition sorted (l : list string) : list string := merge_sort str_le l.

Record LabelVocab : Type := mkLabelVocab {
  label_set : gset string;
  labels : list string;
  labels_dict : gmap string nat
}.

Record NERExample : Type := mkNERExample {
  ex_tokens : list string;
  ex_labels : list string
}.

Module LabelVocab.

(** [__init__] *)
Definition init : LabelVocab :=
  {| label_set := ∅; labels := []; labels_dict := ∅ |}.

(** [self.label_set.update(example.labels)] *)
Definition update (v : LabelVocab) (example : NERExample) : LabelVocab :=
  {| label_set := label_set v ∪ list_to_set (ex_labels example);
     labels := labels v;
     labels_dict := labels_dict v |}.

(** [{v: k for k, v in dict(enumerate(ls)).items()}]: entries are inserted
    in order, a later one replacing an earlier one with the same key. *)
Definition invert_enumerate (ls : list string) : gmap string nat :=
  fold_left (fun d kv => <[kv.2 := kv.1]> d) (enumerate ls) ∅.

Definition build (v : LabelVocab) : LabelVocab :=
  let ls := "O" :: sorted (elements (label_set v ∖ {["O"]})) in
  {| label_set := label_set v;
     labels := ls;
     labels_dict := invert_enumerate ls |}.

(** [[self.labels_dict[label] for label in labels]] *)
Definition convert_labels_to_ids (v : LabelVocab) (ls : list string)
  : result (list nat) :=
  mapM (fun label => of_option KeyError (labels_dict v !! label)) ls.

(** [[self.labels[label_id] for label_id in label_ids]] *)
Definition convert_ids_to_labels (v : LabelVocab) (label_ids : list nat)
  : result (list string) :=
  mapM (fun label_id => of_option IndexError (labels v !! label_id)) label_ids.

(** [__len__] *)
Definition len (v : LabelVocab) : nat := size (label_set v).

End LabelVocab.

(** ** The tokenizer

    [BertTokenizer] is an external collaborator.  [tokenize] splits one word
    into its subword pieces; [convert_tokens_to_ids] looks every token up in
    the model vocabulary, which [token_id] stands for. *)

Record Tokenizer : Type := mkTokenizer {
  tokenize : string -> list string;
  token_id : string -> Z
}.

Definition convert_tokens_to_ids (tokenizer : Tokenizer) (tokens : list string)
  : list Z :=
  token_id tokenizer <$> tokens.

(** ** [InputFeatures] *)

Record UnsupervisedExample : Type := mkUnsupervisedExample {
  uex_tokens : list string
}.

Record InputFeatures : Type := mkInputFeatures {
  unique_id : Z;
  example_index : nat;
  tokens : list string;
  token_to_orig_map : gmap nat nat;
  input_ids : list Z;
  input_mask : list Z;
  loss_mask : list Z;
  segment_ids : list Z;
  label_ids : option (list nat)
}.

(** ** The subword loops *)

(** State of the loop over the words of a labeled example. *)
Record Pieces : Type := mkPieces {
  tok_to_orig_index : list nat;
  orig_to_tok_index : list nat;
  all_tokens : list string;
  all_labels : list string
}.

Definition no_pieces : Pieces :=
  {| tok_to_orig_index := []; orig_to_tok_index := [];
     all_tokens := []; all_labels := [] |}.

(** Body of [for sub_token in sub_tokens]. *)
Definition add_sub_token (i : nat) (label : string) (st : Pieces)
  (sub_token : string) : Pieces :=
  {| tok_to_orig_index := tok_to_orig_index st ++ [i];
     orig_to_tok_index := orig_to_tok_index st;
     all_tokens := all_tokens st ++ [sub_token];
     all_labels := all_labels st ++ [label] |}.

(** Body of [for i, (token, label) in enumerate(zip(...))]. *)
Definition add_word (tokenizer : Tokenizer) (st : Pieces)
  (w : nat * (string * string)) : Pieces :=
  let '(i, (token, label)) := w in
  let st1 :=
    {| tok_to_orig_index := tok_to_orig_index st;
       orig_to_tok_index := orig_to_tok_index st ++ [length (all_tokens st)];
       all_tokens := all_tokens st;
       all_labels := all_labels st |} in
  fold_left (add_sub_token i label) (tokenize tokenizer token) st1.

Definition split_example (tokenizer : Tokenizer) (example : NERExample)
  : Pieces :=
  fold_left (add_word tokenizer)
    (enumerate (zip (ex_tokens example) (ex_labels example))) no_pieces.

(** The unlabeled loop is the same one without the label column. *)
Definition add_word_unsup (tokenizer : Tokenizer) (st : Pieces)
  (w : nat * string) : Pieces :=
  let '(i, token) := w in
  let st1 :=
    {| tok_to_orig_index := tok_to_orig_index st;
       orig_to_tok_index := orig_to_tok_index st ++ [length (all_tokens st)];
       all_tokens := all_tokens st;
       all_labels := all_labels st |} in
  fold_left
    (fun st sub_token =>
       {| tok_to_orig_index := tok_to_orig_index st ++ [i];
          orig_to_tok_index := orig_to_tok_index st;
          all_tokens := all_tokens st ++ [sub_token];
          all_labels := all_labels st |})
    (tokenize tokenizer token) st1.

Definition split_unsupervised (tokenizer : Tokenizer)
  (example : UnsupervisedExample) : Pieces :=
  fold_left (add_word_unsup tokenizer) (enumerate (uex_tokens example))
    no_pieces.

(** [{(token_index + 1): orig_index for token_index, orig_index in
    enumerate(tok_to_orig_index)}] *)
Definition build_token_to_orig_map (tok_to_orig : list nat) : gmap nat nat :=
  fold_left (fun m kv => <[S kv.1 := kv.2]> m) (enumerate tok_to_orig) ∅.

(** [l[i] = x]; Python raises [IndexError] out of range. *)
Definition set_item {A : Type} (l : list A) (i : nat) (x : A)
  : result (list A) :=
  if decide (i < length l) then Ok (<[i := x]> l) else Err IndexError.

(** [for i, token in enumerate(tokens): if token.startswith("##"):
    loss_mask[i] = 0] *)
Fixpoint clear_tails (its : list (nat * string)) (mask : list Z)
  : result (list Z) :=
  match its with
  | [] => Ok mask
  | (i, token) :: its' =>
      if String.prefix "##" token
      then mask' ← set_item mask i 0%Z; clear_tails its' mask'
      else clear_tails its' mask
  end.

(** [loss_mask = deepcopy(input_mask)] followed by the loop above. *)
Definition build_loss_mask (tokens : list string) (input_mask : list Z)
  : result (list Z) :=
  clear_tails (enumerate tokens) input_mask.

(** The five parallel arrays while they are being padded. *)
Record Arrays : Type := mkArrays {
  a_input_ids : list Z;
  a_input_mask : list Z;
  a_loss_mask : list Z;
  a_segment_ids : list Z;
  a_label_ids : option (list nat)
}.

(** One round of the padding loop; [label_ids] is only there for labeled
    examples. *)
Definition pad_step (a : Arrays) : Arrays :=
  {| a_input_ids := a_input_ids a ++ [0%Z];
     a_input_mask := a_input_mask a ++ [0%Z];
     a_loss_mask := a_loss_mask a ++ [0%Z];
     a_segment_ids := a_segment_ids a ++ [0%Z];
     a_label_ids := (fun l => l ++ [0]) <$> a_label_ids a |}.

(** [while len(input_ids) < max_seq_length: ...]; the loop runs at most
    [max_seq_length] times, which [fuel] bounds. *)
Fixpoint pad_loop (fuel : nat) (max_seq_length : Z) (a : Arrays) : Arrays :=
  match fuel with
  | 0 => a
  | S fuel' =>
      if (Z.of_nat (length (a_input_ids a)) <? max_seq_length)%Z
      then pad_loop fuel' max_seq_length (pad_step a)
      else a
  end.

Definition zero_pad (max_seq_length : Z) (a : Arrays) : Arrays :=
  pad_loop (Z.to_nat max_seq_length) max_seq_length a.

Definition len_is {A : Type} (l : list A) (n : Z) : bool :=
  (Z.of_nat (length l) =? n)%Z.

(** ** [convert_examples_to_features] *)

(** Body of the loop over the examples. *)
Definition convert_example (tokenizer : Tokenizer) (label_vocab : LabelVocab)
  (max_seq_length : Z) (uid : Z) (index : nat) (example : NERExample)
  : result InputFeatures :=
  let p := split_example tokenizer example in
  let max_tokens := (max_seq_length - 2)%Z in
  let all_tokens := slice_to max_tokens (all_tokens p) in
  let all_labels := slice_to max_tokens (all_labels p) in
  let body := zip all_tokens all_labels in
  let tokens := ["[CLS]"] ++ body.*1 ++ ["[SEP]"] in
  let segment_ids := [0%Z] ++ ((fun _ => 0%Z) <$> body) ++ [0%Z] in
  let labels := ["O"] ++ body.*2 ++ ["O"] in
  let token_to_orig_map := build_token_to_orig_map (tok_to_orig_index p) in
  let input_ids := convert_tokens_to_ids tokenizer tokens in
  label_ids ← LabelVocab.convert_labels_to_ids label_vocab labels;
  let input_mask := replicate (length input_ids) 1%Z in
  loss_mask ← build_loss_mask tokens input_mask;
  let a := zero_pad max_seq_length
    {| a_input_ids := input_ids; a_input_mask := input_mask;
       a_loss_mask := loss_mask; a_segment_ids := segment_ids;
       a_label_ids := Some label_ids |} in
  _ ← assert (len_is (a_input_ids a) max_seq_length);
  _ ← assert (len_is (a_input_mask a) max_seq_length);
  _ ← assert (len_is (a_loss_mask a) max_seq_length);
  _ ← assert (len_is (a_segment_ids a) max_seq_length);
  _ ← assert (len_is (default [] (a_label_ids a)) max_seq_length);
  Ok {| unique_id := uid;
        example_index := index;
        tokens := tokens;
        token_to_orig_map := token_to_orig_map;
        input_ids := a_input_ids a;
        input_mask := a_input_mask a;
        loss_mask := a_loss_mask a;
        segment_ids := a_segment_ids a;
        label_ids := a_label_ids a |}.

(** The examples of one file share one vocabulary object, which the
    conversion freezes ([examples[0].label_vocab.build()]) before the loop;
    the frozen vocabulary is returned with the features.  Unique ids count
    up from 1000000000. *)
Definition convert_examples_to_features (label_vocab : LabelVocab)
  (examples : list NERExample) (tokenizer : Tokenizer) (max_seq_length : Z)
  : result (LabelVocab * list InputFeatures) :=
  _ ← of_option IndexError (head examples);
  let label_vocab := LabelVocab.build label_vocab in
  features ← mapM
    (fun ie : nat * NERExample =>
       convert_example tokenizer label_vocab max_seq_length
         (1000000000 + Z.of_nat ie.1) ie.1 ie.2)
    (enumerate examples);
  Ok (label_vocab, features).

(** ** [convert_unsupervised_examples_to_features] *)

Definition convert_unsupervised_example (tokenizer : Tokenizer)
  (max_seq_length : Z) (uid : Z) (index : nat) (example : UnsupervisedExample)
  : result InputFeatures :=
  let p := split_unsupervised tokenizer example in
  let max_tokens := (max_seq_length - 2)%Z in
  let all_tokens := slice_to max_tokens (all_tokens p) in
  let tokens := ["[CLS]"] ++ all_tokens ++ ["[SEP]"] in
  let segment_ids := [0%Z] ++ ((fun _ => 0%Z) <$> all_tokens) ++ [0%Z] in
  let token_to_orig_map := build_token_to_orig_map (tok_to_orig_index p) in
  let input_ids := convert_tokens_to_ids tokenizer tokens in
  let input_mask := replicate (length input_ids) 1%Z in
  loss_mask ← build_loss_mask tokens input_mask;
  let a := zero_pad max_seq_length
    {| a_input_ids := input_ids; a_input_mask := input_mask;
       a_loss_mask := loss_mask; a_segment_ids := segment_ids;
       a_label_ids := None |} in
  _ ← assert (len_is (a_input_ids a) max_seq_length);
  _ ← assert (len_is (a_input_mask a) max_seq_length);
  _ ← assert (len_is (a_loss_mask a) max_seq_length);
  _ ← assert (len_is (a_segment_ids a) max_seq_length);
  Ok {| unique_id := uid;
        example_index := index;
        tokens := tokens;
        token_to_orig_map := token_to_orig_map;
        input_ids := a_input_ids a;
        input_mask := a_input_mask a;
        loss_mask := a_loss_mask a;
        segment_ids := a_segment_ids a;
        label_ids := None |}.

(** Unique ids count up from 2000000000. *)
Definition convert_unsupervised_examples_to_features
  (examples : list UnsupervisedExample) (tokenizer : Tokenizer)
  (max_seq_length : Z) : result (list InputFeatures) :=
  mapM
    (fun ie : nat * UnsupervisedExample =>
       convert_unsupervised_example tokenizer max_seq_length
         (2000000000 + Z.of_nat ie.1) ie.1 ie.2)
    (enumerate examples).

(** ** [write_predictions] *)

(** [row.argmax()]: the position of the largest score, the first one on a
    tie.  Only the order of the scores matters, so they are rationals. *)
Fixpoint argmax_from (best_i : nat) (best : Q) (i : nat) (row : list Q) : nat :=
  match row with
  | [] => best_i
  | x :: row' =>
      if Qle_bool x best then argmax_from best_i best (S i) row'
      else argmax_from i x (S i) row'
  end.

Definition argmax (row : list Q) : nat :=
  match row with
  | [] => 0
  | x :: row' => argmax_from 0 x 1 row'
  end.

(** [token in ["[CLS]", "[SEP]"]] *)
Definition is_marker (token : string) : bool :=
  bool_decide (token ∈ ["[CLS]"; "[SEP]"]).

(** State of the walk over the subword positions of one feature. *)
Record Walk : Type := mkWalk {
  predicted_labels : list string;
  true_labels : list string;
  last_orig_index : Z
}.

(** Body of [for i, token in enumerate(features.tokens)]. *)
Definition walk_step (example : NERExample) (features : InputFeatures)
  (raw_labels : list string) (st : Walk) (it : nat * string) : result Walk :=
  let '(i, token) := it in
  if is_marker token then Ok st
  else
    orig_index ← of_option KeyError (token_to_orig_map features !! i);
    if (Z.of_nat orig_index =? last_orig_index st)%Z then Ok st
    else
      predicted ← of_option IndexError (raw_labels !! i);
      true ← of_option IndexError (ex_labels example !! orig_index);
      Ok {| predicted_labels := predicted_labels st ++ [predicted];
            true_labels := true_labels st ++ [true];
            last_orig_index := Z.of_nat orig_index |}.

(** What the walk leaves for one example: the predicted and the true labels
    of its head wordpieces, and whether the length warning was logged. *)
Record Reconstructed : Type := mkReconstructed {
  r_predicted : list string;
  r_true : list string;
  r_warned : bool
}.

(** Body of the loop over [zip(all_examples, all_features, all_results)];
    [logits] is [result.logits], one row of scores per position. *)
Definition reconstruct (label_vocab : LabelVocab) (example : NERExample)
  (features : InputFeatures) (logits : list (list Q)) : result Reconstructed :=
  let max_scores := argmax <$> logits in
  raw_labels ← LabelVocab.convert_ids_to_labels label_vocab max_scores;
  st ← foldM (walk_step example features raw_labels)
         {| predicted_labels := []; true_labels := []; last_orig_index := (-1)%Z |}
         (enumerate (tokens features));
  let warned :=
    negb (length (predicted_labels st) =? length (ex_labels example))%nat in
  _ ← assert (length (true_labels st) =? length (predicted_labels st))%nat;
  Ok {| r_predicted := predicted_labels st;
        r_true := true_labels st;
        r_warned := warned |}.

(** The prediction file: the document marker, then one label per line and
    a blank line after every sentence. *)
Definition prediction_file (all_predictions : list (list string)) : string :=
  fold_left
    (fun out ls => out ++ String.concat "
" ls ++ "

")%string
    all_predictions
    "-DOCSTART- -X- -X- O

"%string.

Section WritePredictions.

(** [conlleval.evaluate], which returns precision, recall and F1. *)
Variable evaluate : list string -> list string -> result (Q * Q * Q).

Definition write_predictions (label_vocab : LabelVocab)
  (all_examples : list NERExample) (all_features : list InputFeatures)
  (all_results : list (list (list Q)))
  : result (string * (Q * Q * Q)) :=
  rs ← mapM (fun efr : NERExample * InputFeatures * list (list Q) =>
               reconstruct label_vocab efr.1.1 efr.1.2 efr.2)
         (zip (zip all_examples all_features) all_results);
  let all_predictions := r_predicted <$> rs in
  let all_true_labels := r_true <$> rs in
  _ ← assert (length all_predictions =? length all_examples)%nat;
  _ ← assert (length all_true_labels =? length all_predictions)%nat;
  let flat_true_labels := concat all_true_labels in
  let flat_predicted_labels := concat all_predictions in
  _ ← assert (length flat_true_labels =? length flat_predicted_labels)%nat;
  scores ← evaluate flat_true_labels flat_predicted_labels;
  Ok (prediction_file all_predictions, scores).

End WritePredictions.

(** ** [evaluate_model_unsupervised] *)

(** One row of the tensors of a batch: input ids, attention mask, loss mask
    and segment ids of one feature. *)
Definition TensorRow : Type := list Z * list Z * list Z * list Z.

Definition tensor_row (f : InputFeatures) : TensorRow :=
  (input_ids f, input_mask f, loss_mask f, segment_ids f).

(** A sequential [DataLoader]: consecutive chunks of [batch_size] items. *)
Fixpoint batches_fuel {A : Type} (fuel batch_size : nat) (l : list A)
  : list (list A) :=
  match fuel with
  | 0 => []
  | S fuel' =>
      match l with
      | [] => []
      | _ => take batch_size l :: batches_fuel fuel' batch_size (drop batch_size l)
      end
  end.

Definition data_loader {A : Type} (batch_size : Z) (l : list A)
  : result (list (list A)) :=
  if (batch_size <=? 0)%Z then Err ValueError
  else Ok (batches_fuel (length l) (Z.to_nat batch_size) l).

(** Labels collected so far by the unsupervised walk. *)
Record UWalk : Type := mkUWalk {
  original_labels : list string;
  perturbed_labels : list string;
  u_last_orig_index : Z
}.

Definition uwalk_step (features : InputFeatures)
  (original_raw_labels perturbed_raw_labels : list string)
  (st : UWalk) (it : nat * string) : result UWalk :=
  let '(i, token) := it in
  if is_marker token then Ok st
  else
    orig_index ← of_option KeyError (token_to_orig_map features !! i);
    if (Z.of_nat orig_index =? u_last_orig_index st)%Z then Ok st
    else
      o ← of_option IndexError (original_raw_labels !! i);
      p ← of_option IndexError (perturbed_raw_labels !! i);
      Ok {| original_labels := original_labels st ++ [o];
            perturbed_labels := perturbed_labels st ++ [p];
            u_last_orig_index := Z.of_nat orig_index |}.

Section Unsupervised.

(** The encoder with its classifier head, on the rows of one batch, and
    the perturbation, which sees the batch and the clean logits. *)
Variable model : list TensorRow -> list (list (list Q)).
Variable perturbe :
  list TensorRow -> list (list (list Q)) -> list TensorRow.
Variable evaluate : list string -> list string -> result (Q * Q * Q).

(** Body of the loop over the examples of a batch. *)
Definition unsupervised_example (label_vocab : LabelVocab)
  (eval_features : list InputFeatures) (acc : list string * list string)
  (e : nat * list nat * list nat) : result (list string * list string) :=
  let '(example_index, original_max_score, perturbed_max_score) := e in
  original_raw_labels ←
    LabelVocab.convert_ids_to_labels label_vocab original_max_score;
  perturbed_raw_labels ←
    LabelVocab.convert_ids_to_labels label_vocab perturbed_max_score;
  features ← of_option IndexError (eval_features !! example_index);
  st ← foldM (uwalk_step features original_raw_labels perturbed_raw_labels)
         {| original_labels := acc.1; perturbed_labels := acc.2;
            u_last_orig_index := (-1)%Z |}
         (enumerate (tokens features));
  Ok (original_labels st, perturbed_labels st).

(** Body of the loop over the batches. *)
Definition unsupervised_batch (label_vocab : LabelVocab)
  (eval_features : list InputFeatures) (acc : list string * list string)
  (original_batch : list (nat * InputFeatures))
  : result (list string * list string) :=
  let example_indices := original_batch.*1 in
  let rows := tensor_row <$> original_batch.*2 in
  let original_logits := model rows in
  let perturbed_batch := perturbe rows original_logits in
  let perturbed_logits := model perturbed_batch in
  let original_max_scores := map argmax <$> original_logits in
  let perturbed_max_scores := map argmax <$> perturbed_logits in
  '(original_labels, perturbed_labels) ←
    foldM (unsupervised_example label_vocab eval_features) ([], [])
      (zip (zip example_indices original_max_scores) perturbed_max_scores);
  _ ← assert (length original_labels =? length perturbed_labels)%nat;
  Ok (acc.1 ++ original_labels, acc.2 ++ perturbed_labels).

(** The clean and the perturbed labels of all head wordpieces. *)
Definition unsupervised_labels (label_vocab : LabelVocab)
  (eval_features : list InputFeatures) (batch_size : Z)
  : result (list string * list string) :=
  loader ← data_loader batch_size (enumerate eval_features);
  foldM (unsupervised_batch label_vocab eval_features) ([], []) loader.

Definition evaluate_model_unsupervised (label_vocab : LabelVocab)
  (eval_features : list InputFeatures) (batch_size : Z)
  : result (Q * Q * Q) :=
  '(all_original_labels, all_perturbed_labels) ←
    unsupervised_labels label_vocab eval_features batch_size;
  _ ← assert (length all_original_labels =? length all_perturbed_labels)%nat;
  if decide (list_to_set all_original_labels =@{gset string} {["O"]})
  then Ok (0%Q, 0%Q, 0%Q)
  else evaluate all_original_labels all_perturbed_labels.

End Unsupervised.

(** ** [BertForUdaNer.forward] *)

Section Forward.

(** Tensors, loss values and the annealing scheduler live in libraries
    and in the [tsa] module; [forward] only composes them. *)
Variables Tensor Loss TSA : Type.

(** [len(t)], the size of the first dimension. *)
Variable tensor_len : Tensor -> nat.
(** [self.bert], [self.dropout], [self.classifier]. *)
Variable bert : Tensor -> option Tensor -> option Tensor -> Tensor.
Variable dropout : Tensor -> Tensor.
Variable classifier : Tensor -> Tensor.
(** [tsa.step()] and [tsa.apply(logits, labels, loss_mask)]. *)
Variable tsa_step : TSA -> TSA.
Variable tsa_apply :
  TSA -> Tensor -> Tensor -> option Tensor ->
  TSA * (Tensor * Tensor * option Tensor).
(** [CrossEntropyLoss] on the positions selected by [loss_mask], and on
    all positions. *)
Variable active_cross_entropy :
  Tensor -> Tensor -> option Tensor -> result Loss.
Variable cross_entropy : Tensor -> Tensor -> result Loss.

(** What [forward] returns: the integer [0], a loss, or the logits. *)
Inductive Output : Type :=
  | OutInt (z : Z)
  | OutLoss (loss : Loss)
  | OutLogits (logits : Tensor).

(** The scheduler is an object that [forward] changes in place; its new
    state is returned next to the output. *)
Definition forward (input_ids : Tensor)
  (token_type_ids attention_mask loss_mask labels : option Tensor)
  (tsa : option TSA) (use_dropout : bool) : option TSA * result Output :=
  let sequence_output := bert input_ids token_type_ids attention_mask in
  let sequence_output :=
    if use_dropout then dropout sequence_output else sequence_output in
  let logits := classifier sequence_output in
  match labels with
  | Some labels =>
      let '(tsa, (logits, labels, loss_mask)) :=
        match tsa with
        | Some t =>
            let '(t', filtered) :=
              tsa_apply (tsa_step t) logits labels loss_mask in
            (Some t', filtered)
        | None => (None, (logits, labels, loss_mask))
        end in
      if (tensor_len logits =? 0)%nat then (tsa, Ok (OutInt 0))
      else
        match attention_mask with
        | Some _ =>
            (tsa, OutLoss <$> active_cross_entropy logits labels loss_mask)
        | None => (tsa, OutLoss <$> cross_entropy logits labels)
        end
  | None => (tsa, Ok (OutLogits logits))
  end.

(** The logits that [forward] computes before it looks at the labels. *)
Definition model_logits (input_ids : Tensor)
  (token_type_ids attention_mask : option Tensor) (use_dropout : bool)
  : Tensor :=
  let sequence_output := bert input_ids token_type_ids attention_mask in
  classifier
    (if use_dropout then dropout sequence_output else sequence_output).

End Forward.

(** ** The feature cache *)

Section Cache.

(** Contents of a file, and [pickle]: [pickle_load] is [None] when the
    bytes do not deserialize. *)
Variable Blob : Type.
Variable pickle_dump : list InputFeatures -> Blob.
Variable pickle_load : Blob -> option (list InputFeatures).

(** Whether [open(path, "wb")] and the dump into the file succeed: they do
    not in a directory that is read-only, or when the path names a
    directory. *)
Variable writable : string -> bool.

(** [with open(path, "rb") as reader: pickle.load(reader)]; a missing file
    and a failing [pickle.load] both raise. *)
Definition read_cache (fs : gmap string Blob) (path : string)
  : option (list InputFeatures) :=
  fs !! path ≫= pickle_load.

(** [with open(path, "wb") as writer: pickle.dump(features, writer)] *)
Definition write_cache (fs : gmap string Blob) (path : string)
  (features : list InputFeatures) : result (gmap string Blob) :=
  if writable path then Ok (<[path := pickle_dump features]> fs)
  else Err OSError.

(** [args.local_rank == -1 or torch.distributed.get_rank() == 0] *)
Definition is_writer (local_rank rank : Z) : bool :=
  (local_rank =? -1)%Z || (rank =? 0)%Z.

(** The [try]/[except] of [main] and of [_load_unsupervised_data]: the
    handler catches whatever reading raised, converts the examples and,
    in the writing process, dumps the features.  Nothing catches what the
    handler itself raises. *)
Definition load_or_convert (fs : gmap string Blob) (path : string)
  (local_rank rank : Z) (convert : result (list InputFeatures))
  : result (list InputFeatures * gmap string Blob) :=
  match read_cache fs path with
  | Some features => Ok (features, fs)
  | None =>
      features ← convert;
      if is_writer local_rank rank
      then fs' ← write_cache fs path features; Ok (features, fs')
      else Ok (features, fs)
  end.

(** The training features in [main]. *)
Definition load_train_features (fs : gmap string Blob)
  (cached_train_features_file : string) (local_rank rank : Z)
  (label_vocab : LabelVocab) (train_examples : list NERExample)
  (tokenizer : Tokenizer) (max_seq_length : Z)
  : result (list InputFeatures * gmap string Blob) :=
  load_or_convert fs cached_train_features_file local_rank rank
    (snd <$> convert_examples_to_features label_vocab train_examples
               tokenizer max_seq_length).

Definition _load_unsupervised_data (fs : gmap string Blob)
  (cached_unsupervised_features_file : string) (local_rank rank : Z)
  (unsupervised_examples : list UnsupervisedExample)
  (tokenizer : Tokenizer) (unsupervised_max_seq_length : Z)
  : result (list UnsupervisedExample * list InputFeatures
            * gmap string Blob) :=
  '(unsupervised_features, fs') ←
    load_or_convert fs cached_unsupervised_features_file local_rank rank
      (convert_unsupervised_examples_to_features unsupervised_examples
         tokenizer unsupervised_max_seq_length);
  Ok (unsupervised_examples, unsupervised_features, fs').

End Cache.

(** ** Closed forms of the loops

    What the loops above compute, written without state; the lemmas below
    relate each loop to its closed form. *)

(** The subword pieces of one word, each with the index and the label of
    the word. *)
Definition word_pieces (tokenizer : Tokenizer) (w : nat * (string * string))
  : list (nat * string * string) :=
  (fun sub_token => (w.1, sub_token, w.2.2)) <$> tokenize tokenizer w.2.1.

Definition pieces (tokenizer : Tokenizer) (example : NERExample)
  : list (nat * string * string) :=
  enumerate (zip (ex_tokens example) (ex_labels example))
    ≫= word_pieces tokenizer.

(** The loss-mask entry of a real token: 0 for a "##" continuation piece,
    1 for every other token. *)
Definition head_flag (token : string) : Z :=
  if String.prefix "##" token then 0%Z else 1%Z.

(** [k] rounds of the padding loop. *)
Definition pad_n (k : nat) (a : Arrays) : Arrays :=
  {| a_input_ids := a_input_ids a ++ replicate k 0%Z;
     a_input_mask := a_input_mask a ++ replicate k 0%Z;
     a_loss_mask := a_loss_mask a ++ replicate k 0%Z;
     a_segment_ids := a_segment_ids a ++ replicate k 0%Z;
     a_label_ids := (fun l => l ++ replicate k 0) <$> a_label_ids a |}.

(** The token row of a labeled feature. *)
Definition feature_tokens (tokenizer : Tokenizer) (max_seq_length : Z)
  (example : NERExample) : list string :=
  let p := split_example tokenizer example in
  let max_tokens := (max_seq_length - 2)%Z in
  ["[CLS]"]
    ++ (zip (slice_to max_tokens (all_tokens p))
            (slice_to max_tokens (all_labels p))).*1
    ++ ["[SEP]"].

(** The label row of a labeled feature, before it is turned into ids. *)
Definition feature_labels (tokenizer : Tokenizer) (max_seq_length : Z)
  (example : NERExample) : list string :=
  let p := split_example tokenizer example in
  let max_tokens := (max_seq_length - 2)%Z in
  ["O"]
    ++ (zip (slice_to max_tokens (all_tokens p))
            (slice_to max_tokens (all_labels p))).*2
    ++ ["O"].

(** The token row of an unlabeled feature. *)
Definition feature_tokens_unsup (tokenizer : Tokenizer) (max_seq_length : Z)
  (example : UnsupervisedExample) : list string :=
  ["[CLS]"]
    ++ slice_to (max_seq_length - 2)%Z
         (all_tokens (split_unsupervised tokenizer example))
    ++ ["[SEP]"].

(** One step of the reconstruction walk on a piece whose lookups succeed:
    markers and pieces of the word seen last are skipped, the label of any
    other piece is kept as prediction and as truth. *)
Definition head_step (st : Walk) (p : nat * string * string) : Walk :=
  if is_marker p.1.2 then st
  else if (Z.of_nat p.1.1 =? last_orig_index st)%Z then st
  else {| predicted_labels := predicted_labels st ++ [p.2];
          true_labels := true_labels st ++ [p.2];
          last_orig_index := Z.of_nat p.1.1 |}.

(** All parallel arrays of a feature have length [n]; the label ids only
    when the feature has them. *)
Definition arrays_have_length (f : InputFeatures) (n : Z) : Prop :=
  Z.of_nat (length (input_ids f)) = n /\
  Z.of_nat (length (input_mask f)) = n /\
  Z.of_nat (length (loss_mask f)) = n /\
  Z.of_nat (length (segment_ids f)) = n /\
  forall ids, label_ids f = Some ids -> Z.of_nat (length ids) = n.

(** ** Sample data *)

(** A tokenizer that leaves every word in one piece. *)
Definition word_tokenizer : Tokenizer :=
  {| tokenize := fun w => [w]; token_id := fun _ => 7%Z |}.

Definition john : NERExample :=
  {| ex_tokens := ["John"; "lives"; "in"; "Paris"];
     ex_labels := ["B-PER"; "O"; "O"; "B-LOC"] |}.

(** Scores whose largest entry is at position [id], and logits that encode
    the gold label ids of a feature in this way. *)
Definition spike (id j : nat) : Q := if decide (j = id) then 1%Q else 0%Q.

Definition one_hot (num_labels id : nat) : list Q :=
  spike id <$> seq 0 num_labels.

Definition gold_logits (num_labels : nat) (f : InputFeatures)
  : list (list Q) :=
  one_hot num_labels <$> default [] (label_ids f).

(** A sentence whose only word is spelled like the end marker. *)
Definition sep_example : NERExample :=
  {| ex_tokens := ["[SEP]"]; ex_labels := ["B-PER"] |}.

(** The vocabulary and the features of the sample sentence. *)
Definition john_vocab : LabelVocab :=
  LabelVocab.build (LabelVocab.update LabelVocab.init john).

Definition john_features : list InputFeatures :=
  match convert_examples_to_features (LabelVocab.update LabelVocab.init john)
          [john] word_tokenizer 10 with
  | Ok (_, features) => features
  | Err _ => []
  end.

(** A model that gives the first label the highest score at each of the
    first [n] positions. *)
Definition background_logits (n : nat) : list (list Q) :=
  replicate n [1%Q; 0%Q; 0%Q].

(** A file system whose files hold feature lists as they are. *)
Definition plain_dump (features : list InputFeatures) : list InputFeatures :=
  features.

Definition plain_load (blob : list InputFeatures)
  : option (list InputFeatures) :=
  Some blob.

(** ** Reading the corpora *)

(** [itertools.groupby] on items that carry their key: maximal runs of
    consecutive items with the same key, in order. *)
Fixpoint groupby {A : Type} (keyed : list (bool * A)) : list (bool * list A) :=
  match keyed with
  | [] => []
  | (k, x) :: rest =>
      match groupby rest with
      | (k', g) :: gs =>
          if Bool.eqb k k' then (k, x :: g) :: gs
          else (k, [x]) :: (k', g) :: gs
      | [] => [(k, [x])]
      end
  end.

(** The unzipping of the rows ([zip] applied to the unpacked rows, each
    tuple turned into a list): the columns of the rows, as many as the
    shortest row has fields. *)
Fixpoint zip_star {A : Type} (rows : list (list A)) : list (list A) :=
  match rows with
  | [] => []
  | r :: rs =>
      match rs with
      | [] => (fun x => [x]) <$> r
      | _ => zip_with cons r (zip_star rs)
      end
  end.

Section Readers.

(** [str.strip()] and [str.split()] of Python, both without argument. *)
Variable strip : string -> string.
Variable split : string -> list string.

Definition _is_divider (line : string) : result bool :=
  let empty_line := String.eqb (strip line) "" in
  if empty_line then Ok true
  else
    first_token ← of_option IndexError (head (split line));
    if String.eqb first_token "-DOCSTART-" then Ok true else Ok false.

(** Body of the loop over the groups of lines. *)
Definition read_group (st : LabelVocab * list NERExample)
  (group : bool * list string) : result (LabelVocab * list NERExample) :=
  let '(label_vocab, examples) := st in
  let '(is_divider, lines) := group in
  if is_divider then Ok (label_vocab, examples)
  else
    let fields := (fun line => split (strip line)) <$> lines in
    let fields := zip_star fields in
    tokens ← of_option IndexError (head fields);
    ner_tags ← of_option IndexError (last fields);
    let example := {| ex_tokens := tokens; ex_labels := ner_tags |} in
    Ok (LabelVocab.update label_vocab example, examples ++ [example]).

(** The file is the list of its lines.  The vocabulary object that all
    examples refer to is returned with them.  Every exception that the key
    function or the loop body can raise is an [IndexError], so the keys are
    computed before the groups are walked. *)
Definition read_ner_examples (input_file : list string)
  : result (LabelVocab * list NERExample) :=
  keyed ← mapM (fun line => k ← _is_divider line; Ok (k, line)) input_file;
  foldM read_group (LabelVocab.init, []) (groupby keyed).


End Readers.

(** ** [_get_validation_file_distribution] *)

Section Distribution.

(** Frequencies are numbers of the statistics module; only their place in
    the result matters here. *)
Variable Freq : Type.

(** [dict(zip(keys, values))]: a later pair replaces an earlier one with
    the same key. *)
Definition dict_of_zip (keys : list string) (values : list Freq)
  : gmap string Freq :=
  fold_left (fun d kv => <[kv.1 := kv.2]> d) (zip keys values) ∅.

(** [unigrams] and [unigram_frequencies] are what
    [CoNLL2003Dataset.get_unigram_distribution] returned for the validation
    file.  The vocabulary is frozen on the way and returned. *)
Definition _get_validation_file_distribution (unigrams : list string)
  (unigram_frequencies : list Freq) (label_vocab : LabelVocab)
  : result (LabelVocab * list Freq) :=
  let unigram_dict := dict_of_zip unigrams unigram_frequencies in
  let label_vocab := LabelVocab.build label_vocab in
  expected_unigram_distribution ←
    mapM (fun label => of_option KeyError (unigram_dict !! label))
      (labels label_vocab);
  Ok (label_vocab, expected_unigram_distribution).

End Distribution.

(** ** [evaluate_model] *)

Section EvaluateModel.

Variable model : list TensorRow -> list (list (list Q)).
Variable evaluate : list string -> list string -> result (Q * Q * Q).

(** Body of [for i, example_index in enumerate(example_indices)]; a
    [RawResult] is the pair of a unique id and the logits. *)
Definition collect_result (eval_features : list InputFeatures)
  (batch_logits : list (list (list Q)))
  (all_results : list (Z * list (list Q))) (ie : nat * nat)
  : result (list (Z * list (list Q))) :=
  logits ← of_option IndexError (batch_logits !! ie.1);
  eval_feature ← of_option IndexError (eval_features !! ie.2);
  Ok (all_results ++ [(unique_id eval_feature, logits)]).

(** Body of the loop over the batches. *)
Definition collect_batch (eval_features : list InputFeatures)
  (all_results : list (Z * list (list Q)))
  (batch : list (nat * InputFeatures))
  : result (list (Z * list (list Q))) :=
  let example_indices := batch.*1 in
  let batch_logits := model (tensor_row <$> batch.*2) in
  foldM (collect_result eval_features batch_logits) all_results
    (enumerate example_indices).

Definition evaluate_model (label_vocab : LabelVocab)
  (eval_examples : list NERExample) (eval_features : list InputFeatures)
  (batch_size : Z) : result (string * (Q * Q * Q)) :=
  loader ← data_loader batch_size (enumerate eval_features);
  all_results ← foldM (collect_batch eval_features) [] loader;
  write_predictions evaluate label_vocab eval_examples eval_features
    all_results.*2.

End EvaluateModel.

(** ** Whitespace of ASCII text

    What [str.strip()] and [str.split()] do on text without other blank
    characters than the ASCII ones; used for the sample files. *)

Definition is_space (c : ascii) : bool :=
  let n := nat_of_ascii c in
  (n =? 32)%nat || ((9 <=? n)%nat && (n <=? 13)%nat).

Fixpoint ws_fields (cur : list ascii) (s : list ascii) : list (list ascii) :=
  match s with
  | [] => match cur with [] => [] | _ => [rev cur] end
  | c :: s' =>
      if is_space c
      then match cur with
           | [] => ws_fields [] s'
           | _ => rev cur :: ws_fields [] s'
           end
      else ws_fields (c :: cur) s'
  end.

Definition ws_split (s : string) : list string :=
  string_of_list_ascii <$> ws_fields [] (list_ascii_of_string s).

Fixpoint ws_lstrip (s : list ascii) : list ascii :=
  match s with
  | [] => []
  | c :: s' => if is_space c then ws_lstrip s' else s
  end.

Definition ws_strip (s : string) : string :=
  string_of_list_ascii
    (rev (ws_lstrip (rev (ws_lstrip (list_ascii_of_string s))))).

(** A two-sentence file in the CoNLL format. *)
Definition sample_conll : list string :=
  ["-DOCSTART- -X- -X- O"; "";
   "John NNP B-NP B-PER"; "lives VBZ B-VP O"; "";
   "Paris NNP B-NP B-LOC"; ""].

(** ** Closed forms for the further properties *)

(** The subword pieces of an unlabeled example, each with the index of its
    word. *)
Definition word_pieces_unsup (tokenizer : Tokenizer) (w : nat * string)
  : list (nat * string) :=
  (fun sub_token => (w.1, sub_token)) <$> tokenize tokenizer w.2.

Definition pieces_unsup (tokenizer : Tokenizer) (example : UnsupervisedExample)
  : list (nat * string) :=
  enumerate (uex_tokens example) ≫= word_pieces_unsup tokenizer.

(** The layout of the arrays that do not depend on labels: the tokens fit,
    the ids are those of the tokens followed by zeros, the attention mask is
    1 on the tokens and 0 after them, the loss mask is [head_flag] of the
    tokens followed by zeros, and the segment ids are all 0. *)
Definition laid_out (tokenizer : Tokenizer) (max_seq_length : Z)
  (f : InputFeatures) : Prop :=
  let n := length (tokens f) in
  let k := Z.to_nat (max_seq_length - Z.of_nat n) in
  (Z.of_nat n <= max_seq_length)%Z /\
  input_ids f = (token_id tokenizer <$> tokens f) ++ replicate k 0%Z /\
  input_mask f = replicate n 1%Z ++ replicate k 0%Z /\
  loss_mask f = (head_flag <$> tokens f) ++ replicate k 0%Z /\
  segment_ids f = replicate (n + k) 0%Z.

(** Two features agree on everything but their identifiers and label ids. *)
Definition same_arrays (f g : InputFeatures) : Prop :=
  tokens f = tokens g /\
  token_to_orig_map f = token_to_orig_map g /\
  input_ids f = input_ids g /\
  input_mask f = input_mask g /\
  loss_mask f = loss_mask g /\
  segment_ids f = segment_ids g.

(** A labeled example without its labels. *)
Definition unlabel (example : NERExample) : UnsupervisedExample :=
  {| uex_tokens := ex_tokens example |}.

(** [f] is a feature that one of the two conversions produced. *)
Definition produced (tokenizer : Tokenizer) (max_seq_length : Z)
  (f : InputFeatures) : Prop :=
  (exists v0 examples v features,
     convert_examples_to_features v0 examples tokenizer max_seq_length
       = Ok (v, features) /\ f ∈ features) \/
  (exists examples features,
     convert_unsupervised_examples_to_features examples tokenizer
       max_seq_length = Ok features /\ f ∈ features).

(** The number of words that have a subword piece among the first [room]
    pieces of the example. *)
Fixpoint kept_words (tokenizer : Tokenizer) (room : nat)
  (zs : list (string * string)) : nat :=
  match zs with
  | [] => 0
  | z :: zs' =>
      match room with
      | 0 => 0
      | S _ =>
          S (kept_words tokenizer
               (room - length (tokenize tokenizer z.1)) zs')
      end
  end.

(** What every state of the reconstruction walk satisfies. *)
Definition walk_ok (example : NERExample) (raw : list string) (st : Walk)
  : Prop :=
  length (predicted_labels st) = length (true_labels st) /\
  Forall (fun l => l ∈ ex_labels example) (true_labels st) /\
  Forall (fun l => l ∈ raw) (predicted_labels st).

(** What the loop of [read_ner_examples] keeps: every example has a label
    for every word and at least one word, the label set of the vocabulary
    holds the labels of the examples and nothing else, and the vocabulary
    is not frozen. *)
Definition well_read (st : LabelVocab * list NERExample) : Prop :=
  Forall (fun e => length (ex_tokens e) = length (ex_labels e) /\
                   ex_tokens e <> []) st.2 /\
  (forall l, l ∈ label_set st.1 <-> exists e, e ∈ st.2 /\ l ∈ ex_labels e) /\
  labels st.1 = [] /\
  labels_dict st.1 = ∅.

(** Column [j] of the rows of fields of a sentence. *)
Definition column (j : nat) (rows : list (list string)) : list string :=
  (fun r => default ""%string (r !! j)) <$> rows.

(** * Properties *)

(** ** Exceptions and loops *)

Section ResultLemmas.

Context {A B : Type}.
Implicit Types (f : A -> result B) (l : list A).

Lemma mapM_Ok_Forall2 f l ys :
  mapM f l = Ok ys -> Forall2 (fun x y => f x = Ok y) l ys.
Proof.
  revert ys. induction l as [|x l IH]; intros ys H; simpl in H.
  - injection H as <-. constructor.
  - destruct (f x) as [y|e] eqn:Hx; simpl in H; [|discriminate].
    destruct (mapM f l) as [ys'|e] eqn:Hl; simpl in H; [|discriminate].
    injection H as <-. constructor; auto.
Qed.

Lemma mapM_Ok_length f l ys : mapM f l = Ok ys -> length ys = length l.
Proof. intros H%mapM_Ok_Forall2. symmetry. eapply Forall2_length, H. Qed.

Lemma mapM_total f l :
  (forall x, x ∈ l -> exists y, f x = Ok y) -> exists ys, mapM f l = Ok ys.
Proof.
  induction l as [|x l IH]; intros H; simpl.
  - by exists [].
  - destruct (H x) as [y ->]; [left|].
    destruct IH as [ys ->]; [intros; apply H; by right|].
    by exists (y :: ys).
Qed.

Lemma mapM_app f l1 l2 ys1 ys2 :
  mapM f l1 = Ok ys1 -> mapM f l2 = Ok ys2 ->
  mapM f (l1 ++ l2) = Ok (ys1 ++ ys2).
Proof.
  revert ys1. induction l1 as [|x l1 IH]; intros ys1 H1 H2; simpl in *.
  - by injection H1 as <-.
  - destruct (f x) as [y|e]; simpl in *; [|discriminate].
    destruct (mapM f l1) as [ys|e]; simpl in *; [|discriminate].
    injection H1 as <-. by rewrite (IH ys eq_refl H2).
Qed.

End ResultLemmas.

Lemma enumerate_from_length {A : Type} (n : nat) (l : list A) :
  length (enumerate_from n l) = length l.
Proof. revert n. induction l; intros; simpl; auto. Qed.

Lemma enumerate_from_app {A : Type} (n : nat) (l1 l2 : list A) :
  enumerate_from n (l1 ++ l2) =
  enumerate_from n l1 ++ enumerate_from (n + length l1) l2.
Proof.
  revert n. induction l1 as [|x l1 IH]; intros n; simpl.
  - by rewrite Nat.add_0_r.
  - rewrite IH. do 3 f_equal. lia.
Qed.

Lemma enumerate_from_lookup {A : Type} (n : nat) (l : list A) (i : nat) :
  enumerate_from n l !! i = (fun x => (n + i, x)) <$> l !! i.
Proof.
  revert n i. induction l as [|x l IH]; intros n [|i]; simpl; auto.
  - by rewrite Nat.add_0_r.
  - rewrite IH. destruct (l !! i); simpl; do 2 f_equal. lia.
Qed.

Lemma enumerate_from_elem {A : Type} (n : nat) (l : list A) (i : nat) (x : A) :
  (i, x) ∈ enumerate_from n l <-> n <= i /\ l !! (i - n) = Some x.
Proof.
  rewrite list_elem_of_lookup. split.
  - intros [k Hk]. rewrite enumerate_from_lookup in Hk.
    destruct (l !! k) eqn:E; simpl in Hk; [|discriminate].
    injection Hk as <- <-. split; [lia|].
    by replace (n + k - n) with k by lia.
  - intros [Hle Hx]. exists (i - n). rewrite enumerate_from_lookup, Hx.
    simpl. do 2 f_equal. lia.
Qed.

(** ** The label vocabulary *)

Section VocabLemmas.

Implicit Types (v : LabelVocab) (ls : list string) (d : gmap string nat).

Lemma sorted_perm ls : sorted ls ≡ₚ ls.
Proof. apply merge_sort_Permutation. Qed.

Lemma sorted_length ls : length (sorted ls) = length ls.
Proof. apply Permutation_length, sorted_perm. Qed.

Lemma elem_of_sorted ls (x : string) : x ∈ sorted ls <-> x ∈ ls.
Proof. by rewrite sorted_perm. Qed.

(** The entries of the inverted enumeration point back into the list. *)
Lemma invert_fold_sound (its : list (nat * string)) d ls :
  (forall l i, d !! l = Some i -> ls !! i = Some l) ->
  (forall i l, (i, l) ∈ its -> ls !! i = Some l) ->
  forall l i,
    fold_left (fun d kv => <[kv.2 := kv.1]> d) its d !! l = Some i ->
    ls !! i = Some l.
Proof.
  revert d. induction its as [|[k x] its IH]; intros d Hd Hits l i; simpl.
  - apply Hd.
  - apply IH.
    + intros l' i'. rewrite lookup_insert. case_decide as E.
      * intros [= <-]. subst l'. apply Hits. left.
      * apply Hd.
    + intros i' l' H. apply Hits. by right.
Qed.

Lemma invert_fold_complete (its : list (nat * string)) d l :
  is_Some (d !! l) \/ (exists i, (i, l) ∈ its) ->
  is_Some (fold_left (fun d kv => <[kv.2 := kv.1]> d) its d !! l).
Proof.
  revert d. induction its as [|[k x] its IH]; intros d H; simpl.
  - destruct H as [H|[i H]]; [done|by apply elem_of_nil in H].
  - apply IH. destruct H as [H|[i H]].
    + left. rewrite lookup_insert. case_decide; [by eexists|done].
    + apply elem_of_cons in H as [[= -> ->]|H].
      * left. rewrite lookup_insert_eq. by eexists.
      * right. by exists i.
Qed.

Lemma invert_enumerate_sound ls l i :
  LabelVocab.invert_enumerate ls !! l = Some i -> ls !! i = Some l.
Proof.
  apply invert_fold_sound.
  - intros l' i'. by rewrite lookup_empty.
  - intros i' l' [_ H]%enumerate_from_elem.
    by rewrite Nat.sub_0_r in H.
Qed.

Lemma invert_enumerate_complete ls l :
  l ∈ ls -> is_Some (LabelVocab.invert_enumerate ls !! l).
Proof.
  intros [i Hi]%list_elem_of_lookup. apply invert_fold_complete. right.
  exists i. apply enumerate_from_elem. split; [lia|].
  by rewrite Nat.sub_0_r.
Qed.

Lemma build_labels_elem v l :
  l ∈ labels (LabelVocab.build v) <-> l = "O" \/ l ∈ label_set v.
Proof.
  simpl. rewrite elem_of_cons, elem_of_sorted, elem_of_elements.
  rewrite elem_of_difference, elem_of_singleton.
  destruct (decide (l = "O")); tauto.
Qed.

(** Ids and labels of a frozen vocabulary are inverse to each other. *)
Lemma build_dict_sound v l i :
  labels_dict (LabelVocab.build v) !! l = Some i ->
  labels (LabelVocab.build v) !! i = Some l.
Proof. apply invert_enumerate_sound. Qed.

Lemma build_dict_complete v l :
  l = "O" \/ l ∈ label_set v ->
  is_Some (labels_dict (LabelVocab.build v) !! l).
Proof.
  intros H. apply invert_enumerate_complete.
  by apply (build_labels_elem v).
Qed.

Lemma build_length v :
  length (labels (LabelVocab.build v)) = S (size (label_set v ∖ {["O"]})).
Proof. simpl. by rewrite sorted_length. Qed.

Lemma update_all_frozen (exs : list NERExample) v :
  labels (fold_left LabelVocab.update exs v) = labels v /\
  labels_dict (fold_left LabelVocab.update exs v) = labels_dict v.
Proof.
  revert v. induction exs as [|e exs IH]; intros v; simpl; [done|].
  destruct (IH (LabelVocab.update v e)) as [-> ->]. done.
Qed.

End VocabLemmas.

(** C3.  A vocabulary whose accumulated set is {"O", "B-PER", "I-PER"} is
    frozen by [build] into the list ["O"; "B-PER"; "I-PER"], with the ids 0,
    1 and 2, and building once more changes nothing: the same list and the
    same label-to-id mapping come out. *)
Theorem build_o_bper_iper (v : LabelVocab) :
  label_set v = {["O"; "B-PER"; "I-PER"]} ->
  labels (LabelVocab.build v) = ["O"; "B-PER"; "I-PER"] /\
  labels_dict (LabelVocab.build v) = {["O" := 0; "B-PER" := 1; "I-PER" := 2]} /\
  labels (LabelVocab.build (LabelVocab.build v)) = labels (LabelVocab.build v) /\
  labels_dict (LabelVocab.build (LabelVocab.build v))
    = labels_dict (LabelVocab.build v).
Proof.
  intros H. unfold LabelVocab.build. simpl. rewrite H.
  repeat split; vm_compute; reflexivity.
Qed.

Lemma build_o_bper_iper_witness :
  let v := LabelVocab.update LabelVocab.init
             {| ex_tokens := ["Ann"; "Lee"; "sings"];
                ex_labels := ["B-PER"; "I-PER"; "O"] |} in
  labels (LabelVocab.build v) = ["O"; "B-PER"; "I-PER"] /\
  labels_dict (LabelVocab.build v) = {["O" := 0; "B-PER" := 1; "I-PER" := 2]} /\
  labels (LabelVocab.build (LabelVocab.build v)) = labels (LabelVocab.build v) /\
  labels_dict (LabelVocab.build (LabelVocab.build v))
    = labels_dict (LabelVocab.build v).
Proof.
  intros v. apply (build_o_bper_iper v). vm_compute. reflexivity.
Defined.

(** C9.  After [build], updating the accumulated set with further examples
    leaves the frozen list and dictionary alone: [convert_labels_to_ids]
    answers every query as before, and for a label that was in the set when
    the vocabulary was frozen this answer is an id. *)
Theorem frozen_ids_stable (v : LabelVocab) (more : list NERExample)
  (ls : list string) (label : string) :
  label ∈ label_set v ->
  let frozen := LabelVocab.build v in
  let mutated := fold_left LabelVocab.update more frozen in
  LabelVocab.convert_labels_to_ids mutated ls
    = LabelVocab.convert_labels_to_ids frozen ls /\
  exists id,
    LabelVocab.convert_labels_to_ids frozen [label] = Ok [id] /\
    LabelVocab.convert_labels_to_ids mutated [label] = Ok [id].
Proof.
  intros Hin frozen mutated.
  destruct (update_all_frozen more frozen) as [_ Hd].
  assert (Hall : forall q, LabelVocab.convert_labels_to_ids mutated q
                           = LabelVocab.convert_labels_to_ids frozen q).
  { intros q. unfold LabelVocab.convert_labels_to_ids. fold mutated in Hd.
    by rewrite Hd. }
  split; [apply Hall|].
  destruct (build_dict_complete v label (or_intror Hin)) as [id Hid].
  change (labels_dict frozen !! label = Some id) in Hid.
  exists id. rewrite Hall.
  unfold LabelVocab.convert_labels_to_ids. cbn [mapM].
  by rewrite Hid.
Qed.

Lemma frozen_ids_stable_witness :
  let v := LabelVocab.update LabelVocab.init
             {| ex_tokens := ["Rome"]; ex_labels := ["I-LOC"] |} in
  let frozen := LabelVocab.build v in
  let mutated := LabelVocab.update frozen
                   {| ex_tokens := ["Ann"]; ex_labels := ["B-PER"] |} in
  LabelVocab.convert_labels_to_ids mutated ["I-LOC"; "O"]
    = LabelVocab.convert_labels_to_ids frozen ["I-LOC"; "O"] /\
  exists id,
    LabelVocab.convert_labels_to_ids frozen ["I-LOC"] = Ok [id] /\
    LabelVocab.convert_labels_to_ids mutated ["I-LOC"] = Ok [id].
Proof.
  intros v.
  apply (frozen_ids_stable v
           [{| ex_tokens := ["Ann"]; ex_labels := ["B-PER"] |}]
           ["I-LOC"; "O"] "I-LOC").
  vm_compute. set_solver.
Defined.

(** C10.  [len(vocab)] is the size of the accumulated set, before and after
    [build]; [build] puts "O" at index 0 whatever the set holds.  Hence the
    frozen list is as long as [len(vocab)] exactly when "O" was observed, and
    one entry longer when it was not. *)
Theorem len_vs_frozen_labels (v : LabelVocab) :
  LabelVocab.len v = size (label_set v) /\
  LabelVocab.len (LabelVocab.build v) = LabelVocab.len v /\
  labels (LabelVocab.build v) !! 0 = Some "O" /\
  (LabelVocab.len v = length (labels (LabelVocab.build v))
     <-> "O" ∈ label_set v) /\
  ("O" ∉ label_set v ->
     length (labels (LabelVocab.build v)) = S (LabelVocab.len v)).
Proof.
  assert (Hin : "O" ∈ label_set v ->
                S (size (label_set v ∖ {["O"]})) = size (label_set v)).
  { intros H. rewrite size_difference by (by apply singleton_subseteq_l).
    rewrite size_singleton.
    assert (size (label_set v) <> 0); [|lia].
    intros E%size_empty_iff. rewrite E in H. by apply not_elem_of_empty in H. }
  assert (Hout : "O" ∉ label_set v ->
                 size (label_set v ∖ {["O"]}) = size (label_set v)).
  { intros H. f_equal. apply difference_disjoint_L.
    by apply disjoint_singleton_r. }
  unfold LabelVocab.len. rewrite build_length.
  split; [done|]. split; [done|]. split; [done|]. split.
  - destruct (decide ("O" ∈ label_set v)) as [H|H].
    + rewrite (Hin H). done.
    + rewrite (Hout H). split; [lia|done].
  - intros H. by rewrite (Hout H).
Qed.

Lemma len_vs_frozen_labels_witness :
  let v := LabelVocab.update LabelVocab.init
             {| ex_tokens := ["Ann"; "Lee"];
                ex_labels := ["B-PER"; "I-PER"] |} in
  LabelVocab.len v = 2 /\ length (labels (LabelVocab.build v)) = 3.
Proof.
  intros v.
  destruct (len_vs_frozen_labels v) as (_ & _ & _ & _ & H).
  split; [vm_compute; reflexivity|].
  rewrite H; [vm_compute; reflexivity|].
  vm_compute. set_solver.
Defined.

(** ** Feature conversion *)

Lemma bind_Ok {A B : Type} (m : result A) (k : A -> result B) (b : B) :
  m ≫= k = Ok b -> exists a, m = Ok a /\ k a = Ok b.
Proof. destruct m as [a|e]; [by exists a|discriminate]. Qed.

Lemma result_bind_Ok {A B : Type} (a : A) (k : A -> result B) :
  Ok a ≫= k = k a.
Proof. reflexivity. Qed.

Lemma assert_Ok (b : bool) (u : unit) : assert b = Ok u -> b = true.
Proof. by destruct b. Qed.

Lemma len_is_true {A : Type} (l : list A) (n : Z) :
  len_is l n = true <-> Z.of_nat (length l) = n.
Proof. unfold len_is. apply Z.eqb_eq. Qed.

Section PadLemmas.

Implicit Types (a : Arrays) (msl : Z).

Lemma pad_n_0 a : pad_n 0 a = a.
Proof.
  destruct a as [? ? ? ? [l|]]; unfold pad_n; simpl;
    by rewrite ?app_nil_r.
Qed.

Lemma pad_n_S k a : pad_n k (pad_step a) = pad_n (S k) a.
Proof.
  destruct a as [? ? ? ? [l|]]; unfold pad_n, pad_step; simpl;
    by rewrite <- ?app_assoc.
Qed.

Lemma pad_loop_spec fuel msl a :
  Z.to_nat (msl - Z.of_nat (length (a_input_ids a))) <= fuel ->
  pad_loop fuel msl a
  = pad_n (Z.to_nat (msl - Z.of_nat (length (a_input_ids a)))) a.
Proof.
  revert a. induction fuel as [|fuel IH]; intros a Hfuel; simpl.
  - replace (Z.to_nat _) with 0 by lia. by rewrite pad_n_0.
  - destruct (Z.ltb_spec (Z.of_nat (length (a_input_ids a))) msl) as [Hlt|Hge].
    + rewrite IH; simpl; rewrite ?length_app; simpl; [|lia].
      rewrite pad_n_S. f_equal. lia.
    + replace (Z.to_nat _) with 0 by lia. by rewrite pad_n_0.
Qed.

Lemma zero_pad_spec msl a :
  zero_pad msl a
  = pad_n (Z.to_nat (msl - Z.of_nat (length (a_input_ids a)))) a.
Proof. apply pad_loop_spec. lia. Qed.

End PadLemmas.

Section LossMaskLemmas.

Lemma clear_tails_spec (toks : list string) (n : nat) (pre rest : list Z) :
  length pre = n -> length rest = length toks ->
  clear_tails (enumerate_from n toks) (pre ++ rest)
  = Ok (pre ++ zip_with (fun t m => if String.prefix "##" t then 0%Z else m)
                  toks rest).
Proof.
  revert n pre rest.
  induction toks as [|t toks IH]; intros n pre [|m rest] Hn Hlen;
    simpl in *; try discriminate; [done|].
  injection Hlen as Hlen.
  assert (Hnext : forall m', pre ++ m' :: rest = (pre ++ [m']) ++ rest)
    by (intros; by rewrite <- app_assoc).
  destruct (String.prefix "##" t).
  - unfold set_item. rewrite decide_True
      by (rewrite length_app; simpl; lia).
    simpl. subst n. rewrite insert_app_r_alt, Nat.sub_diag by lia. simpl.
    rewrite (Hnext 0%Z), IH; rewrite ?length_app; simpl; try lia.
    by rewrite <- app_assoc.
  - rewrite (Hnext m), IH; rewrite ?length_app; simpl; try lia.
    by rewrite <- app_assoc.
Qed.

(** On a mask of ones as long as the token row, the loop leaves
    [head_flag] of every token. *)
Lemma build_loss_mask_ones (toks : list string) :
  build_loss_mask toks (replicate (length toks) 1%Z)
  = Ok (head_flag <$> toks).
Proof.
  unfold build_loss_mask, enumerate.
  pose proof (clear_tails_spec toks 0 [] (replicate (length toks) 1%Z)
                eq_refl (length_replicate _ _)) as H.
  simpl in H. rewrite H. f_equal. clear H.
  induction toks as [|t toks IH]; simpl; [done|].
  by rewrite IH.
Qed.

End LossMaskLemmas.

Section ConvertLemmas.

Variable tokenizer : Tokenizer.
Implicit Types (v : LabelVocab) (msl uid : Z) (f : InputFeatures).

Lemma const_fmap_replicate {A B : Type} (b : B) (l : list A) :
  (fun _ => b) <$> l = replicate (length l) b.
Proof. induction l; simpl; by f_equal. Qed.

Lemma assert_len_is {A : Type} (l : list A) (n : Z) :
  Z.of_nat (length l) = n -> assert (len_is l n) = Ok tt.
Proof. intros H%len_is_true. by rewrite H. Qed.

Lemma assert_len_is_not {A : Type} (l : list A) (n : Z) :
  Z.of_nat (length l) <> n -> assert (len_is l n) = Err AssertionError.
Proof.
  intros H. destruct (len_is l n) eqn:E; [|done].
  by apply len_is_true in E.
Qed.

(** The labeled loop body without its intermediate state: the label ids
    are looked up, the rows are padded with [k] zeros, and the assertions
    pass exactly when the token row fits into [msl]. *)
Lemma convert_example_closed v msl uid index example :
  let toks := feature_tokens tokenizer msl example in
  let k := Z.to_nat (msl - Z.of_nat (length toks)) in
  convert_example tokenizer v msl uid index example
  = ids ← LabelVocab.convert_labels_to_ids v
            (feature_labels tokenizer msl example);
    if decide (Z.of_nat (length toks) <= msl)%Z
    then Ok {| unique_id := uid;
               example_index := index;
               tokens := toks;
               token_to_orig_map :=
                 build_token_to_orig_map
                   (tok_to_orig_index (split_example tokenizer example));
               input_ids := (token_id tokenizer <$> toks) ++ replicate k 0%Z;
               input_mask := replicate (length toks) 1%Z ++ replicate k 0%Z;
               loss_mask := (head_flag <$> toks) ++ replicate k 0%Z;
               segment_ids := replicate (length toks) 0%Z ++ replicate k 0%Z;
               label_ids := Some (ids ++ replicate k 0) |}
    else Err AssertionError.
Proof.
  intros toks k. unfold convert_example. cbv zeta.
  subst k toks. unfold feature_labels, feature_tokens. cbv zeta.
  set (body := zip _ _).
  set (toks := ["[CLS]"] ++ body.*1 ++ ["[SEP]"]).
  destruct (LabelVocab.convert_labels_to_ids v _) as [ids|e] eqn:Hids;
    [|done].
  assert (Hlen_ids : length ids = length toks).
  { apply mapM_Ok_length in Hids. rewrite Hids. subst toks.
    rewrite !length_app, !length_fmap. done. }
  assert (Hseg : [0%Z] ++ ((fun _ => 0%Z) <$> body) ++ [0%Z]
                 = replicate (length toks) 0%Z).
  { subst toks. rewrite !length_app, length_fmap, const_fmap_replicate.
    simpl. f_equal. by rewrite replicate_add. }
  rewrite Hseg. clearbody toks.
  unfold convert_tokens_to_ids. rewrite length_fmap.
  rewrite build_loss_mask_ones.
  unfold mbind at 1 2, result_bind; simpl bind.
  rewrite zero_pad_spec. unfold pad_n; simpl a_input_ids;
    simpl a_input_mask; simpl a_loss_mask; simpl a_segment_ids;
    simpl a_label_ids.
  rewrite length_fmap.
  set (k := Z.to_nat (msl - Z.of_nat (length toks))).
  destruct (decide (Z.of_nat (length toks) <= msl)%Z) as [Hfit|Hbig].
  - rewrite !assert_len_is
      by (simpl; rewrite ?length_app, ?length_fmap, ?length_replicate;
          unfold k; lia).
    done.
  - rewrite (assert_len_is_not
               ((token_id tokenizer <$> toks) ++ replicate k 0%Z)).
    + reflexivity.
    + rewrite length_app, length_fmap, length_replicate. unfold k. lia.
Qed.

(** The unlabeled loop body in the same form. *)
Lemma convert_unsupervised_example_closed msl uid index example :
  let toks := feature_tokens_unsup tokenizer msl example in
  let k := Z.to_nat (msl - Z.of_nat (length toks)) in
  convert_unsupervised_example tokenizer msl uid index example
  = if decide (Z.of_nat (length toks) <= msl)%Z
    then Ok {| unique_id := uid;
               example_index := index;
               tokens := toks;
               token_to_orig_map :=
                 build_token_to_orig_map
                   (tok_to_orig_index
                      (split_unsupervised tokenizer example));
               input_ids := (token_id tokenizer <$> toks) ++ replicate k 0%Z;
               input_mask := replicate (length toks) 1%Z ++ replicate k 0%Z;
               loss_mask := (head_flag <$> toks) ++ replicate k 0%Z;
               segment_ids := replicate (length toks) 0%Z ++ replicate k 0%Z;
               label_ids := None |}
    else Err AssertionError.
Proof.
  intros toks k. unfold convert_unsupervised_example. cbv zeta.
  subst k toks. unfold feature_tokens_unsup.
  set (body := slice_to _ _).
  set (toks := ["[CLS]"] ++ body ++ ["[SEP]"]).
  assert (Hseg : [0%Z] ++ ((fun _ => 0%Z) <$> body) ++ [0%Z]
                 = replicate (length toks) 0%Z).
  { subst toks. rewrite !length_app, const_fmap_replicate.
    simpl. f_equal. by rewrite replicate_add. }
  rewrite Hseg. clearbody toks.
  unfold convert_tokens_to_ids. rewrite length_fmap.
  rewrite build_loss_mask_ones.
  unfold mbind at 1, result_bind; simpl bind.
  rewrite zero_pad_spec. unfold pad_n; simpl a_input_ids;
    simpl a_input_mask; simpl a_loss_mask; simpl a_segment_ids.
  rewrite length_fmap.
  set (k := Z.to_nat (msl - Z.of_nat (length toks))).
  destruct (decide (Z.of_nat (length toks) <= msl)%Z) as [Hfit|Hbig].
  - rewrite !assert_len_is
      by (simpl; rewrite ?length_app, ?length_fmap, ?length_replicate;
          unfold k; lia).
    done.
  - rewrite (assert_len_is_not
               ((token_id tokenizer <$> toks) ++ replicate k 0%Z)).
    + reflexivity.
    + rewrite length_app, length_fmap, length_replicate. unfold k. lia.
Qed.

(** The word loop collects the pieces of all words, in order. *)
Lemma fold_add_sub_token i label (subs : list string) (st : Pieces) :
  fold_left (add_sub_token i label) subs st
  = {| tok_to_orig_index := tok_to_orig_index st ++ ((fun _ => i) <$> subs);
       orig_to_tok_index := orig_to_tok_index st;
       all_tokens := all_tokens st ++ subs;
       all_labels := all_labels st ++ ((fun _ => label) <$> subs) |}.
Proof.
  revert st. induction subs as [|s subs IH]; intros st; simpl.
  - destruct st; simpl. by rewrite !app_nil_r.
  - rewrite IH. simpl. by rewrite <- !app_assoc.
Qed.

Lemma word_pieces_proj i t l :
  (word_pieces tokenizer (i, (t, l))).*1.*1
    = ((fun _ => i) <$> tokenize tokenizer t) /\
  (word_pieces tokenizer (i, (t, l))).*1.*2 = tokenize tokenizer t /\
  (word_pieces tokenizer (i, (t, l))).*2
    = ((fun _ => l) <$> tokenize tokenizer t).
Proof.
  unfold word_pieces. cbn [fst snd].
  repeat split; induction (tokenize tokenizer t) as [|s subs IH];
    csimpl; f_equal; auto.
Qed.

Lemma fold_add_word (ws : list (nat * (string * string))) (st : Pieces) :
  let ps := ws ≫= word_pieces tokenizer in
  let st' := fold_left (add_word tokenizer) ws st in
  tok_to_orig_index st' = tok_to_orig_index st ++ ps.*1.*1 /\
  all_tokens st' = all_tokens st ++ ps.*1.*2 /\
  all_labels st' = all_labels st ++ ps.*2.
Proof.
  revert st. induction ws as [|[i [t l]] ws IH]; intros st.
  - simpl. by rewrite !app_nil_r.
  - cbv zeta in *. rewrite bind_cons. cbn [fold_left].
    destruct (IH (add_word tokenizer st (i, (t, l)))) as (-> & -> & ->).
    destruct (word_pieces_proj i t l) as (E1 & E2 & E3).
    rewrite !fmap_app, E1, E2, E3.
    unfold add_word. rewrite fold_add_sub_token.
    cbn [tok_to_orig_index all_tokens all_labels].
    by rewrite <- !app_assoc.
Qed.

Lemma split_example_pieces example :
  let p := split_example tokenizer example in
  let ps := pieces tokenizer example in
  tok_to_orig_index p = ps.*1.*1 /\
  all_tokens p = ps.*1.*2 /\
  all_labels p = ps.*2.
Proof. apply (fold_add_word _ no_pieces). Qed.

Lemma slice_to_fmap {A B : Type} (g : A -> B) (n : Z) (l : list A) :
  slice_to n (g <$> l) = g <$> slice_to n l.
Proof.
  unfold slice_to. rewrite length_fmap.
  destruct (0 <=? n)%Z; by rewrite fmap_take.
Qed.

Lemma slice_to_fits {A : Type} (n : Z) (l : list A) :
  (Z.of_nat (length l) <= n)%Z -> slice_to n l = l.
Proof.
  intros H. unfold slice_to.
  destruct (Z.leb_spec 0 n); [|lia]. apply take_ge. lia.
Qed.

Lemma slice_to_length {A : Type} (n : Z) (l : list A) :
  (0 <= n)%Z -> (Z.of_nat (length (slice_to n l)) <= n)%Z.
Proof.
  intros H. unfold slice_to. destruct (Z.leb_spec 0 n); [|lia].
  rewrite length_take. lia.
Qed.

Lemma slice_to_elem {A : Type} (n : Z) (l : list A) (x : A) :
  x ∈ slice_to n l -> x ∈ l.
Proof.
  unfold slice_to. destruct (0 <=? n)%Z; apply subseteq_take.
Qed.

(** Token and label rows of a labeled feature, through [pieces]. *)
Lemma feature_rows msl example :
  let body := slice_to (msl - 2) (pieces tokenizer example) in
  feature_tokens tokenizer msl example
    = ["[CLS]"] ++ body.*1.*2 ++ ["[SEP]"] /\
  feature_labels tokenizer msl example = ["O"] ++ body.*2 ++ ["O"].
Proof.
  intros body. unfold feature_tokens, feature_labels. cbv zeta.
  destruct (split_example_pieces example) as (_ & -> & ->).
  rewrite !slice_to_fmap. fold body.
  rewrite fst_zip, snd_zip by (by rewrite !length_fmap). done.
Qed.

End ConvertLemmas.

Section ConvertListLemmas.

Variable tokenizer : Tokenizer.
Implicit Types (v : LabelVocab) (msl : Z) (f : InputFeatures).

Lemma enumerate_length {A : Type} (l : list A) :
  length (enumerate l) = length l.
Proof. apply enumerate_from_length. Qed.

Lemma enumerate_lookup {A : Type} (l : list A) (i : nat) :
  enumerate l !! i = (fun x => (i, x)) <$> l !! i.
Proof. apply (enumerate_from_lookup 0). Qed.

Lemma enumerate_elem {A : Type} (l : list A) (i : nat) (x : A) :
  (i, x) ∈ enumerate l -> x ∈ l.
Proof.
  intros [_ H]%enumerate_from_elem. eapply list_elem_of_lookup_2, H.
Qed.

(** The features come out one per example, in order, each from the loop
    body run with the frozen vocabulary. *)
Lemma convert_examples_Ok v0 examples msl v features :
  convert_examples_to_features v0 examples tokenizer msl = Ok (v, features) ->
  v = LabelVocab.build v0 /\
  length features = length examples /\
  forall i f, features !! i = Some f ->
    exists example, examples !! i = Some example /\
      convert_example tokenizer v msl (1000000000 + Z.of_nat i) i example
      = Ok f.
Proof.
  unfold convert_examples_to_features. intros H.
  apply bind_Ok in H as (e0 & _ & H).
  apply bind_Ok in H as (fs & Hfs & H).
  injection H as <- <-.
  split; [done|]. split.
  - apply mapM_Ok_length in Hfs. by rewrite enumerate_length in Hfs.
  - intros i f Hf. apply mapM_Ok_Forall2 in Hfs.
    destruct (Forall2_lookup_r _ _ _ _ _ Hfs Hf) as ([j ex] & Hj & Hex).
    rewrite enumerate_lookup in Hj.
    destruct (examples !! i) as [ex'|] eqn:E; simpl in Hj; [|discriminate].
    injection Hj as <- <-. by exists ex'.
Qed.

Lemma convert_unsupervised_examples_Ok examples msl features :
  convert_unsupervised_examples_to_features examples tokenizer msl
    = Ok features ->
  length features = length examples /\
  forall i f, features !! i = Some f ->
    exists example, examples !! i = Some example /\
      convert_unsupervised_example tokenizer msl
        (2000000000 + Z.of_nat i) i example = Ok f.
Proof.
  unfold convert_unsupervised_examples_to_features. intros Hfs. split.
  - apply mapM_Ok_length in Hfs. by rewrite enumerate_length in Hfs.
  - intros i f Hf. apply mapM_Ok_Forall2 in Hfs.
    destruct (Forall2_lookup_r _ _ _ _ _ Hfs Hf) as ([j ex] & Hj & Hex).
    rewrite enumerate_lookup in Hj.
    destruct (examples !! i) as [ex'|] eqn:E; simpl in Hj; [|discriminate].
    injection Hj as <- <-. by exists ex'.
Qed.

Lemma convert_example_lengths v msl uid index example f :
  convert_example tokenizer v msl uid index example = Ok f ->
  arrays_have_length f msl /\
  exists ids, label_ids f = Some ids /\ Z.of_nat (length ids) = msl.
Proof.
  rewrite convert_example_closed. intros H.
  apply bind_Ok in H as (ids & Hids & H).
  assert (Hlen : length ids
                 = length (feature_tokens tokenizer msl example)).
  { apply mapM_Ok_length in Hids. rewrite Hids.
    destruct (feature_rows tokenizer msl example) as [-> ->].
    by rewrite !length_app, !length_fmap. }
  revert H Hlen. generalize (feature_tokens tokenizer msl example).
  intros toks H Hlen.
  destruct (decide _) as [Hfit|]; [|discriminate].
  injection H as <-. unfold arrays_have_length.
  cbn [input_ids input_mask loss_mask segment_ids label_ids].
  rewrite !length_app, !length_fmap, !length_replicate.
  split_and!; try lia.
  - intros ids' [= <-]. rewrite length_app, length_replicate. lia.
  - eexists. split; [done|]. rewrite length_app, length_replicate. lia.
Qed.

Lemma convert_unsupervised_example_lengths msl uid index example f :
  convert_unsupervised_example tokenizer msl uid index example = Ok f ->
  arrays_have_length f msl /\ label_ids f = None.
Proof.
  rewrite convert_unsupervised_example_closed.
  generalize (feature_tokens_unsup tokenizer msl example).
  intros toks H.
  destruct (decide _) as [Hfit|]; [|discriminate].
  injection H as <-. unfold arrays_have_length.
  cbn [input_ids input_mask loss_mask segment_ids label_ids].
  rewrite !length_app, !length_fmap, !length_replicate.
  split_and!; try lia; done.
Qed.

Lemma pieces_label example o t l :
  (o, t, l) ∈ pieces tokenizer example -> l ∈ ex_labels example.
Proof.
  unfold pieces. intros ([i [t' l']] & Hp & Hw)%list_elem_of_bind.
  unfold word_pieces in Hp.
  apply list_elem_of_fmap in Hp as (s & [= -> -> ->] & _). simpl.
  apply enumerate_elem in Hw. eapply elem_of_zip_r, Hw.
Qed.

(** With room for the two markers and every label in the accumulated
    set, the loop body produces a feature. *)
Lemma convert_example_total v0 msl uid index example :
  (2 <= msl)%Z ->
  (forall l, l ∈ ex_labels example -> l ∈ label_set v0) ->
  exists f,
    convert_example tokenizer (LabelVocab.build v0) msl uid index example
    = Ok f.
Proof.
  intros Hmsl Hlabels. rewrite convert_example_closed.
  destruct (feature_rows tokenizer msl example) as [Htoks Hlabs].
  destruct (decide (Z.of_nat (length (feature_tokens tokenizer msl example))
                    <= msl)%Z) as [_|Hbig].
  2:{ exfalso. apply Hbig.
      rewrite Htoks, !length_app, !length_fmap. simpl.
      pose proof (slice_to_length (msl - 2) (pieces tokenizer example)).
      lia. }
  destruct (mapM_total
    (fun label => of_option KeyError
                    (labels_dict (LabelVocab.build v0) !! label))
    (feature_labels tokenizer msl example)) as [ids Hids].
  { intros l Hl.
    destruct (build_dict_complete v0 l) as [id Hid]; [|rewrite Hid; by eexists].
    rewrite Hlabs in Hl.
    rewrite !elem_of_app, !list_elem_of_singleton in Hl.
    destruct Hl as [->|[Hl| ->]]; [by left| |by left]. right.
    apply list_elem_of_fmap in Hl as ([[o t] l'] & -> & Hl).
    apply slice_to_elem in Hl. apply Hlabels. eapply pieces_label, Hl. }
  unfold LabelVocab.convert_labels_to_ids at 1. rewrite Hids.
  by eexists.
Qed.

Lemma convert_unsupervised_example_total msl uid index example :
  (2 <= msl)%Z ->
  exists f,
    convert_unsupervised_example tokenizer msl uid index example = Ok f.
Proof.
  intros Hmsl. rewrite convert_unsupervised_example_closed.
  rewrite decide_True; [by eexists|].
  unfold feature_tokens_unsup. rewrite !length_app. simpl.
  pose proof (slice_to_length (msl - 2)
    (all_tokens (split_unsupervised tokenizer example))). lia.
Qed.

End ConvertListLemmas.

(** C7.  Whatever the examples and [max_seq_length], every feature that the
    conversion produces has input ids, attention mask, loss mask and segment
    ids of length [max_seq_length]; a labeled feature has label ids of that
    length too, an unlabeled one has none.  (The assertions of the loop body
    enforce this: for [max_seq_length < 2] they fail and no feature is
    produced.)  For [max_seq_length >= 2] the conversion does produce one
    feature per example: always for unlabeled examples, and for a non-empty
    list of labeled examples whose labels are in the accumulated set. *)
Theorem features_have_max_seq_length (tokenizer : Tokenizer)
  (max_seq_length : Z) :
  (forall v0 examples v features f,
     convert_examples_to_features v0 examples tokenizer max_seq_length
       = Ok (v, features) ->
     f ∈ features ->
     arrays_have_length f max_seq_length /\
     exists ids, label_ids f = Some ids /\
                 Z.of_nat (length ids) = max_seq_length) /\
  (forall examples features f,
     convert_unsupervised_examples_to_features examples tokenizer
       max_seq_length = Ok features ->
     f ∈ features ->
     arrays_have_length f max_seq_length /\ label_ids f = None) /\
  ((2 <= max_seq_length)%Z ->
   (forall v0 examples,
      examples <> [] ->
      (forall example l,
         example ∈ examples -> l ∈ ex_labels example -> l ∈ label_set v0) ->
      exists v features,
        convert_examples_to_features v0 examples tokenizer max_seq_length
          = Ok (v, features) /\
        length features = length examples) /\
   (forall examples,
      exists features,
        convert_unsupervised_examples_to_features examples tokenizer
          max_seq_length = Ok features /\
        length features = length examples)).
Proof.
  split; [|split].
  - intros v0 examples v features f H [i Hi]%list_elem_of_lookup.
    apply convert_examples_Ok in H as (_ & _ & H).
    destruct (H i f Hi) as (ex & _ & Hf).
    eapply convert_example_lengths, Hf.
  - intros examples features f H [i Hi]%list_elem_of_lookup.
    apply convert_unsupervised_examples_Ok in H as (_ & H).
    destruct (H i f Hi) as (ex & _ & Hf).
    eapply convert_unsupervised_example_lengths, Hf.
  - intros Hmsl. split.
    + intros v0 examples Hne Hlabels.
      destruct (mapM_total
        (fun ie : nat * NERExample =>
           convert_example tokenizer (LabelVocab.build v0) max_seq_length
             (1000000000 + Z.of_nat ie.1) ie.1 ie.2)
        (enumerate examples)) as [fs Hfs].
      { intros [i ex] Hex%enumerate_elem. simpl.
        apply convert_example_total; [done|].
        intros l Hl. by apply (Hlabels ex). }
      unfold convert_examples_to_features. rewrite Hfs.
      exists (LabelVocab.build v0), fs. split.
      * by destruct examples.
      * apply mapM_Ok_length in Hfs. by rewrite enumerate_length in Hfs.
    + intros examples. unfold convert_unsupervised_examples_to_features.
      destruct (mapM_total
        (fun ie : nat * UnsupervisedExample =>
           convert_unsupervised_example tokenizer max_seq_length
             (2000000000 + Z.of_nat ie.1) ie.1 ie.2)
        (enumerate examples)) as [fs Hfs].
      { intros [i ex] _. simpl.
        by apply convert_unsupervised_example_total. }
      rewrite Hfs. exists fs. split; [done|].
      apply mapM_Ok_length in Hfs. by rewrite enumerate_length in Hfs.
Qed.

Lemma features_have_max_seq_length_witness :
  exists v features,
    convert_examples_to_features (LabelVocab.update LabelVocab.init john)
      [john] word_tokenizer 10 = Ok (v, features) /\
    length features = 1 /\
    forall f, f ∈ features ->
      arrays_have_length f 10 /\
      exists ids, label_ids f = Some ids /\ Z.of_nat (length ids) = 10%Z.
Proof.
  destruct (features_have_max_seq_length word_tokenizer 10)
    as (Hlab & _ & Htotal).
  destruct Htotal as [Htotal _]; [lia|].
  destruct (Htotal (LabelVocab.update LabelVocab.init john) [john])
    as (v & features & Hok & Hlen).
  - discriminate.
  - intros example l ->%list_elem_of_singleton Hl.
    apply elem_of_union_r, elem_of_list_to_set, Hl.
  - exists v, features. split; [exact Hok|]. split; [exact Hlen|].
    intros f Hf. exact (Hlab _ _ _ _ f Hok Hf).
Defined.

(** C1, as the code has it.  In every labeled feature the loss mask is 1 at
    each real token that does not start with "##" and 0 at "##" continuation
    pieces and at the padding: it is [head_flag] of the token row followed by
    zeros.  The begin marker [CLS] (position 0) and the end marker [SEP]
    (the last real position) are real tokens without "##", so their entries
    are 1.  For "John lives in Paris" with one piece per word and
    [max_seq_length = 10] the tokens are [CLS] John lives in Paris [SEP] and
    the loss mask is [1,1,1,1,1,1,0,0,0,0]. *)
Theorem loss_mask_marks_non_continuation (tokenizer : Tokenizer)
  (max_seq_length : Z) (v0 v : LabelVocab) (examples : list NERExample)
  (features : list InputFeatures) (f : InputFeatures) :
  convert_examples_to_features v0 examples tokenizer max_seq_length
    = Ok (v, features) ->
  f ∈ features ->
  let n := length (tokens f) in
  loss_mask f
    = (head_flag <$> tokens f)
        ++ replicate (Z.to_nat (max_seq_length - Z.of_nat n)) 0%Z /\
  tokens f !! 0 = Some "[CLS]" /\ loss_mask f !! 0 = Some 1%Z /\
  tokens f !! (n - 1) = Some "[SEP]" /\ loss_mask f !! (n - 1) = Some 1%Z /\
  (examples = [john] -> max_seq_length = 10%Z ->
   (forall w, w ∈ ex_tokens john -> tokenize tokenizer w = [w]) ->
   tokens f = ["[CLS]"; "John"; "lives"; "in"; "Paris"; "[SEP]"] /\
   loss_mask f = [1; 1; 1; 1; 1; 1; 0; 0; 0; 0]%Z).
Proof.
  intros Hok [i Hi]%list_elem_of_lookup n.
  apply convert_examples_Ok in Hok as (-> & _ & Hall).
  destruct (Hall i f Hi) as (example & Hex & Hf).
  rewrite convert_example_closed in Hf.
  apply bind_Ok in Hf as (ids & _ & Hf).
  destruct (feature_rows tokenizer max_seq_length example) as [Htoks _].
  revert Hf Htoks. generalize (feature_tokens tokenizer max_seq_length example).
  intros toks Hf Htoks.
  destruct (decide _) as [Hfit|]; [|discriminate].
  injection Hf as <-. cbn [tokens loss_mask] in *.
  assert (Hlast : toks !! (length toks - 1) = Some "[SEP]").
  { rewrite Htoks. set (body := _.*1.*2).
    change (["[CLS]"] ++ body ++ ["[SEP]"])
      with (("[CLS]" :: body) ++ "[SEP]" :: []).
    apply list_lookup_middle. rewrite length_app. simpl. lia. }
  assert (Hfirst : toks !! 0 = Some "[CLS]") by (by rewrite Htoks).
  split; [done|]. split; [done|]. split.
  { rewrite lookup_app_l by (rewrite length_fmap; destruct toks; simpl; [done|lia]).
    by rewrite list_lookup_fmap, Hfirst. }
  split; [done|]. split.
  { subst n. rewrite lookup_app_l
      by (rewrite length_fmap; destruct toks; simpl; [done|lia]).
    by rewrite list_lookup_fmap, Hlast. }
  intros -> -> Hword.
  assert (toks = ["[CLS]"; "John"; "lives"; "in"; "Paris"; "[SEP]"]) as ->.
  { apply list_lookup_singleton_Some in Hex as [_ <-].
    rewrite Htoks. unfold pieces, word_pieces, john. simpl.
    rewrite !Hword by (unfold john; simpl; set_solver).
    reflexivity. }
  done.
Qed.

Lemma loss_mask_marks_non_continuation_witness :
  exists v f,
    convert_examples_to_features (LabelVocab.update LabelVocab.init john)
      [john] word_tokenizer 10 = Ok (v, [f]) /\
    tokens f = ["[CLS]"; "John"; "lives"; "in"; "Paris"; "[SEP]"] /\
    loss_mask f = [1; 1; 1; 1; 1; 1; 0; 0; 0; 0]%Z.
Proof.
  eexists _, _. split; [vm_compute; reflexivity|].
  eapply (loss_mask_marks_non_continuation word_tokenizer 10
            (LabelVocab.update LabelVocab.init john) _ [john]).
  - vm_compute. reflexivity.
  - apply list_elem_of_singleton. reflexivity.
  - reflexivity.
  - reflexivity.
  - intros w _. reflexivity.
Defined.

(** C1 as stated fails on the sentence of the claim itself: the code leaves
    the entries of [CLS] and [SEP] at 1, so the loss mask is not
    [0,1,1,1,1,0,0,0,0,0]. *)
Lemma loss_mask_john_counterexample :
  exists v f,
    convert_examples_to_features (LabelVocab.update LabelVocab.init john)
      [john] word_tokenizer 10 = Ok (v, [f]) /\
    tokens f = ["[CLS]"; "John"; "lives"; "in"; "Paris"; "[SEP]"] /\
    loss_mask f = [1; 1; 1; 1; 1; 1; 0; 0; 0; 0]%Z /\
    loss_mask f <> [0; 1; 1; 1; 1; 0; 0; 0; 0; 0]%Z.
Proof.
  eexists _, _. split; [vm_compute; reflexivity|].
  split; [reflexivity|]. split; [reflexivity|]. discriminate.
Qed.

(** ** The empty-batch guard of [forward] *)

Section ForwardProperties.

Context {Tensor Loss TSA : Type}.
Variable tensor_len : Tensor -> nat.
Variable bert : Tensor -> option Tensor -> option Tensor -> Tensor.
Variables dropout classifier : Tensor -> Tensor.
Variable tsa_step : TSA -> TSA.
Variable tsa_apply :
  TSA -> Tensor -> Tensor -> option Tensor ->
  TSA * (Tensor * Tensor * option Tensor).
Variable active_cross_entropy :
  Tensor -> Tensor -> option Tensor -> result Loss.
Variable cross_entropy : Tensor -> Tensor -> result Loss.

(** C5.  When labels and a scheduler are given and the logits that
    [tsa.apply] returns are empty, [forward] returns the integer 0 and
    raises nothing: no loss function is evaluated, whatever it would have
    done on an empty selection.  The scheduler has been stepped and
    applied once. *)
Theorem forward_empty_filter_zero_loss (input_ids : Tensor)
  (token_type_ids attention_mask loss_mask : option Tensor)
  (labels : Tensor) (tsa : TSA) (use_dropout : bool) :
  let logits :=
    model_logits Tensor bert dropout classifier
      input_ids token_type_ids attention_mask use_dropout in
  let filtered := tsa_apply (tsa_step tsa) logits labels loss_mask in
  tensor_len filtered.2.1.1 = 0 ->
  forward Tensor Loss TSA tensor_len bert dropout classifier tsa_step
    tsa_apply active_cross_entropy cross_entropy
    input_ids token_type_ids attention_mask loss_mask (Some labels)
    (Some tsa) use_dropout
  = (Some filtered.1, Ok (OutInt Tensor Loss 0)).
Proof.
  intros logits filtered Hempty. unfold forward.
  fold (model_logits Tensor bert dropout classifier
          input_ids token_type_ids attention_mask use_dropout).
  fold logits. fold filtered.
  destruct filtered as [t' [[flogits flabels] fmask]]. simpl in *.
  by rewrite Hempty.
Qed.

End ForwardProperties.

Lemma forward_empty_filter_zero_loss_witness :
  forward (list nat) Q nat length (fun x _ _ => x) id id S
    (fun t _ _ mask => (t, ([], [], mask)))
    (fun _ _ _ => Err ZeroDivisionError) (fun _ _ => Err ZeroDivisionError)
    [101; 7; 102] None (Some [1; 1; 1]) (Some [0; 1; 0]) (Some [0; 2; 0])
    (Some 41) true
  = (Some 42, Ok (OutInt (list nat) Q 0)).
Proof.
  apply (forward_empty_filter_zero_loss length (fun x _ _ => x) id id S
           (fun t _ _ mask => (t, ([], [], mask)))
           (fun _ _ _ => Err ZeroDivisionError)
           (fun _ _ => Err ZeroDivisionError)
           [101; 7; 102] None (Some [1; 1; 1]) (Some [0; 1; 0]) [0; 2; 0]
           41 true).
  reflexivity.
Defined.

(** ** The degenerate case of the unsupervised evaluator *)

Section FoldLemmas.

Context {A S : Type}.

Lemma foldM_invariant (P : S -> Prop) (f : S -> A -> result S)
  (l : list A) (s s' : S) :
  P s -> (forall s x s', P s -> f s x = Ok s' -> P s') ->
  foldM f s l = Ok s' -> P s'.
Proof.
  intros Hs Hstep. revert s Hs.
  induction l as [|x l IH]; intros s Hs H; simpl in H.
  - by injection H as <-.
  - destruct (f s x) as [s1|e] eqn:E; simpl in H; [|discriminate].
    eapply IH, H. eapply Hstep, E. done.
Qed.

Lemma foldM_app (f : S -> A -> result S) (l1 l2 : list A) (s : S) :
  foldM f s (l1 ++ l2) = foldM f s l1 ≫= fun s1 => foldM f s1 l2.
Proof.
  revert s. induction l1 as [|x l1 IH]; intros s; simpl; [done|].
  destruct (f s x) as [s1|e]; simpl; [apply IH|done].
Qed.

End FoldLemmas.

Section UnsupervisedProperties.

Variable model : list TensorRow -> list (list (list Q)).
Variable perturbe :
  list TensorRow -> list (list (list Q)) -> list TensorRow.
Variable evaluate : list string -> list string -> result (Q * Q * Q).

(** The two label lists grow together. *)
Lemma unsupervised_labels_lengths label_vocab eval_features batch_size
  orig pert :
  unsupervised_labels model perturbe label_vocab eval_features batch_size
    = Ok (orig, pert) ->
  length orig = length pert.
Proof.
  unfold unsupervised_labels. intros H.
  apply bind_Ok in H as (loader & _ & H).
  apply (foldM_invariant (fun acc => length acc.1 = length acc.2)) in H;
    [done|done|].
  clear. intros acc batch acc' Hacc H. unfold unsupervised_batch in H.
  apply bind_Ok in H as ([o p] & Hfold & H).
  apply bind_Ok in H as (u & Hassert & H). injection H as <-.
  apply assert_Ok, Nat.eqb_eq in Hassert. simpl.
  rewrite !length_app. lia.
Qed.

(** C6.  When the walk over the evaluation features completes and the
    clean labels it collected are a non-empty list of "O" only, the
    evaluator returns (0, 0, 0); the scorer is not consulted, so no
    division by zero can come out of it. *)
Theorem all_background_scores_zero (label_vocab : LabelVocab)
  (eval_features : list InputFeatures) (batch_size : Z)
  (all_original_labels all_perturbed_labels : list string) :
  unsupervised_labels model perturbe label_vocab eval_features batch_size
    = Ok (all_original_labels, all_perturbed_labels) ->
  all_original_labels <> [] ->
  (forall l, l ∈ all_original_labels -> l = "O") ->
  evaluate_model_unsupervised model perturbe evaluate label_vocab
    eval_features batch_size
  = Ok (0%Q, 0%Q, 0%Q).
Proof.
  intros Hlabels Hne Hall. unfold evaluate_model_unsupervised.
  rewrite Hlabels. unfold mbind at 1, result_bind; simpl bind.
  rewrite (proj2 (Nat.eqb_eq _ _)
             (unsupervised_labels_lengths _ _ _ _ _ Hlabels)).
  unfold mbind, result_bind; simpl bind.
  rewrite decide_True; [done|].
  apply set_eq. intros l. rewrite elem_of_list_to_set, elem_of_singleton.
  split; [apply Hall|]. intros ->.
  destruct all_original_labels as [|l0 ls]; [done|].
  rewrite <- (Hall l0) by left. left.
Qed.

End UnsupervisedProperties.

Lemma all_background_scores_zero_witness :
  evaluate_model_unsupervised
    (fun rows => (fun _ => background_logits 10) <$> rows)
    (fun rows _ => rows)
    (fun _ _ => Err ZeroDivisionError)
    john_vocab john_features 8
  = Ok (0%Q, 0%Q, 0%Q).
Proof.
  apply (all_background_scores_zero _ _ _ john_vocab john_features 8
           ["O"; "O"; "O"; "O"] ["O"; "O"; "O"; "O"]).
  - vm_compute. reflexivity.
  - discriminate.
  - intros l Hl. repeat (apply elem_of_cons in Hl as [->|Hl]; [reflexivity|]).
    by apply elem_of_nil in Hl.
Defined.

(** ** The feature cache *)

Section CacheProperties.

Context {Blob : Type}.
Variable pickle_dump : list InputFeatures -> Blob.
Variable pickle_load : Blob -> option (list InputFeatures).
Variable writable : string -> bool.
Implicit Types (fs : gmap string Blob) (path : string).

Lemma read_cache_delete fs path :
  read_cache Blob pickle_load (delete path fs) path = None.
Proof. unfold read_cache. by rewrite lookup_delete_eq. Qed.

Lemma read_cache_None fs path :
  read_cache Blob pickle_load fs path = None <->
  fs !! path = None \/
  exists blob, fs !! path = Some blob /\ pickle_load blob = None.
Proof.
  unfold read_cache. destruct (fs !! path) as [blob|]; simpl.
  - split; [intros H; right; by exists blob|].
    intros [?|(b & [= <-] & ?)]; done.
  - split; [by left|done].
Qed.

(** C8, as the code has it.  When the cache file is missing or does not
    deserialize, the read failure is caught and the features are converted
    from the examples.  The process that has [local_rank = -1] or rank 0
    then writes them to the cache file; nothing catches a failure of that
    write, so when the file cannot be written the load raises [OSError].
    Any other process leaves the files as they are.  Apart from the write,
    only the conversion itself can raise, and the outcome is that of a run
    without the cache file: whenever the load returns, the features are the
    converted ones.  This holds for the training features and for the
    unlabeled ones. *)
Theorem cache_miss_recomputes fs path (local_rank rank : Z)
  (label_vocab : LabelVocab) (train_examples : list NERExample)
  (unsupervised_examples : list UnsupervisedExample)
  (tokenizer : Tokenizer) (max_seq_length : Z) :
  (fs !! path = None \/
   exists blob, fs !! path = Some blob /\ pickle_load blob = None) ->
  let written features : result (gmap string Blob) :=
    if is_writer local_rank rank
    then (if writable path
          then Ok (<[path := pickle_dump features]> fs)
          else Err OSError)
    else Ok fs in
  load_train_features Blob pickle_dump pickle_load writable fs path
    local_rank rank label_vocab train_examples tokenizer max_seq_length
  = (features ← snd <$> convert_examples_to_features label_vocab
                          train_examples tokenizer max_seq_length;
     fs' ← written features;
     Ok (features, fs')) /\
  fst <$> load_train_features Blob pickle_dump pickle_load writable fs path
            local_rank rank label_vocab train_examples tokenizer
            max_seq_length
  = fst <$> load_train_features Blob pickle_dump pickle_load writable
              (delete path fs) path local_rank rank label_vocab
              train_examples tokenizer max_seq_length /\
  _load_unsupervised_data Blob pickle_dump pickle_load writable fs path
    local_rank rank unsupervised_examples tokenizer max_seq_length
  = (features ← convert_unsupervised_examples_to_features
                  unsupervised_examples tokenizer max_seq_length;
     fs' ← written features;
     Ok (unsupervised_examples, features, fs')) /\
  (fun r => r.1.2)
    <$> _load_unsupervised_data Blob pickle_dump pickle_load writable fs
          path local_rank rank unsupervised_examples tokenizer
          max_seq_length
  = (fun r => r.1.2)
      <$> _load_unsupervised_data Blob pickle_dump pickle_load writable
            (delete path fs) path local_rank rank unsupervised_examples
            tokenizer max_seq_length.
Proof.
  intros Hmiss%read_cache_None written.
  unfold load_train_features, _load_unsupervised_data, load_or_convert,
    write_cache.
  rewrite Hmiss, !read_cache_delete. subst written. cbv beta.
  destruct (convert_examples_to_features _ _ _ _) as [[v fsx]|e];
    destruct (convert_unsupervised_examples_to_features _ _ _) as [ufs|e'];
    destruct (is_writer local_rank rank); destruct (writable path); done.
Qed.

End CacheProperties.

Lemma cache_miss_recomputes_witness :
  load_train_features (list InputFeatures) plain_dump plain_load
    (fun _ => true) ∅ "train.txt_bert_10" (-1) 0
    (LabelVocab.update LabelVocab.init john) [john] word_tokenizer 10
  = Ok (john_features, {["train.txt_bert_10" := john_features]}).
Proof.
  destruct (cache_miss_recomputes plain_dump plain_load (fun _ => true)
              ∅ "train.txt_bert_10" (-1) 0
              (LabelVocab.update LabelVocab.init john) [john] []
              word_tokenizer 10) as (H & _).
  - left. reflexivity.
  - rewrite H. vm_compute. reflexivity.
Defined.

(** C8 as stated fails when the cache file cannot be written.  In the
    writing process ([local_rank = -1]), with no cache file and a path that
    cannot be opened for writing, the read failure is caught and the
    conversion of the examples succeeds, but no cache is written and the
    load raises [OSError]. *)
Lemma cache_write_failure_counterexample :
  read_cache (list InputFeatures) plain_load ∅ "train.txt_bert_10" = None /\
  snd <$> convert_examples_to_features
            (LabelVocab.update LabelVocab.init john) [john] word_tokenizer 10
  = Ok john_features /\
  load_train_features (list InputFeatures) plain_dump plain_load
    (fun _ => false) ∅ "train.txt_bert_10" (-1) 0
    (LabelVocab.update LabelVocab.init john) [john] word_tokenizer 10
  = Err OSError.
Proof. split; [reflexivity|]. split; vm_compute; reflexivity. Qed.

(** ** Reconstruction *)

Section ReconstructLemmas.

Variable tokenizer : Tokenizer.

Lemma mapM_Forall2_Ok {A B : Type} (g : A -> result B) (l : list A)
  (ys : list B) :
  Forall2 (fun x y => g x = Ok y) l ys -> mapM g l = Ok ys.
Proof. induction 1 as [|x y l ys Hx _ IH]; simpl; [done|]. by rewrite Hx, IH. Qed.

Lemma build_token_to_orig_map_snoc (l : list nat) (x : nat) :
  build_token_to_orig_map (l ++ [x])
  = <[S (length l) := x]> (build_token_to_orig_map l).
Proof.
  unfold build_token_to_orig_map, enumerate.
  rewrite enumerate_from_app, fold_left_app. done.
Qed.

(** Position [j + 1] of a feature maps to the word of piece [j]. *)
Lemma build_token_to_orig_map_lookup (l : list nat) (j : nat) :
  build_token_to_orig_map l !! S j = l !! j.
Proof.
  induction l as [|x l IH] using rev_ind; [done|].
  rewrite build_token_to_orig_map_snoc.
  destruct (decide (j = length l)) as [->|Hne].
  - rewrite lookup_insert_eq. symmetry. by apply list_lookup_middle.
  - rewrite lookup_insert_ne by lia. rewrite IH.
    destruct (decide (j < length l)).
    + by rewrite lookup_app_l.
    + rewrite !lookup_ge_None_2; [done| |lia].
      rewrite length_app. simpl. lia.
Qed.

Lemma pieces_orig_label example o t l :
  (o, t, l) ∈ pieces tokenizer example -> ex_labels example !! o = Some l.
Proof.
  unfold pieces. intros ([i [t' l']] & Hp & Hw)%list_elem_of_bind.
  unfold word_pieces in Hp.
  apply list_elem_of_fmap in Hp as (s & [= -> -> ->] & _). simpl.
  apply enumerate_from_elem in Hw as [_ Hw]. rewrite Nat.sub_0_r in Hw.
  apply lookup_zip_with_Some in Hw as (x & y & [= <- <-] & _ & Hy). done.
Qed.

(** On positions whose lookups succeed, the walk is [head_step]. *)
Lemma walk_pieces example f (raw : list string)
  (ps : list (nat * string * string)) (n : nat) (st : Walk) :
  (forall j o t l, ps !! j = Some (o, t, l) ->
     token_to_orig_map f !! (n + j) = Some o /\
     raw !! (n + j) = Some l /\
     ex_labels example !! o = Some l) ->
  foldM (walk_step example f raw) st (enumerate_from n ps.*1.*2)
  = Ok (fold_left head_step ps st).
Proof.
  revert n st. induction ps as [|[[o t] l] ps IH]; intros n st Hps; [done|].
  destruct (Hps 0 o t l eq_refl) as (Hmap & Hraw & Htrue).
  rewrite Nat.add_0_r in Hmap, Hraw.
  cbn [fmap list_fmap enumerate_from foldM fold_left fst snd].
  assert (Hstep : walk_step example f raw st (n, t)
                  = Ok (head_step st (o, t, l))).
  { unfold walk_step, head_step. cbn [fst snd].
    destruct (is_marker t); [done|].
    rewrite Hmap. cbn. destruct (_ =? _)%Z; [done|].
    rewrite Hraw, Htrue. done. }
  rewrite Hstep. apply IH.
  intros j o' t' l' Hj. replace (S n + j) with (n + S j) by lia.
  exact (Hps (S j) o' t' l' Hj).
Qed.

(** The pieces after the first of a word are skipped. *)
Lemma head_step_same_word (subs : list string) (w : nat) (l : string)
  (st : Walk) :
  last_orig_index st = Z.of_nat w ->
  fold_left head_step ((fun s => (w, s, l)) <$> subs) st = st.
Proof.
  intros Hlast. induction subs as [|s subs IH]; [done|].
  cbn [fmap list_fmap fold_left]. unfold head_step at 2. cbn [fst snd].
  rewrite Hlast, Z.eqb_refl. destruct (is_marker s); apply IH.
Qed.

(** A word with at least one piece and no marker among its pieces
    contributes its label once. *)
Lemma head_step_word (w : nat) (t l : string) (st : Walk) :
  (last_orig_index st < Z.of_nat w)%Z ->
  tokenize tokenizer t <> [] ->
  (forall p, p ∈ tokenize tokenizer t -> is_marker p = false) ->
  fold_left head_step (word_pieces tokenizer (w, (t, l))) st
  = {| predicted_labels := predicted_labels st ++ [l];
       true_labels := true_labels st ++ [l];
       last_orig_index := Z.of_nat w |}.
Proof.
  intros Hlast Hne Hmark. unfold word_pieces. cbn [fst snd].
  destruct (tokenize tokenizer t) as [|s subs]; [done|].
  cbn [fmap list_fmap fold_left].
  assert (Hfirst : head_step st (w, s, l)
                   = {| predicted_labels := predicted_labels st ++ [l];
                        true_labels := true_labels st ++ [l];
                        last_orig_index := Z.of_nat w |}).
  { unfold head_step. cbn [fst snd]. rewrite (Hmark s) by left.
    destruct (Z.eqb_spec (Z.of_nat w) (last_orig_index st)); [lia|done]. }
  rewrite Hfirst. by apply head_step_same_word.
Qed.

Lemma head_step_words (zs : list (string * string)) (w0 : nat) (st : Walk) :
  (last_orig_index st < Z.of_nat w0)%Z ->
  (forall t l, (t, l) ∈ zs ->
     tokenize tokenizer t <> [] /\
     forall p, p ∈ tokenize tokenizer t -> is_marker p = false) ->
  let st' :=
    fold_left head_step (enumerate_from w0 zs ≫= word_pieces tokenizer) st in
  predicted_labels st' = predicted_labels st ++ zs.*2 /\
  true_labels st' = true_labels st ++ zs.*2.
Proof.
  revert w0 st. induction zs as [|[t l] zs IH]; intros w0 st Hlast Hzs.
  - cbn. by rewrite !app_nil_r.
  - cbn [enumerate_from]. rewrite bind_cons, fold_left_app.
    destruct (Hzs t l) as [Hne Hmark]; [left|].
    rewrite head_step_word by done.
    edestruct (IH (S w0)) as [-> ->].
    + cbn. lia.
    + intros t' l' H. apply (Hzs t' l'). by right.
    + cbn. by rewrite <- !app_assoc.
Qed.

Lemma is_marker_false (p : string) :
  p <> "[CLS]" /\ p <> "[SEP]" -> is_marker p = false.
Proof.
  intros [H1 H2]. unfold is_marker. apply bool_decide_eq_false.
  rewrite !elem_of_cons. intros [?|[?|H]]; [done|done|].
  by apply elem_of_nil in H.
Qed.

Lemma marker_step example f raw st (i : nat) (token : string) :
  is_marker token = true ->
  walk_step example f raw st (i, token) = Ok st.
Proof. intros H. unfold walk_step. by rewrite H. Qed.

(** Ids that came out of the frozen dictionary lead back to their labels,
    and the padding id 0 leads to "O". *)
Lemma convert_ids_roundtrip v0 (ls : list string) (ids : list nat) (k : nat) :
  let v := LabelVocab.build v0 in
  LabelVocab.convert_labels_to_ids v ls = Ok ids ->
  LabelVocab.convert_ids_to_labels v (ids ++ replicate k 0)
  = Ok (ls ++ replicate k "O").
Proof.
  intros v Hids. subst v. apply mapM_app.
  - apply mapM_Forall2_Ok. apply mapM_Ok_Forall2 in Hids.
    apply Forall2_flip. eapply Forall2_impl; [exact Hids|].
    intros l id H. cbv beta in H.
    destruct (labels_dict (LabelVocab.build v0) !! l) as [id'|] eqn:E;
      [|discriminate].
    injection H as ->. apply build_dict_sound in E.
    by rewrite E.
  - induction k as [|k IH]; [done|].
    cbn [replicate mapM]. rewrite IH. done.
Qed.

Lemma reconstruct_example_roundtrip v0 msl uid index example f
  (logits : list (list Q)) :
  let v := LabelVocab.build v0 in
  convert_example tokenizer v msl uid index example = Ok f ->
  length (ex_tokens example) = length (ex_labels example) ->
  (forall w, w ∈ ex_tokens example ->
     tokenize tokenizer w <> [] /\
     forall p, p ∈ tokenize tokenizer w -> p <> "[CLS]" /\ p <> "[SEP]") ->
  (Z.of_nat (length (all_tokens (split_example tokenizer example)))
     <= msl - 2)%Z ->
  label_ids f = Some (argmax <$> logits) ->
  reconstruct v example f logits
  = Ok {| r_predicted := ex_labels example;
          r_true := ex_labels example;
          r_warned := false |}.
Proof.
  intros v Hf Hlen Htok Hfit Hlogits.
  rewrite convert_example_closed in Hf.
  apply bind_Ok in Hf as (ids & Hids & Hf).
  destruct (feature_rows tokenizer msl example) as [Htoks Hlabs].
  destruct (split_example_pieces tokenizer example) as (Horig & Hall & _).
  rewrite Hall, !length_fmap in Hfit.
  rewrite slice_to_fits in Htoks, Hlabs by done.
  rewrite Hlabs in Hids. rewrite Htoks, Horig in Hf.
  set (ps := pieces tokenizer example) in *.
  destruct (decide _) as [_|]; [|discriminate].
  injection Hf as <-. cbn [label_ids] in Hlogits.
  injection Hlogits as Hlogits.
  unfold reconstruct. cbn [tokens]. rewrite <- Hlogits.
  pose proof (fun k => convert_ids_roundtrip v0 _ _ k Hids) as Hraw.
  cbv zeta in Hraw. fold v in Hraw. rewrite Hraw.
  rewrite result_bind_Ok. cbv beta.
  match goal with
  | |- context [foldM (walk_step _ ?f' ?raw') ?st' _] =>
      set (raw := raw'); set (f := f'); set (st0 := st')
  end.
  assert (Hwalk : foldM (walk_step example f raw) st0
                    (enumerate ("[CLS]" :: ps.*1.*2 ++ ["[SEP]"]))
                  = Ok (fold_left head_step ps st0)).
  { unfold enumerate. cbn [app enumerate_from foldM].
    rewrite marker_step by reflexivity. simpl bind.
    rewrite enumerate_from_app, foldM_app.
    rewrite (walk_pieces example f raw ps 1 st0).
    - unfold mbind, result_bind; simpl bind.
      cbn [enumerate_from foldM].
      rewrite ?marker_step by reflexivity. done.
    - intros j o t l Hj. split; [|split].
      + subst f. cbn [token_to_orig_map].
        change (1 + j) with (S j). rewrite build_token_to_orig_map_lookup.
        by rewrite !list_lookup_fmap, Hj.
      + subst raw. change (1 + j) with (S j).
        rewrite <- !app_assoc. cbn [app]. rewrite lookup_cons.
        rewrite lookup_app_l
          by (rewrite length_fmap; eapply lookup_lt_Some, Hj).
        by rewrite list_lookup_fmap, Hj.
      + eapply pieces_orig_label, list_elem_of_lookup_2, Hj. }
  rewrite Hwalk, result_bind_Ok. cbv beta.
  destruct (head_step_words (zip (ex_tokens example) (ex_labels example))
              0 st0) as [Hpred Htrue].
  { subst st0. cbn. lia. }
  { intros t l Ht%elem_of_zip_l. destruct (Htok t Ht) as [Hne Hmark].
    split; [done|]. intros p Hp. by apply is_marker_false, Hmark. }
  fold (enumerate (zip (ex_tokens example) (ex_labels example))) in Hpred, Htrue.
  fold (pieces tokenizer example) in Hpred, Htrue. fold ps in Hpred, Htrue.
  rewrite snd_zip in Hpred, Htrue by lia.
  subst st0. cbn [predicted_labels true_labels app] in Hpred, Htrue.
  rewrite Hpred, Htrue, !Nat.eqb_refl. done.
Qed.

End ReconstructLemmas.

Section ArgmaxLemmas.

Lemma spike_eq (id : nat) : spike id id = 1%Q.
Proof. unfold spike. by rewrite decide_True. Qed.

Lemma spike_ne (id j : nat) : j <> id -> spike id j = 0%Q.
Proof. intros H. unfold spike. by rewrite decide_False. Qed.

Lemma spike_le_1 (id j : nat) : Qle_bool (spike id j) 1 = true.
Proof. unfold spike. by destruct (decide (j = id)). Qed.

Lemma argmax_from_top (id bi i n : nat) :
  argmax_from bi 1%Q i (spike id <$> seq i n) = bi.
Proof.
  revert i. induction n as [|n IH]; intros i; [done|].
  cbn [seq fmap list_fmap argmax_from]. rewrite spike_le_1. apply IH.
Qed.

Lemma argmax_from_spike (id bi i n : nat) :
  i <= id < i + n ->
  argmax_from bi 0%Q i (spike id <$> seq i n) = id.
Proof.
  revert i bi. induction n as [|n IH]; intros i bi Hid; [lia|].
  cbn [seq fmap list_fmap argmax_from].
  destruct (decide (i = id)) as [->|Hne].
  - rewrite spike_eq. change (Qle_bool 1 0) with false. cbv iota.
    apply argmax_from_top.
  - rewrite spike_ne by done. change (Qle_bool 0 0) with true. cbv iota.
    apply IH. lia.
Qed.

(** One-hot scores have their maximum where the label id is. *)
Lemma argmax_one_hot (num_labels id : nat) :
  id < num_labels -> argmax (one_hot num_labels id) = id.
Proof.
  intros Hid. unfold one_hot.
  destruct num_labels as [|n]; [lia|].
  cbn [seq fmap list_fmap argmax].
  destruct (decide (0 = id)) as [<-|Hne].
  - rewrite spike_eq. apply argmax_from_top.
  - rewrite spike_ne by done. apply argmax_from_spike. lia.
Qed.

Lemma gold_logits_encode (num_labels : nat) (f : InputFeatures)
  (ids : list nat) :
  label_ids f = Some ids -> Forall (fun id => id < num_labels) ids ->
  argmax <$> gold_logits num_labels f = ids.
Proof.
  intros Hf Hids. unfold gold_logits. rewrite Hf. simpl. clear Hf.
  induction Hids as [|id ids Hid _ IH]; [done|].
  cbn [fmap list_fmap]. f_equal; [by apply argmax_one_hot|exact IH].
Qed.

End ArgmaxLemmas.

(** X25.  The round trip where it holds.  Take a labeled example with as
    many labels as words, each of whose words the tokenizer splits into at
    least one piece, none of them spelled "[CLS]" or "[SEP]", and whose
    subword sequence has at most [max_seq_length - 2] pieces.  If the
    row-wise argmax of the logits is the feature's gold label ids, the walk
    of [write_predictions] returns the example's label sequence, as
    prediction and as truth, and does not log the length warning. *)
Theorem reconstruct_gold_roundtrip (tokenizer : Tokenizer)
  (max_seq_length : Z) (v0 v : LabelVocab) (examples : list NERExample)
  (features : list InputFeatures) (i : nat) (example : NERExample)
  (f : InputFeatures) (logits : list (list Q)) :
  convert_examples_to_features v0 examples tokenizer max_seq_length
    = Ok (v, features) ->
  examples !! i = Some example ->
  features !! i = Some f ->
  length (ex_tokens example) = length (ex_labels example) ->
  (forall w, w ∈ ex_tokens example ->
     tokenize tokenizer w <> [] /\
     forall p, p ∈ tokenize tokenizer w -> p <> "[CLS]" /\ p <> "[SEP]") ->
  (Z.of_nat (length (all_tokens (split_example tokenizer example)))
     <= max_seq_length - 2)%Z ->
  label_ids f = Some (argmax <$> logits) ->
  reconstruct v example f logits
  = Ok {| r_predicted := ex_labels example;
          r_true := ex_labels example;
          r_warned := false |}.
Proof.
  intros Hok Hex Hf Hlen Htok Hfit Hlogits.
  apply convert_examples_Ok in Hok as (-> & _ & Hall).
  destruct (Hall i f Hf) as (example' & Hex' & Hconv).
  rewrite Hex in Hex'. injection Hex' as <-.
  eapply reconstruct_example_roundtrip; eauto.
Qed.

Lemma reconstruct_gold_roundtrip_witness :
  exists f,
    john_features !! 0 = Some f /\
    reconstruct john_vocab john f (gold_logits 3 f)
    = Ok {| r_predicted := ["B-PER"; "O"; "O"; "B-LOC"];
            r_true := ["B-PER"; "O"; "O"; "B-LOC"];
            r_warned := false |}.
Proof.
  eexists. split; [vm_compute; reflexivity|].
  apply (reconstruct_gold_roundtrip word_tokenizer 10
           (LabelVocab.update LabelVocab.init john) john_vocab [john]
           john_features 0 john).
  - vm_compute. reflexivity.
  - reflexivity.
  - vm_compute. reflexivity.
  - reflexivity.
  - intros w Hw. split; [discriminate|].
    intros p ->%list_elem_of_singleton.
    repeat (apply elem_of_cons in Hw as [->|Hw]; [split; discriminate|]).
    by apply elem_of_nil in Hw.
  - vm_compute. discriminate.
  - vm_compute. reflexivity.
Defined.

(** C2.  The round trip fails for a word that is spelled like a marker.
    The sentence [sep_example] has the one word "[SEP]", labeled "B-PER";
    it fits into 10 positions and the logits encode the gold ids.  The walk
    tells the markers from the words by their spelling, so it skips the
    piece of the word: no label is recovered, and the warning for an
    example that exceeds the maximum sequence length is logged although
    nothing was truncated. *)
Theorem marker_word_loses_label :
  exists v f,
    convert_examples_to_features (LabelVocab.update LabelVocab.init sep_example)
      [sep_example] word_tokenizer 10 = Ok (v, [f]) /\
    (Z.of_nat (length (all_tokens (split_example word_tokenizer sep_example)))
       <= 10 - 2)%Z /\
    label_ids f = Some (argmax <$> gold_logits 2 f) /\
    reconstruct v sep_example f (gold_logits 2 f)
    = Ok {| r_predicted := []; r_true := []; r_warned := true |} /\
    [] <> ex_labels sep_example.
Proof.
  eexists _, _. split; [vm_compute; reflexivity|].
  split; [vm_compute; discriminate|].
  split; [vm_compute; reflexivity|].
  split; [vm_compute; reflexivity|discriminate].
Qed.

(** * Further properties *)

Example read_ner_examples_sample :
  snd <$> read_ner_examples ws_strip ws_split sample_conll
  = Ok [ {| ex_tokens := ["John"; "lives"]; ex_labels := ["B-PER"; "O"] |};
         {| ex_tokens := ["Paris"]; ex_labels := ["B-LOC"] |} ].
Proof. vm_compute. reflexivity. Qed.

(** ** More on the label vocabulary *)

Section StringOrder.

Lemma ascii_compare_refl (a : ascii) : Ascii.compare a a = Eq.
Proof. unfold Ascii.compare. apply N.compare_refl. Qed.

Lemma string_compare_refl (s : string) : String.compare s s = Eq.
Proof.
  induction s as [|a s IH]; simpl; [done|].
  by rewrite ascii_compare_refl.
Qed.

(** [String.compare] is a transitive order: what is not above, stays not
    above along a chain. *)
Lemma string_compare_trans (s1 s2 s3 : string) :
  String.compare s1 s2 <> Gt -> String.compare s2 s3 <> Gt ->
  String.compare s1 s3 <> Gt.
Proof.
  revert s2 s3. induction s1 as [|a s1 IH]; intros [|b s2] [|c s3];
    simpl; try done.
  destruct (Ascii.compare a b) eqn:Eab; [|clear IH|done];
    (destruct (Ascii.compare b c) eqn:Ebc; [| |done]).
  - apply Ascii.compare_eq_iff in Eab, Ebc. subst.
    rewrite ascii_compare_refl. apply IH.
  - apply Ascii.compare_eq_iff in Eab. subst. by rewrite Ebc.
  - apply Ascii.compare_eq_iff in Ebc. subst. by rewrite Eab.
  - intros _ _. unfold Ascii.compare in *.
    pose proof (proj1 (N.compare_lt_iff _ _) Eab) as Hab.
    pose proof (proj1 (N.compare_lt_iff _ _) Ebc) as Hbc.
    rewrite (proj2 (N.compare_lt_iff (N_of_ascii a) (N_of_ascii c)));
      [done|].
    etransitivity; eassumption.
Qed.

#[local] Instance str_le_total : Total str_le.
Proof. intros s1 s2. apply String.leb_total. Qed.

#[local] Instance str_le_trans : Transitive str_le.
Proof.
  intros s1 s2 s3. unfold str_le, String.leb. intros H12 H23.
  pose proof (string_compare_trans s1 s2 s3) as H.
  destruct (String.compare s1 s2), (String.compare s2 s3),
    (String.compare s1 s3); try done; by exfalso; apply H.
Qed.

Lemma sorted_strongly (ls : list string) : StronglySorted str_le (sorted ls).
Proof. apply StronglySorted_merge_sort; apply _. Qed.

End StringOrder.

Section VocabMore.

Implicit Types (v : LabelVocab) (ls : list string) (ids : list nat).

Lemma build_labels_NoDup v : NoDup (labels (LabelVocab.build v)).
Proof.
  simpl. apply NoDup_cons. split.
  - rewrite elem_of_sorted, elem_of_elements, elem_of_difference,
      elem_of_singleton. tauto.
  - rewrite sorted_perm. apply NoDup_elements.
Qed.


(** How [mapM] ends: with all results, or with the error of some element. *)
Lemma mapM_cases {A B : Type} (g : A -> result B) (l : list A) :
  (exists ys, mapM g l = Ok ys) \/
  (exists x e, x ∈ l /\ g x = Err e /\ mapM g l = Err e).
Proof.
  induction l as [|x l IH]; simpl; [left; by eexists|].
  destruct (g x) as [y|e] eqn:Hx.
  - destruct IH as [[ys ->]|(x' & e & Hin & Hx' & ->)].
    + left. by eexists.
    + right. exists x', e. split; [by right|done].
  - right. exists x, e. split; [left|done].
Qed.


End VocabMore.


(** X2.  On a vocabulary frozen from the accumulated set,
    [convert_labels_to_ids] succeeds exactly on lists whose labels are "O"
    or members of the set, with one id below the length of the frozen list
    per label; on any other list it raises [KeyError]. *)
Theorem convert_labels_to_ids_domain (v : LabelVocab) (ls : list string) :
  let frozen := LabelVocab.build v in
  let known l := l = "O" \/ l ∈ label_set v in
  (Forall known ls ->
   exists ids,
     LabelVocab.convert_labels_to_ids frozen ls = Ok ids /\
     length ids = length ls /\
     Forall (fun id => id < length (labels frozen)) ids) /\
  (~ Forall known ls ->
   LabelVocab.convert_labels_to_ids frozen ls = Err KeyError).
Proof.
  intros frozen known.
  destruct (mapM_cases
    (fun label => of_option KeyError (labels_dict frozen !! label)) ls)
    as [[ids Hids]|(l & e & Hin & Hl & Herr)].
  - assert (Hknown : Forall known ls).
    { apply Forall_forall. intros l Hl.
      apply mapM_Ok_Forall2 in Hids.
      apply list_elem_of_lookup in Hl as [i Hi].
      destruct (Forall2_lookup_l _ _ _ _ _ Hids Hi) as (id & _ & Hid).
      cbv beta in Hid.
      destruct (labels_dict frozen !! l) as [id'|] eqn:E; [|discriminate].
      apply build_dict_sound, list_elem_of_lookup_2, build_labels_elem in E.
      exact E. }
    split; [|done]. intros _. exists ids. split; [exact Hids|].
    split; [eapply mapM_Ok_length, Hids|].
    apply Forall_forall. intros id Hid.
    apply mapM_Ok_Forall2 in Hids.
    apply list_elem_of_lookup in Hid as [i Hi].
    destruct (Forall2_lookup_r _ _ _ _ _ Hids Hi) as (l & _ & Hl).
    cbv beta in Hl.
    destruct (labels_dict frozen !! l) as [id'|] eqn:E; [|discriminate].
    injection Hl as ->. apply build_dict_sound in E.
    eapply lookup_lt_Some, E.
  - assert (e = KeyError /\ ~ known l) as [-> Hunknown].
    { destruct (labels_dict frozen !! l) as [id'|] eqn:E; [discriminate|].
      injection Hl as <-. split; [done|]. intros Hk.
      apply build_dict_complete in Hk as [id Hid].
      fold frozen in Hid. congruence. }
    split; [|done]. intros Hall. exfalso. apply Hunknown.
    eapply Forall_forall in Hall; [exact Hall|exact Hin].
Qed.

Lemma convert_labels_to_ids_domain_witness :
  let v := LabelVocab.update LabelVocab.init john in
  (exists ids,
     LabelVocab.convert_labels_to_ids (LabelVocab.build v) ["B-LOC"; "O"]
       = Ok ids /\
     length ids = 2 /\
     Forall (fun id => id < length (labels (LabelVocab.build v))) ids) /\
  LabelVocab.convert_labels_to_ids (LabelVocab.build v) ["O"; "I-MISC"]
    = Err KeyError.
Proof.
  intros v. split.
  - apply (convert_labels_to_ids_domain v ["B-LOC"; "O"]).
    apply Forall_cons. split; [right; vm_compute; set_solver|].
    apply Forall_cons. split; [by left|constructor].
  - apply (convert_labels_to_ids_domain v ["O"; "I-MISC"]).
    intros H. apply Forall_cons in H as [_ H].
    apply Forall_cons in H as [[H|H] _]; [discriminate|].
    revert H. vm_compute. set_solver.
Defined.





(** X5.  The frozen label list starts with "O", holds "O" and the
    accumulated labels and nothing else, holds no label twice, and its part
    after "O" ascends in the order of [sorted]. *)
Theorem build_labels_shape (v : LabelVocab) :
  let frozen := labels (LabelVocab.build v) in
  head frozen = Some "O" /\
  (forall l, l ∈ frozen <-> l = "O" \/ l ∈ label_set v) /\
  NoDup frozen /\
  StronglySorted str_le (tail frozen).
Proof.
  intros frozen. split; [done|]. split; [apply build_labels_elem|].
  split; [apply build_labels_NoDup|]. apply sorted_strongly.
Qed.

(** ** More on the feature conversion *)

Section LayoutLemmas.

Variable tokenizer : Tokenizer.
Implicit Types (v : LabelVocab) (msl uid : Z) (f : InputFeatures).

Lemma convert_example_laid_out v msl uid index example f :
  convert_example tokenizer v msl uid index example = Ok f ->
  laid_out tokenizer msl f /\
  tokens f = feature_tokens tokenizer msl example /\
  token_to_orig_map f
    = build_token_to_orig_map
        (tok_to_orig_index (split_example tokenizer example)) /\
  unique_id f = uid /\ example_index f = index.
Proof.
  rewrite convert_example_closed. intros H.
  apply bind_Ok in H as (ids & _ & H). revert H.
  generalize (feature_tokens tokenizer msl example). intros toks H.
  destruct (decide _) as [Hfit|]; [|discriminate].
  injection H as <-. unfold laid_out. cbn.
  split_and!; try done. by rewrite replicate_add.
Qed.

Lemma convert_unsupervised_example_laid_out msl uid index example f :
  convert_unsupervised_example tokenizer msl uid index example = Ok f ->
  laid_out tokenizer msl f /\
  tokens f = feature_tokens_unsup tokenizer msl example /\
  token_to_orig_map f
    = build_token_to_orig_map
        (tok_to_orig_index (split_unsupervised tokenizer example)) /\
  unique_id f = uid /\ example_index f = index.
Proof.
  rewrite convert_unsupervised_example_closed.
  generalize (feature_tokens_unsup tokenizer msl example). intros toks H.
  destruct (decide _) as [Hfit|]; [|discriminate].
  injection H as <-. unfold laid_out. cbn.
  split_and!; try done. by rewrite replicate_add.
Qed.

End LayoutLemmas.

(** X6.  Every feature that either conversion produces is laid out in the
    same way: its tokens fit into [max_seq_length]; the input ids are the
    ids of the tokens followed by zeros; the attention mask is 1 on the
    tokens and 0 on the padding; the loss mask is 1 on the tokens that do
    not start with "##", 0 elsewhere; the segment ids are 0 throughout. *)
Theorem features_laid_out (tokenizer : Tokenizer) (max_seq_length : Z) :
  (forall v0 examples v features f,
     convert_examples_to_features v0 examples tokenizer max_seq_length
       = Ok (v, features) ->
     f ∈ features -> laid_out tokenizer max_seq_length f) /\
  (forall examples features f,
     convert_unsupervised_examples_to_features examples tokenizer
       max_seq_length = Ok features ->
     f ∈ features -> laid_out tokenizer max_seq_length f).
Proof.
  split.
  - intros v0 examples v features f H [i Hi]%list_elem_of_lookup.
    apply convert_examples_Ok in H as (_ & _ & H).
    destruct (H i f Hi) as (ex & _ & Hf).
    eapply convert_example_laid_out, Hf.
  - intros examples features f H [i Hi]%list_elem_of_lookup.
    apply convert_unsupervised_examples_Ok in H as (_ & H).
    destruct (H i f Hi) as (ex & _ & Hf).
    eapply convert_unsupervised_example_laid_out, Hf.
Qed.

Lemma features_laid_out_witness :
  Forall (laid_out word_tokenizer 10) john_features.
Proof.
  destruct (features_laid_out word_tokenizer 10) as [H _].
  apply Forall_forall. intros f Hf.
  apply (H (LabelVocab.update LabelVocab.init john) [john] john_vocab
           john_features f); [|exact Hf].
  vm_compute. reflexivity.
Defined.

Lemma produced_laid_out (tokenizer : Tokenizer) (msl : Z) (f : InputFeatures) :
  produced tokenizer msl f -> laid_out tokenizer msl f.
Proof.
  intros [(v0 & examples & v & features & H & [i Hi]%list_elem_of_lookup)
         |(examples & features & H & [i Hi]%list_elem_of_lookup)].
  - apply convert_examples_Ok in H as (_ & _ & H).
    destruct (H i f Hi) as (ex & _ & Hf).
    eapply convert_example_laid_out, Hf.
  - apply convert_unsupervised_examples_Ok in H as (_ & H).
    destruct (H i f Hi) as (ex & _ & Hf).
    eapply convert_unsupervised_example_laid_out, Hf.
Qed.

(** X7.  In a feature of either conversion the loss mask selects only
    attended positions: wherever the loss mask is 1 the attention mask is 1
    and there is a token, one that does not start with "##"; and every entry
    of the loss mask is 0 or 1. *)
Theorem loss_mask_within_attention (tokenizer : Tokenizer)
  (max_seq_length : Z) (f : InputFeatures) (i : nat) :
  produced tokenizer max_seq_length f ->
  (forall x, loss_mask f !! i = Some x -> x = 0%Z \/ x = 1%Z) /\
  (loss_mask f !! i = Some 1%Z ->
   input_mask f !! i = Some 1%Z /\
   exists t, tokens f !! i = Some t /\ String.prefix "##" t = false).
Proof.
  intros (Hfit & _ & Hmask & Hloss & _)%produced_laid_out.
  rewrite Hmask, Hloss.
  destruct (decide (i < length (tokens f))) as [Hi|Hi].
  - rewrite !lookup_app_l by (by rewrite ?length_fmap, ?length_replicate).
    rewrite list_lookup_fmap, lookup_replicate_2 by done.
    destruct (lookup_lt_is_Some_2 _ _ Hi) as [t Ht]. rewrite Ht. simpl.
    unfold head_flag. split.
    + intros x [= <-]. destruct (String.prefix "##" t); auto.
    + intros H. split; [done|]. exists t. split; [done|].
      by destruct (String.prefix "##" t).
  - rewrite !lookup_app_r by (rewrite ?length_fmap, ?length_replicate; lia).
    split.
    + intros x [-> _]%lookup_replicate. by left.
    + intros [[=] _]%lookup_replicate.
Qed.

Lemma loss_mask_within_attention_witness :
  Forall (fun f => input_mask f !! 5 = Some 1%Z /\
                   exists t, tokens f !! 5 = Some t /\
                             String.prefix "##" t = false)
    john_features.
Proof.
  apply Forall_forall. intros f Hf.
  apply (loss_mask_within_attention word_tokenizer 10 f 5).
  - left. exists (LabelVocab.update LabelVocab.init john), [john], john_vocab,
      john_features.
    split; [vm_compute; reflexivity|exact Hf].
  - revert f Hf. apply Forall_forall. vm_compute.
    repeat constructor.
Defined.

Section PiecesLemmas.

Variable tokenizer : Tokenizer.

Lemma slice_to_take {A : Type} (n : Z) (l : list A) :
  (0 <= n)%Z -> slice_to n l = take (Z.to_nat n) l.
Proof. intros H. unfold slice_to. by destruct (Z.leb_spec 0 n); [|lia]. Qed.

(** The pieces of the words from [n] on: their tokens, their labels and
    their word indices. *)
Lemma pieces_from_tokens (n : nat) (zs : list (string * string)) :
  (enumerate_from n zs ≫= word_pieces tokenizer).*1.*2
  = zs.*1 ≫= tokenize tokenizer.
Proof.
  revert n. induction zs as [|[t l] zs IH]; intros n; [done|].
  cbn [enumerate_from fmap list_fmap fst]. rewrite !bind_cons, !fmap_app, IH.
  by destruct (word_pieces_proj tokenizer n t l) as (_ & -> & _).
Qed.

Lemma pieces_from_labels (n : nat) (zs : list (string * string)) :
  (enumerate_from n zs ≫= word_pieces tokenizer).*2
  = zs ≫= fun z => replicate (length (tokenize tokenizer z.1)) z.2.
Proof.
  revert n. induction zs as [|[t l] zs IH]; intros n; [done|].
  cbn [enumerate_from]. rewrite !bind_cons, !fmap_app, IH.
  destruct (word_pieces_proj tokenizer n t l) as (_ & _ & ->).
  by rewrite const_fmap_replicate.
Qed.

(** A piece comes from the word it is indexed with, and indices from [n] on
    never decrease along the pieces. *)
Lemma pieces_from_lookup (n : nat) (zs : list (string * string)) (j o : nat)
  (t l : string) :
  (enumerate_from n zs ≫= word_pieces tokenizer) !! j = Some (o, t, l) ->
  n <= o /\
  exists word, zs !! (o - n) = Some (word, l) /\ t ∈ tokenize tokenizer word.
Proof.
  intros H%list_elem_of_lookup_2.
  apply list_elem_of_bind in H as ([i [t' l']] & Hp & Hw).
  unfold word_pieces in Hp.
  apply list_elem_of_fmap in Hp as (s & [= -> -> ->] & Hs). simpl in Hs.
  apply enumerate_from_elem in Hw as [Hle Hw]. split; [done|].
  by exists t'.
Qed.

Lemma pieces_from_monotone (n : nat) (zs : list (string * string))
  (j1 j2 : nat) (p1 p2 : nat * string * string) :
  j1 <= j2 ->
  (enumerate_from n zs ≫= word_pieces tokenizer) !! j1 = Some p1 ->
  (enumerate_from n zs ≫= word_pieces tokenizer) !! j2 = Some p2 ->
  p1.1.1 <= p2.1.1.
Proof.
  revert n j1 j2. induction zs as [|[t l] zs IH]; intros n j1 j2 Hj H1 H2;
    [done|].
  cbn [enumerate_from] in H1, H2. rewrite bind_cons in H1, H2.
  set (wp := word_pieces tokenizer (n, (t, l))) in *.
  assert (Hwp : forall j p, wp !! j = Some p -> p.1.1 = n).
  { intros j p Hp%list_elem_of_lookup_2. unfold wp, word_pieces in Hp.
    by apply list_elem_of_fmap in Hp as (s & -> & _). }
  destruct (decide (j2 < length wp)) as [Hlt|Hge].
  - rewrite lookup_app_l in H1, H2 by lia.
    by rewrite (Hwp _ _ H1), (Hwp _ _ H2).
  - rewrite lookup_app_r in H2 by lia.
    destruct p2 as [[o2 t2] l2].
    apply pieces_from_lookup in H2 as H2'. destruct H2' as [Ho2 _].
    destruct (decide (j1 < length wp)) as [Hlt1|Hge1].
    + rewrite lookup_app_l in H1 by lia. rewrite (Hwp _ _ H1). simpl. lia.
    + rewrite lookup_app_r in H1 by lia.
      eapply (IH (S n) (j1 - length wp) (j2 - length wp)); [lia|done|done].
Qed.

Lemma split_example_all_tokens example :
  all_tokens (split_example tokenizer example)
  = (zip (ex_tokens example) (ex_labels example)).*1 ≫= tokenize tokenizer.
Proof.
  destruct (split_example_pieces tokenizer example) as (_ & -> & _).
  apply pieces_from_tokens.
Qed.

Lemma split_example_all_labels example :
  all_labels (split_example tokenizer example)
  = zip (ex_tokens example) (ex_labels example)
      ≫= fun z => replicate (length (tokenize tokenizer z.1)) z.2.
Proof.
  destruct (split_example_pieces tokenizer example) as (_ & _ & ->).
  apply pieces_from_labels.
Qed.

Lemma feature_tokens_length msl example :
  2 <= length (feature_tokens tokenizer msl example).
Proof. unfold feature_tokens. rewrite !length_app. simpl. lia. Qed.

Lemma feature_tokens_unsup_length msl example :
  2 <= length (feature_tokens_unsup tokenizer msl example).
Proof. unfold feature_tokens_unsup. rewrite !length_app. simpl. lia. Qed.

End PiecesLemmas.

(** X8.  The token row of a labeled feature is the begin marker, the first
    [max_seq_length - 2] subword pieces of the example's words (all of them
    if there are no more), and the end marker; pieces beyond that are
    dropped.  A feature is only ever produced for [max_seq_length >= 2]. *)
Theorem token_row_keeps_first_pieces (tokenizer : Tokenizer)
  (max_seq_length : Z) (v0 v : LabelVocab) (examples : list NERExample)
  (features : list InputFeatures) (i : nat) (example : NERExample)
  (f : InputFeatures) :
  convert_examples_to_features v0 examples tokenizer max_seq_length
    = Ok (v, features) ->
  examples !! i = Some example ->
  features !! i = Some f ->
  let sub_tokens :=
    (zip (ex_tokens example) (ex_labels example)).*1 ≫= tokenize tokenizer in
  let room := Z.to_nat (max_seq_length - 2) in
  (2 <= max_seq_length)%Z /\
  tokens f = ["[CLS]"] ++ take room sub_tokens ++ ["[SEP]"] /\
  length (tokens f) = 2 + min room (length sub_tokens).
Proof.
  intros Hok Hex Hf sub_tokens room.
  apply convert_examples_Ok in Hok as (-> & _ & Hall).
  destruct (Hall i f Hf) as (example' & Hex' & Hconv).
  rewrite Hex in Hex'. injection Hex' as <-.
  apply convert_example_laid_out in Hconv as ((Hfit & _) & Htoks & _).
  pose proof (feature_tokens_length tokenizer max_seq_length example) as H2.
  rewrite <- Htoks in H2.
  assert (Hmsl : (2 <= max_seq_length)%Z) by lia.
  split; [exact Hmsl|].
  destruct (feature_rows tokenizer max_seq_length example) as [Hrow _].
  destruct (split_example_pieces tokenizer example) as (_ & Hall_tokens & _).
  rewrite Htoks, Hrow. rewrite <- !slice_to_fmap, <- Hall_tokens.
  rewrite split_example_all_tokens. fold sub_tokens.
  rewrite slice_to_take by lia. fold room.
  split; [done|]. rewrite !length_app, length_take. simpl. lia.
Qed.

Lemma token_row_keeps_first_pieces_witness :
  exists f,
    john_features !! 0 = Some f /\
    tokens f = ["[CLS]"; "John"; "lives"; "in"; "Paris"; "[SEP]"] /\
    length (tokens f) = 6.
Proof.
  eexists. split; [vm_compute; reflexivity|].
  eapply (token_row_keeps_first_pieces word_tokenizer 10
            (LabelVocab.update LabelVocab.init john) john_vocab [john]
            john_features 0 john).
  - vm_compute. reflexivity.
  - reflexivity.
  - vm_compute. reflexivity.
Defined.

(** X9.  Features are numbered in the order of their examples: the labeled
    feature at position [i] has unique id 1000000000 + i and example index
    [i], the unlabeled one at position [j] has unique id 2000000000 + j and
    example index [j].  So the ids within a list are distinct and, as long
    as there are at most 1000000000 labeled examples, no labeled feature
    shares its id with an unlabeled one. *)
Theorem unique_ids_count_up (tokenizer : Tokenizer) (max_seq_length msl' : Z)
  (v0 v : LabelVocab) (examples : list NERExample)
  (unlabeled : list UnsupervisedExample)
  (features ufeatures : list InputFeatures) :
  convert_examples_to_features v0 examples tokenizer max_seq_length
    = Ok (v, features) ->
  convert_unsupervised_examples_to_features unlabeled tokenizer msl'
    = Ok ufeatures ->
  (forall i f, features !! i = Some f ->
     unique_id f = (1000000000 + Z.of_nat i)%Z /\ example_index f = i) /\
  (forall j g, ufeatures !! j = Some g ->
     unique_id g = (2000000000 + Z.of_nat j)%Z /\ example_index g = j) /\
  NoDup (unique_id <$> features) /\
  NoDup (unique_id <$> ufeatures) /\
  ((Z.of_nat (length examples) <= 1000000000)%Z ->
   forall f g, f ∈ features -> g ∈ ufeatures -> unique_id f <> unique_id g).
Proof.
  intros Hlab Hunl.
  apply convert_examples_Ok in Hlab as (_ & Hlen & Hlab).
  apply convert_unsupervised_examples_Ok in Hunl as (_ & Hunl).
  assert (Hf : forall i f, features !! i = Some f ->
            unique_id f = (1000000000 + Z.of_nat i)%Z /\ example_index f = i).
  { intros i f Hi. destruct (Hlab i f Hi) as (ex & _ & Hc).
    by apply convert_example_laid_out in Hc as (_ & _ & _ & ? & ?). }
  assert (Hg : forall j g, ufeatures !! j = Some g ->
            unique_id g = (2000000000 + Z.of_nat j)%Z /\ example_index g = j).
  { intros j g Hj. destruct (Hunl j g Hj) as (ex & _ & Hc).
    by apply convert_unsupervised_example_laid_out
      in Hc as (_ & _ & _ & ? & ?). }
  split; [exact Hf|]. split; [exact Hg|]. split; [|split].
  - apply NoDup_alt. intros i1 i2 uid H1 H2.
    rewrite list_lookup_fmap in H1, H2.
    destruct (features !! i1) as [f1|] eqn:E1; [|discriminate].
    destruct (features !! i2) as [f2|] eqn:E2; [|discriminate].
    injection H1 as H1. injection H2 as H2.
    destruct (Hf _ _ E1) as [U1 _]. destruct (Hf _ _ E2) as [U2 _]. lia.
  - apply NoDup_alt. intros i1 i2 uid H1 H2.
    rewrite list_lookup_fmap in H1, H2.
    destruct (ufeatures !! i1) as [f1|] eqn:E1; [|discriminate].
    destruct (ufeatures !! i2) as [f2|] eqn:E2; [|discriminate].
    injection H1 as H1. injection H2 as H2.
    destruct (Hg _ _ E1) as [U1 _]. destruct (Hg _ _ E2) as [U2 _]. lia.
  - intros Hmany f g [i Hi]%list_elem_of_lookup [j Hj]%list_elem_of_lookup.
    destruct (Hf _ _ Hi) as [U1 _]. destruct (Hg _ _ Hj) as [U2 _].
    apply lookup_lt_Some in Hi. lia.
Qed.

Lemma unique_ids_count_up_witness :
  exists ufeatures,
    convert_unsupervised_examples_to_features [unlabel john; unlabel john]
      word_tokenizer 8 = Ok ufeatures /\
    NoDup (unique_id <$> ufeatures) /\
    forall f g, f ∈ john_features -> g ∈ ufeatures ->
      unique_id f <> unique_id g.
Proof.
  destruct (convert_unsupervised_examples_to_features
              [unlabel john; unlabel john] word_tokenizer 8)
    as [ufeatures|e] eqn:E; [|vm_compute in E; discriminate].
  exists ufeatures. split; [reflexivity|].
  destruct (unique_ids_count_up word_tokenizer 10 8
              (LabelVocab.update LabelVocab.init john) john_vocab [john]
              [unlabel john; unlabel john] john_features ufeatures)
    as (_ & _ & _ & Hnodup & Hdistinct).
  - vm_compute. reflexivity.
  - exact E.
  - split; [exact Hnodup|]. apply Hdistinct. simpl. lia.
Defined.

Section EdgeLemmas.

Variable tokenizer : Tokenizer.

Lemma convert_unsupervised_example_small msl uid index example :
  (msl < 2)%Z ->
  convert_unsupervised_example tokenizer msl uid index example
  = Err AssertionError.
Proof.
  intros Hmsl. rewrite convert_unsupervised_example_closed.
  pose proof (feature_tokens_unsup_length tokenizer msl example).
  destruct (decide _); [lia|done].
Qed.

Lemma convert_labels_to_ids_error v ls e :
  LabelVocab.convert_labels_to_ids v ls = Err e -> e = KeyError.
Proof.
  intros H.
  destruct (mapM_cases
    (fun label => of_option KeyError (labels_dict v !! label)) ls)
    as [[ids Hids]|(l & e' & _ & Hl & Herr)].
  - unfold LabelVocab.convert_labels_to_ids in H. congruence.
  - unfold LabelVocab.convert_labels_to_ids in H.
    rewrite Herr in H. injection H as <-.
    destruct (labels_dict v !! l); [discriminate|]. by injection Hl.
Qed.

Lemma convert_example_small v msl uid index example :
  (msl < 2)%Z ->
  convert_example tokenizer v msl uid index example = Err KeyError \/
  convert_example tokenizer v msl uid index example = Err AssertionError.
Proof.
  intros Hmsl. rewrite convert_example_closed.
  pose proof (feature_tokens_length tokenizer msl example).
  destruct (LabelVocab.convert_labels_to_ids v _) as [ids|e] eqn:E.
  - right. rewrite result_bind_Ok. destruct (decide _); [lia|done].
  - left. apply convert_labels_to_ids_error in E as ->. done.
Qed.

End EdgeLemmas.

(** X10.  Edge cases of the two conversions.  An empty list of labeled
    examples raises [IndexError] (there is no first example to take the
    vocabulary from), an empty list of unlabeled examples gives no features.
    For [max_seq_length < 2] the two markers do not fit: converting a
    non-empty unlabeled list raises [AssertionError], and converting a
    non-empty labeled list raises [KeyError] or [AssertionError]. *)
Theorem conversion_edge_cases (tokenizer : Tokenizer) (max_seq_length : Z)
  (v0 : LabelVocab) :
  convert_examples_to_features v0 [] tokenizer max_seq_length
    = Err IndexError /\
  convert_unsupervised_examples_to_features [] tokenizer max_seq_length
    = Ok [] /\
  ((max_seq_length < 2)%Z ->
   (forall examples, examples <> [] ->
      convert_unsupervised_examples_to_features examples tokenizer
        max_seq_length = Err AssertionError) /\
   (forall examples, examples <> [] ->
      convert_examples_to_features v0 examples tokenizer max_seq_length
        = Err KeyError \/
      convert_examples_to_features v0 examples tokenizer max_seq_length
        = Err AssertionError)).
Proof.
  split; [done|]. split; [done|]. intros Hmsl. split.
  - intros [|ex examples] Hne; [done|].
    unfold convert_unsupervised_examples_to_features, enumerate.
    cbn [enumerate_from mapM fst snd].
    by rewrite convert_unsupervised_example_small.
  - intros [|ex examples] Hne; [done|].
    unfold convert_examples_to_features, enumerate.
    cbn [head of_option enumerate_from mapM fst snd].
    rewrite result_bind_Ok.
    destruct (convert_example_small tokenizer (LabelVocab.build v0)
                max_seq_length (1000000000 + Z.of_nat 0) 0 ex Hmsl)
      as [-> | ->]; [by left|by right].
Qed.

Lemma conversion_edge_cases_witness :
  convert_unsupervised_examples_to_features [unlabel john] word_tokenizer 1
    = Err AssertionError /\
  (convert_examples_to_features (LabelVocab.update LabelVocab.init john)
     [john] word_tokenizer 1 = Err KeyError \/
   convert_examples_to_features (LabelVocab.update LabelVocab.init john)
     [john] word_tokenizer 1 = Err AssertionError).
Proof.
  destruct (conversion_edge_cases word_tokenizer 1
              (LabelVocab.update LabelVocab.init john)) as (_ & _ & H).
  destruct H as [Hunl Hlab]; [lia|].
  split; [by apply Hunl|by apply Hlab].
Defined.

(** X11.  The map from subword positions to words of a labeled feature.
    Position 0 (the begin marker) has no entry; the positions with an entry
    are 1 up to the number of all pieces of the example, truncated or not;
    the entry of position [k] is the index of the word that piece [k - 1]
    came from; and the entries never decrease along the positions. *)
Theorem token_to_orig_map_shape (tokenizer : Tokenizer)
  (max_seq_length : Z) (v0 v : LabelVocab) (examples : list NERExample)
  (features : list InputFeatures) (i : nat) (example : NERExample)
  (f : InputFeatures) :
  convert_examples_to_features v0 examples tokenizer max_seq_length
    = Ok (v, features) ->
  examples !! i = Some example ->
  features !! i = Some f ->
  let words := (zip (ex_tokens example) (ex_labels example)).*1 in
  let sub_tokens := words ≫= tokenize tokenizer in
  token_to_orig_map f !! 0 = None /\
  (forall k, is_Some (token_to_orig_map f !! k)
             <-> 1 <= k <= length sub_tokens) /\
  (forall k w, token_to_orig_map f !! k = Some w ->
     exists word t,
       words !! w = Some word /\ sub_tokens !! (k - 1) = Some t /\
       t ∈ tokenize tokenizer word) /\
  (forall k1 k2 w1 w2, k1 <= k2 ->
     token_to_orig_map f !! k1 = Some w1 ->
     token_to_orig_map f !! k2 = Some w2 -> w1 <= w2).
Proof.
  intros Hok Hex Hf words sub_tokens.
  apply convert_examples_Ok in Hok as (-> & _ & Hall).
  destruct (Hall i f Hf) as (example' & Hex' & Hconv).
  rewrite Hex in Hex'. injection Hex' as <-.
  apply convert_example_laid_out in Hconv as (_ & _ & Hmap & _).
  destruct (split_example_pieces tokenizer example) as (Horig & Htoks & _).
  rewrite Horig in Hmap.
  set (ps := pieces tokenizer example) in *.
  assert (Hsub : ps.*1.*2 = sub_tokens)
    by apply (pieces_from_tokens tokenizer 0).
  assert (Hzero : token_to_orig_map f !! 0 = None).
  { rewrite Hmap. clear. induction (ps.*1.*1) as [|x l IH] using rev_ind;
      [done|].
    rewrite build_token_to_orig_map_snoc. by rewrite lookup_insert_ne. }
  assert (Hlook : forall j, token_to_orig_map f !! S j
                            = (fun p => p.1.1) <$> ps !! j).
  { intros j. rewrite Hmap, build_token_to_orig_map_lookup.
    rewrite !list_lookup_fmap. by destruct (ps !! j). }
  assert (Hlen : length sub_tokens = length ps).
  { by rewrite <- Hsub, !length_fmap. }
  split; [exact Hzero|]. split; [|split].
  - intros [|j].
    + rewrite Hzero. split; [by intros [? ?]|lia].
    + rewrite Hlook, Hlen, fmap_is_Some, lookup_lt_is_Some. lia.
  - intros [|j] w Hk; [congruence|].
    rewrite Hlook in Hk.
    destruct (ps !! j) as [[[o t] l]|] eqn:Hj; [|discriminate].
    injection Hk as <-. simpl.
    apply (pieces_from_lookup tokenizer 0) in Hj as Hj'.
    destruct Hj' as (_ & word & Hword & Ht).
    rewrite Nat.sub_0_r in Hword |- *.
    exists word, t. split; [|split; [|exact Ht]].
    + unfold words. by rewrite list_lookup_fmap, Hword.
    + by rewrite <- Hsub, !list_lookup_fmap, Hj.
  - intros [|j1] [|j2] w1 w2 Hle H1 H2; try congruence; try lia.
    rewrite Hlook in H1, H2.
    destruct (ps !! j1) as [p1|] eqn:E1; [|discriminate].
    destruct (ps !! j2) as [p2|] eqn:E2; [|discriminate].
    injection H1 as <-. injection H2 as <-.
    eapply (pieces_from_monotone tokenizer 0); [|exact E1|exact E2]. lia.
Qed.

Lemma token_to_orig_map_shape_witness :
  exists f,
    john_features !! 0 = Some f /\
    token_to_orig_map f !! 0 = None /\
    (forall k, is_Some (token_to_orig_map f !! k) <-> 1 <= k <= 4).
Proof.
  eexists. split; [vm_compute; reflexivity|].
  destruct (token_to_orig_map_shape word_tokenizer 10
              (LabelVocab.update LabelVocab.init john) john_vocab [john]
              john_features 0 john
              (default (mkInputFeatures 0 0 [] ∅ [] [] [] [] None)
                 (john_features !! 0)))
    as (Hzero & Hdom & _).
  - vm_compute. reflexivity.
  - reflexivity.
  - vm_compute. reflexivity.
  - split; [exact Hzero|exact Hdom].
Defined.

Lemma convert_example_label_ids (tokenizer : Tokenizer) (v : LabelVocab)
  (msl uid : Z) (index : nat) (example : NERExample) (f : InputFeatures) :
  convert_example tokenizer v msl uid index example = Ok f ->
  exists ids,
    LabelVocab.convert_labels_to_ids v (feature_labels tokenizer msl example)
      = Ok ids /\
    label_ids f
      = Some (ids ++ replicate
                       (Z.to_nat (msl - Z.of_nat (length (tokens f)))) 0).
Proof.
  rewrite convert_example_closed. intros H.
  apply bind_Ok in H as (ids & Hids & H). exists ids. split; [exact Hids|].
  revert H. generalize (feature_tokens tokenizer msl example). intros toks H.
  destruct (decide _) as [Hfit|]; [|discriminate].
  by injection H as <-.
Qed.

(** X12.  The label ids of a labeled feature, read back through the frozen
    vocabulary, are "O" for the begin marker, then for each kept subword
    piece the label of its word (a word's label is repeated on all its
    pieces), then "O" for the end marker and "O" on all the padding: the
    padding id 0 is the id of "O". *)
Theorem label_ids_follow_pieces (tokenizer : Tokenizer)
  (max_seq_length : Z) (v0 v : LabelVocab) (examples : list NERExample)
  (features : list InputFeatures) (i : nat) (example : NERExample)
  (f : InputFeatures) :
  convert_examples_to_features v0 examples tokenizer max_seq_length
    = Ok (v, features) ->
  examples !! i = Some example ->
  features !! i = Some f ->
  let piece_labels :=
    zip (ex_tokens example) (ex_labels example)
      ≫= fun z => replicate (length (tokenize tokenizer z.1)) z.2 in
  let room := Z.to_nat (max_seq_length - 2) in
  let padding := Z.to_nat (max_seq_length - Z.of_nat (length (tokens f))) in
  exists ids,
    label_ids f = Some ids /\
    LabelVocab.convert_ids_to_labels v ids
    = Ok (["O"] ++ take room piece_labels ++ ["O"] ++ replicate padding "O").
Proof.
  intros Hok Hex Hf piece_labels room padding.
  apply convert_examples_Ok in Hok as (-> & _ & Hall).
  destruct (Hall i f Hf) as (example' & Hex' & Hconv).
  rewrite Hex in Hex'. injection Hex' as <-.
  apply convert_example_laid_out in Hconv as Hlay.
  destruct Hlay as ((Hfit & _) & Htoks & _).
  pose proof (feature_tokens_length tokenizer max_seq_length example) as H2.
  rewrite <- Htoks in H2.
  apply convert_example_label_ids in Hconv as (ids & Hids & Hlabel).
  eexists. split; [exact Hlabel|]. fold padding.
  rewrite (convert_ids_roundtrip v0 _ _ padding Hids).
  destruct (feature_rows tokenizer max_seq_length example) as [_ ->].
  rewrite <- slice_to_fmap. unfold pieces, enumerate.
  rewrite (pieces_from_labels tokenizer 0). fold piece_labels.
  rewrite slice_to_take by lia. fold room.
  by rewrite <- !app_assoc.
Qed.

Lemma label_ids_follow_pieces_witness :
  exists f ids,
    john_features !! 0 = Some f /\
    label_ids f = Some ids /\
    LabelVocab.convert_ids_to_labels john_vocab ids
    = Ok ["O"; "B-PER"; "O"; "O"; "B-LOC"; "O"; "O"; "O"; "O"; "O"].
Proof.
  eexists.
  destruct (label_ids_follow_pieces word_tokenizer 10
              (LabelVocab.update LabelVocab.init john) john_vocab [john]
              john_features 0 john
              (default (mkInputFeatures 0 0 [] ∅ [] [] [] [] None)
                 (john_features !! 0)))
    as (ids & Hids & Hdecode).
  - vm_compute. reflexivity.
  - reflexivity.
  - vm_compute. reflexivity.
  - exists ids. split; [vm_compute; reflexivity|].
    split; [exact Hids|exact Hdecode].
Defined.

Section PathsAgree.

Variable tokenizer : Tokenizer.

Lemma fold_add_sub_token_unsup (i : nat) (subs : list string) (st : Pieces) :
  fold_left
    (fun st sub_token =>
       {| tok_to_orig_index := tok_to_orig_index st ++ [i];
          orig_to_tok_index := orig_to_tok_index st;
          all_tokens := all_tokens st ++ [sub_token];
          all_labels := all_labels st |})
    subs st
  = {| tok_to_orig_index := tok_to_orig_index st ++ ((fun _ => i) <$> subs);
       orig_to_tok_index := orig_to_tok_index st;
       all_tokens := all_tokens st ++ subs;
       all_labels := all_labels st |}.
Proof.
  revert st. induction subs as [|s subs IH]; intros st; simpl.
  - destruct st; simpl. by rewrite !app_nil_r.
  - rewrite IH. simpl. by rewrite <- !app_assoc.
Qed.

Lemma word_pieces_unsup_proj (i : nat) (t : string) :
  (word_pieces_unsup tokenizer (i, t)).*1
    = ((fun _ => i) <$> tokenize tokenizer t) /\
  (word_pieces_unsup tokenizer (i, t)).*2 = tokenize tokenizer t.
Proof.
  unfold word_pieces_unsup. cbn [fst snd].
  split; induction (tokenize tokenizer t) as [|s subs IH];
    csimpl; f_equal; auto.
Qed.

Lemma fold_add_word_unsup (ws : list (nat * string)) (st : Pieces) :
  tok_to_orig_index (fold_left (add_word_unsup tokenizer) ws st)
    = tok_to_orig_index st ++ (ws ≫= word_pieces_unsup tokenizer).*1 /\
  all_tokens (fold_left (add_word_unsup tokenizer) ws st)
    = all_tokens st ++ (ws ≫= word_pieces_unsup tokenizer).*2.
Proof.
  revert st. induction ws as [|[i t] ws IH]; intros st.
  - simpl. by rewrite !app_nil_r.
  - rewrite bind_cons. cbn [fold_left].
    destruct (IH (add_word_unsup tokenizer st (i, t))) as (-> & ->).
    destruct (word_pieces_unsup_proj i t) as (E1 & E2).
    rewrite !fmap_app, E1, E2.
    unfold add_word_unsup. rewrite fold_add_sub_token_unsup.
    cbn [tok_to_orig_index all_tokens].
    by rewrite <- !app_assoc.
Qed.

Lemma split_unsupervised_pieces example :
  tok_to_orig_index (split_unsupervised tokenizer example)
    = (pieces_unsup tokenizer example).*1 /\
  all_tokens (split_unsupervised tokenizer example)
    = (pieces_unsup tokenizer example).*2.
Proof. apply (fold_add_word_unsup _ no_pieces). Qed.

(** With a label for every word, the pieces of a labeled example are those
    of its words alone. *)
Lemma pieces_forget_labels (n : nat) (toks labs : list string) :
  length toks <= length labs ->
  (enumerate_from n (zip toks labs) ≫= word_pieces tokenizer).*1
  = enumerate_from n toks ≫= word_pieces_unsup tokenizer.
Proof.
  revert n labs. induction toks as [|t toks IH]; intros n [|l labs] Hlen;
    simpl in Hlen; try lia; [done|done|].
  cbn [zip zip_with enumerate_from]. rewrite !bind_cons, fmap_app.
  rewrite IH by lia. f_equal.
  unfold word_pieces, word_pieces_unsup. cbn [fst snd].
  rewrite <- list_fmap_compose. done.
Qed.

Lemma tokens_forget_labels msl example :
  length (ex_tokens example) <= length (ex_labels example) ->
  tok_to_orig_index (split_example tokenizer example)
    = tok_to_orig_index (split_unsupervised tokenizer (unlabel example)) /\
  feature_tokens tokenizer msl example
    = feature_tokens_unsup tokenizer msl (unlabel example).
Proof.
  intros Hlen.
  destruct (split_example_pieces tokenizer example) as (Horig & Htoks & _).
  destruct (split_unsupervised_pieces (unlabel example)) as (Uorig & Utoks).
  pose proof (pieces_forget_labels 0 _ _ Hlen) as Hsame.
  change ((pieces tokenizer example).*1
          = pieces_unsup tokenizer (unlabel example)) in Hsame.
  split.
  - by rewrite Horig, Uorig, Hsame.
  - destruct (feature_rows tokenizer msl example) as [-> _].
    unfold feature_tokens_unsup. rewrite Utoks, <- Hsame.
    by rewrite !slice_to_fmap.
Qed.

Lemma convert_forget_labels v msl uid uid' index index' example f :
  length (ex_tokens example) <= length (ex_labels example) ->
  convert_example tokenizer v msl uid index example = Ok f ->
  exists g,
    convert_unsupervised_example tokenizer msl uid' index' (unlabel example)
      = Ok g /\
    same_arrays f g.
Proof.
  intros Hlen Hf.
  destruct (tokens_forget_labels msl example Hlen) as [Horig Htoks].
  apply convert_example_laid_out in Hf
    as ((Hfit & Hids & Hmask & Hloss & Hseg) & Hrow & Hmap & _).
  rewrite convert_unsupervised_example_closed.
  rewrite <- Htoks, <- Horig, <- Hrow.
  rewrite decide_True by done. eexists. split; [done|].
  unfold same_arrays. cbn.
  rewrite Hids, Hmask, Hloss, Hseg, Hmap, replicate_add. done.
Qed.

End PathsAgree.

Lemma mapM_relate {A A' B B' : Type} (g : A -> result B)
  (g' : A' -> result B') (R : B -> B' -> Prop) (l : list A) (l' : list A')
  (ys : list B) :
  Forall2 (fun x x' => forall y, g x = Ok y ->
                         exists z, g' x' = Ok z /\ R y z) l l' ->
  mapM g l = Ok ys ->
  exists zs, mapM g' l' = Ok zs /\ Forall2 R ys zs.
Proof.
  intros Hrel. revert ys.
  induction Hrel as [|x x' l l' Hx _ IH]; intros ys H; simpl in H.
  - injection H as <-. by exists [].
  - destruct (g x) as [y|e] eqn:Hy; simpl in H; [|discriminate].
    destruct (mapM g l) as [ys'|e] eqn:Hl; simpl in H; [|discriminate].
    injection H as <-.
    destruct (Hx y eq_refl) as (z & Hz & Hyz).
    destruct (IH ys' eq_refl) as (zs & Hzs & Hrest).
    exists (z :: zs). simpl. rewrite Hz, Hzs. split; [done|].
    by constructor.
Qed.

(** X13.  The two conversion paths agree: for labeled examples that have a
    label for every word, converting them without their labels succeeds
    whenever the labeled conversion does, and gives, feature by feature, the
    same tokens, position map, input ids, attention mask, loss mask and
    segment ids. *)
Theorem conversion_paths_agree (tokenizer : Tokenizer) (max_seq_length : Z)
  (v0 v : LabelVocab) (examples : list NERExample)
  (features : list InputFeatures) :
  convert_examples_to_features v0 examples tokenizer max_seq_length
    = Ok (v, features) ->
  Forall (fun e => length (ex_tokens e) <= length (ex_labels e)) examples ->
  exists ufeatures,
    convert_unsupervised_examples_to_features (unlabel <$> examples)
      tokenizer max_seq_length = Ok ufeatures /\
    Forall2 same_arrays features ufeatures.
Proof.
  intros Hok Hlens. unfold convert_examples_to_features in Hok.
  apply bind_Ok in Hok as (e0 & _ & Hok).
  apply bind_Ok in Hok as (fs & Hfs & Hok). injection Hok as _ <-.
  unfold convert_unsupervised_examples_to_features.
  eapply mapM_relate; [|exact Hfs].
  apply Forall2_same_length_lookup_2.
  { by rewrite !enumerate_length, length_fmap. }
  intros i [j e] [j' u] Hi Hi' f Hf.
  rewrite enumerate_lookup in Hi. rewrite enumerate_lookup in Hi'.
  rewrite list_lookup_fmap in Hi'.
  destruct (examples !! i) as [ex|] eqn:Hex; [|discriminate].
  injection Hi as <- <-. injection Hi' as <- <-.
  eapply convert_forget_labels; [|exact Hf].
  eapply Forall_lookup_1 in Hlens; [exact Hlens|exact Hex].
Qed.

Lemma conversion_paths_agree_witness :
  exists ufeatures,
    convert_unsupervised_examples_to_features [unlabel john] word_tokenizer 10
      = Ok ufeatures /\
    Forall2 same_arrays john_features ufeatures.
Proof.
  apply (conversion_paths_agree word_tokenizer 10
           (LabelVocab.update LabelVocab.init john) john_vocab [john]
           john_features).
  - vm_compute. reflexivity.
  - repeat constructor.
Defined.

(** ** More on the reconstruction *)

Section WalkLemmas.

Context {A S : Type}.

(** A loop that fails, fails in its body, in a state that the invariant
    still describes. *)
Lemma foldM_Err (P : S -> Prop) (f : S -> A -> result S) (l : list A)
  (s : S) (e : exn) :
  P s -> (forall s x s', P s -> f s x = Ok s' -> P s') ->
  foldM f s l = Err e ->
  exists s1 x, P s1 /\ x ∈ l /\ f s1 x = Err e.
Proof.
  intros Hs Hstep. revert s Hs.
  induction l as [|x l IH]; intros s Hs H; simpl in H; [discriminate|].
  destruct (f s x) as [s1|e1] eqn:E; simpl in H.
  - destruct (IH s1 (Hstep _ _ _ Hs E) H) as (s2 & y & ? & ? & ?).
    exists s2, y. split; [done|]. split; [by right|done].
  - injection H as <-. exists s, x. split; [done|]. split; [left|done].
Qed.

End WalkLemmas.

Section ReconstructMore.

Implicit Types (example : NERExample) (f : InputFeatures) (st : Walk).

Lemma walk_step_ok example f raw st it st' :
  walk_ok example raw st ->
  walk_step example f raw st it = Ok st' ->
  walk_ok example raw st'.
Proof.
  intros (Hlen & Htrue & Hpred) H. destruct it as [i token].
  unfold walk_step in H.
  destruct (is_marker token); [by injection H as <-|].
  apply bind_Ok in H as (o & _ & H).
  destruct (_ =? _)%Z; [by injection H as <-|].
  apply bind_Ok in H as (p & Hp & H). apply bind_Ok in H as (t & Ht & H).
  injection H as <-. unfold walk_ok. cbn.
  rewrite !length_app, !Forall_app, !Forall_singleton. split_and!; try done.
  - simpl. lia.
  - destruct (ex_labels example !! o) eqn:E; [|discriminate].
    injection Ht as <-. eapply list_elem_of_lookup_2, E.
  - destruct (raw !! i) eqn:E; [|discriminate].
    injection Hp as <-. eapply list_elem_of_lookup_2, E.
Qed.

Lemma walk_step_error example f raw st it e :
  walk_step example f raw st it = Err e -> e = KeyError \/ e = IndexError.
Proof.
  destruct it as [i token]. unfold walk_step.
  destruct (is_marker token); [discriminate|].
  destruct (token_to_orig_map f !! i) as [o|]; simpl;
    [|intros [= <-]; by left].
  destruct (_ =? _)%Z; [discriminate|].
  destruct (raw !! i); simpl; [|intros [= <-]; by right].
  destruct (ex_labels example !! o); simpl; [discriminate|].
  intros [= <-]. by right.
Qed.

Lemma convert_ids_to_labels_elem v ids ls l :
  LabelVocab.convert_ids_to_labels v ids = Ok ls -> l ∈ ls -> l ∈ labels v.
Proof.
  intros H%mapM_Ok_Forall2 [i Hi]%list_elem_of_lookup.
  destruct (Forall2_lookup_r _ _ _ _ _ H Hi) as (id & _ & Hid).
  cbv beta in Hid. destruct (labels v !! id) eqn:E; [|discriminate].
  injection Hid as <-. eapply list_elem_of_lookup_2, E.
Qed.

Lemma convert_ids_to_labels_error v ids e :
  LabelVocab.convert_ids_to_labels v ids = Err e -> e = IndexError.
Proof.
  intros H. unfold LabelVocab.convert_ids_to_labels in H.
  destruct (mapM_cases
    (fun id => of_option IndexError (labels v !! id)) ids)
    as [[ls Hls]|(id & e' & _ & Hid & Herr)]; [congruence|].
  rewrite Herr in H. injection H as <-.
  destruct (labels v !! id); [discriminate|]. by injection Hid.
Qed.

End ReconstructMore.

(** X14.  The walk of [write_predictions] over one example never trips its
    own assertion: whatever the feature and the logits, it does not raise
    [AssertionError].  When it returns, there are as many predicted as true
    labels, every true label is a label of the example, every predicted
    label is a label of the vocabulary, and the length warning was logged
    exactly when the number of predictions differs from the number of the
    example's labels. *)
Theorem reconstruct_never_asserts (v : LabelVocab) (example : NERExample)
  (f : InputFeatures) (logits : list (list Q)) :
  reconstruct v example f logits <> Err AssertionError /\
  forall r, reconstruct v example f logits = Ok r ->
    length (r_predicted r) = length (r_true r) /\
    Forall (fun l => l ∈ ex_labels example) (r_true r) /\
    Forall (fun l => l ∈ labels v) (r_predicted r) /\
    (r_warned r = true <->
     length (r_predicted r) <> length (ex_labels example)).
Proof.
  unfold reconstruct.
  destruct (LabelVocab.convert_ids_to_labels v (argmax <$> logits))
    as [raw|e] eqn:Hraw.
  2:{ apply convert_ids_to_labels_error in Hraw as ->. split; done. }
  rewrite result_bind_Ok.
  set (st0 := {| predicted_labels := [] |}).
  assert (H0 : walk_ok example raw st0) by (repeat split; constructor).
  destruct (foldM (walk_step example f raw) st0 (enumerate (tokens f)))
    as [st|e] eqn:Hwalk.
  - apply (foldM_invariant (walk_ok example raw)) in Hwalk as Hst;
      [|exact H0|intros ? ? ?; apply walk_step_ok].
    destruct Hst as (Hlen & Htrue & Hpred).
    rewrite result_bind_Ok. rewrite <- Hlen, Nat.eqb_refl.
    unfold Py.assert. rewrite result_bind_Ok. split; [done|].
    intros r [= <-]. cbn. split_and!; try done.
    + eapply Forall_impl; [exact Hpred|]. intros l Hl.
      eapply convert_ids_to_labels_elem; [exact Hraw|exact Hl].
    + rewrite negb_true_iff, Nat.eqb_neq. done.
  - split; [|done]. intros [= ->].
    apply (foldM_Err (walk_ok example raw)) in Hwalk
      as (s1 & x & _ & _ & Hx);
      [|exact H0|intros ? ? ?; apply walk_step_ok].
    by apply walk_step_error in Hx as [?|?].
Qed.

Section TruncatedWalk.

Variable tokenizer : Tokenizer.

(** Some pieces of one word, none of them a marker, contribute the label of
    the word once. *)
Lemma head_step_pieces (w : nat) (l : string) (subs : list string)
  (st : Walk) :
  (last_orig_index st < Z.of_nat w)%Z ->
  subs <> [] ->
  (forall p, p ∈ subs -> is_marker p = false) ->
  fold_left head_step ((fun s => (w, s, l)) <$> subs) st
  = {| predicted_labels := predicted_labels st ++ [l];
       true_labels := true_labels st ++ [l];
       last_orig_index := Z.of_nat w |}.
Proof.
  intros Hlast Hne Hmark. destruct subs as [|s subs]; [done|].
  cbn [fmap list_fmap fold_left].
  assert (Hfirst : head_step st (w, s, l)
                   = {| predicted_labels := predicted_labels st ++ [l];
                        true_labels := true_labels st ++ [l];
                        last_orig_index := Z.of_nat w |}).
  { unfold head_step. cbn [fst snd]. rewrite (Hmark s) by left.
    destruct (Z.eqb_spec (Z.of_nat w) (last_orig_index st)); [lia|done]. }
  rewrite Hfirst. by apply head_step_same_word.
Qed.

Lemma kept_words_le (room : nat) (zs : list (string * string)) :
  kept_words tokenizer room zs <= length zs.
Proof.
  revert room. induction zs as [|z zs IH]; intros [|room]; simpl; try lia.
  specialize (IH (S room - length (tokenize tokenizer z.1))). lia.
Qed.

(** With room for all pieces, every word is kept. *)
Lemma kept_words_all (room : nat) (zs : list (string * string)) :
  (forall z, z ∈ zs -> tokenize tokenizer z.1 <> []) ->
  length (zs.*1 ≫= tokenize tokenizer) <= room ->
  kept_words tokenizer room zs = length zs.
Proof.
  revert room. induction zs as [|z zs IH]; intros room Hne Hroom; [done|].
  cbn [fmap list_fmap] in Hroom. rewrite bind_cons, length_app in Hroom.
  assert (length (tokenize tokenizer z.1) <> 0).
  { intros E%length_zero_iff_nil. by apply (Hne z); [left|]. }
  destruct room as [|room]; [lia|]. simpl. f_equal. apply IH.
  - intros z' Hz'. apply Hne. by right.
  - lia.
Qed.

(** The walk over the first [m] pieces keeps the labels of the words that
    have a piece among them. *)
Lemma head_step_words_take (zs : list (string * string)) (w0 m : nat)
  (st : Walk) :
  (last_orig_index st < Z.of_nat w0)%Z ->
  (forall t l, (t, l) ∈ zs ->
     tokenize tokenizer t <> [] /\
     forall p, p ∈ tokenize tokenizer t -> is_marker p = false) ->
  let st' :=
    fold_left head_step
      (take m (enumerate_from w0 zs ≫= word_pieces tokenizer)) st in
  let k := kept_words tokenizer m zs in
  predicted_labels st' = predicted_labels st ++ take k zs.*2 /\
  true_labels st' = true_labels st ++ take k zs.*2.
Proof.
  revert w0 m st. induction zs as [|[t l] zs IH]; intros w0 m st Hlast Hzs.
  - cbn. rewrite take_nil. cbn. by rewrite !app_nil_r.
  - destruct m as [|m]; [cbn; by rewrite !app_nil_r|].
    cbn [enumerate_from]. rewrite bind_cons, take_app, fold_left_app.
    destruct (Hzs t l) as [Hne Hmark]; [left|].
    assert (Hwp : word_pieces tokenizer (w0, (t, l))
                  = (fun s => (w0, s, l)) <$> tokenize tokenizer t)
      by reflexivity.
    assert (Hword :
      fold_left head_step (take (S m) (word_pieces tokenizer (w0, (t, l)))) st
      = {| predicted_labels := predicted_labels st ++ [l];
           true_labels := true_labels st ++ [l];
           last_orig_index := Z.of_nat w0 |}).
    { rewrite Hwp, <- fmap_take. apply head_step_pieces; [done| |].
      - destruct (tokenize tokenizer t); [done|]. discriminate.
      - intros p Hp. apply Hmark. eapply subseteq_take, Hp. }
    assert (Hlenwp : length (word_pieces tokenizer (w0, (t, l)))
                     = length (tokenize tokenizer t))
      by (by rewrite Hwp, length_fmap).
    rewrite !Hword, !Hlenwp.
    change (kept_words tokenizer (S m) ((t, l) :: zs))
      with (S (kept_words tokenizer
                 (S m - length (tokenize tokenizer t)) zs)).
    cbv zeta.
    edestruct (IH (S w0) (S m - length (tokenize tokenizer t)))
      as [-> ->].
    + cbn. lia.
    + intros t' l' H. apply (Hzs t' l'). by right.
    + cbn. by rewrite <- !app_assoc.
Qed.

Lemma reconstruct_example_truncated v0 msl uid index example f
  (logits : list (list Q)) :
  let v := LabelVocab.build v0 in
  convert_example tokenizer v msl uid index example = Ok f ->
  length (ex_tokens example) = length (ex_labels example) ->
  (forall w, w ∈ ex_tokens example ->
     tokenize tokenizer w <> [] /\
     forall p, p ∈ tokenize tokenizer w -> p <> "[CLS]" /\ p <> "[SEP]") ->
  label_ids f = Some (argmax <$> logits) ->
  let k := kept_words tokenizer (Z.to_nat (msl - 2))
             (zip (ex_tokens example) (ex_labels example)) in
  reconstruct v example f logits
  = Ok {| r_predicted := take k (ex_labels example);
          r_true := take k (ex_labels example);
          r_warned := negb (k =? length (ex_labels example))%nat |}.
Proof.
  intros v Hf Hlen Htok Hlogits k.
  apply convert_example_laid_out in Hf as Hlay.
  destruct Hlay as ((Hfit & _) & Htoks & Hmap & _).
  pose proof (feature_tokens_length tokenizer msl example) as H2.
  rewrite <- Htoks in H2.
  apply convert_example_label_ids in Hf as (ids & Hids & Hlabel).
  rewrite Hlabel in Hlogits. injection Hlogits as Hlogits.
  destruct (feature_rows tokenizer msl example) as [Hrow Hlabs].
  destruct (split_example_pieces tokenizer example) as (Horig & _ & _).
  rewrite slice_to_take in Hrow, Hlabs by lia.
  set (room := Z.to_nat (msl - 2)) in *.
  set (ps := pieces tokenizer example) in *.
  rewrite Hlabs in Hids. rewrite Hrow in Htoks. rewrite Horig in Hmap.
  unfold reconstruct. rewrite <- Hlogits, Htoks.
  pose proof (fun n => convert_ids_roundtrip v0 _ _ n Hids) as Hraw.
  cbv zeta in Hraw. fold v in Hraw. rewrite Hraw.
  rewrite result_bind_Ok. cbv beta.
  match goal with
  | |- context [foldM (walk_step _ _ ?raw') ?st' _] =>
      set (raw := raw'); set (st0 := st')
  end.
  assert (Hwalk : foldM (walk_step example f raw) st0
                    (enumerate (["[CLS]"] ++ (take room ps).*1.*2
                                ++ ["[SEP]"]))
                  = Ok (fold_left head_step (take room ps) st0)).
  { unfold enumerate. cbn [app enumerate_from foldM].
    rewrite marker_step by reflexivity. simpl bind.
    rewrite enumerate_from_app, foldM_app.
    rewrite (walk_pieces example f raw (take room ps) 1 st0).
    - unfold mbind, result_bind; simpl bind.
      cbn [enumerate_from foldM].
      rewrite ?marker_step by reflexivity. done.
    - intros j o t l Hj.
      apply lookup_take_Some in Hj as Hj'. destruct Hj' as [Hps Hroom].
      split; [|split].
      + rewrite Hmap. change (1 + j) with (S j).
        rewrite build_token_to_orig_map_lookup.
        by rewrite !list_lookup_fmap, Hps.
      + subst raw. change (1 + j) with (S j).
        rewrite <- !app_assoc. cbn [app]. rewrite lookup_cons.
        rewrite lookup_app_l
          by (rewrite length_fmap; eapply lookup_lt_Some, Hj).
        by rewrite list_lookup_fmap, Hj.
      + eapply pieces_orig_label, list_elem_of_lookup_2, Hps. }
  rewrite Hwalk, result_bind_Ok. cbv beta.
  destruct (head_step_words_take
              (zip (ex_tokens example) (ex_labels example)) 0 room st0)
    as [Hpred Htrue].
  { subst st0. cbn. lia. }
  { intros t l Ht%elem_of_zip_l. destruct (Htok t Ht) as [Hne Hmark].
    split; [done|]. intros p Hp. by apply is_marker_false, Hmark. }
  fold (enumerate (zip (ex_tokens example) (ex_labels example)))
    in Hpred, Htrue.
  fold (pieces tokenizer example) in Hpred, Htrue. fold ps in Hpred, Htrue.
  fold k in Hpred, Htrue.
  rewrite snd_zip in Hpred, Htrue by lia.
  subst st0. cbn [predicted_labels true_labels app] in Hpred, Htrue.
  rewrite Hpred, Htrue, !Nat.eqb_refl. unfold Py.assert.
  rewrite result_bind_Ok. do 2 f_equal.
  assert (Hk : k <= length (ex_labels example)).
  { unfold k. etransitivity; [apply kept_words_le|].
    rewrite length_zip_with. lia. }
  rewrite length_take. by replace (k `min` _) with k by lia.
Qed.

End TruncatedWalk.

(** X15. When a sentence does not fit, the features hold only its first
    [max_seq_length - 2] pieces, and the reconstruction from predictions that
    equal the gold ids scores the labels of exactly the words whose first
    piece was kept: both returned sequences are that prefix of the gold
    labels, and the sentence is flagged as one with missing predictions
    exactly when a word was dropped.  This holds for every tokenizer that
    gives each word at least one piece and never a piece spelled like a
    marker. *)
Theorem truncated_sentence_scores_prefix (tokenizer : Tokenizer)
  (max_seq_length : Z) (v0 v : LabelVocab) (examples : list NERExample)
  (features : list InputFeatures) (i : nat) (example : NERExample)
  (f : InputFeatures) (logits : list (list Q)) :
  convert_examples_to_features v0 examples tokenizer max_seq_length
    = Ok (v, features) ->
  examples !! i = Some example ->
  features !! i = Some f ->
  length (ex_tokens example) = length (ex_labels example) ->
  (forall w, w ∈ ex_tokens example ->
     tokenize tokenizer w <> [] /\
     forall p, p ∈ tokenize tokenizer w -> p <> "[CLS]" /\ p <> "[SEP]") ->
  label_ids f = Some (argmax <$> logits) ->
  let k := kept_words tokenizer (Z.to_nat (max_seq_length - 2))
             (zip (ex_tokens example) (ex_labels example)) in
  k <= length (ex_labels example) /\
  reconstruct v example f logits
  = Ok {| r_predicted := take k (ex_labels example);
          r_true := take k (ex_labels example);
          r_warned := negb (k =? length (ex_labels example))%nat |}.
Proof.
  intros Hok Hex Hf Hlen Htok Hlogits k. split.
  - unfold k. etransitivity; [apply kept_words_le|].
    rewrite length_zip_with. lia.
  - apply convert_examples_Ok in Hok as (-> & _ & Hall).
    destruct (Hall i f Hf) as (example' & Hex' & Hconv).
    rewrite Hex in Hex'. injection Hex' as <-.
    eapply reconstruct_example_truncated; eauto.
Qed.

Lemma truncated_sentence_scores_prefix_witness :
  exists v features f,
    convert_examples_to_features (LabelVocab.update LabelVocab.init john)
      [john] word_tokenizer 4 = Ok (v, features) /\
    features !! 0 = Some f /\
    reconstruct v john f (gold_logits 3 f)
    = Ok {| r_predicted := ["B-PER"; "O"];
            r_true := ["B-PER"; "O"];
            r_warned := true |}.
Proof.
  eexists _, _, _. split; [vm_compute; reflexivity|].
  split; [reflexivity|].
  refine (proj2 (truncated_sentence_scores_prefix word_tokenizer 4
           (LabelVocab.update LabelVocab.init john) _ [john]
           _ 0 john _ _ _ _ _ _ _ _)).
  - vm_compute. reflexivity.
  - reflexivity.
  - reflexivity.
  - reflexivity.
  - intros w Hw. split; [discriminate|].
    intros p ->%list_elem_of_singleton.
    repeat (apply elem_of_cons in Hw as [->|Hw]; [split; discriminate|]).
    by apply elem_of_nil in Hw.
  - vm_compute. reflexivity.
Defined.

(** ** More on the feature cache *)

Section CacheMore.

Context {Blob : Type}.
Variable pickle_dump : list InputFeatures -> Blob.
Variable pickle_load : Blob -> option (list InputFeatures).
Variable writable : string -> bool.

(** After a load by the writing process the file at [path] holds the
    features that were returned. *)
Lemma load_or_convert_reload (fs fs' : gmap string Blob) (path : string)
  (local_rank rank local_rank' rank' : Z)
  (convert convert' : result (list InputFeatures))
  (features : list InputFeatures) :
  (forall fts, pickle_load (pickle_dump fts) = Some fts) ->
  is_writer local_rank rank = true ->
  load_or_convert Blob pickle_dump pickle_load writable fs path local_rank
    rank convert
    = Ok (features, fs') ->
  load_or_convert Blob pickle_dump pickle_load writable fs' path local_rank'
    rank' convert'
    = Ok (features, fs').
Proof.
  intros Hpickle Hwriter. unfold load_or_convert.
  destruct (read_cache Blob pickle_load fs path) as [cached|] eqn:E.
  - intros [= <- <-]. by rewrite E.
  - intros (fts & _ & H)%bind_Ok. rewrite Hwriter in H.
    unfold write_cache in H. destruct (writable path); [|discriminate].
    injection H as <- <-. unfold read_cache.
    rewrite lookup_insert_eq. simpl. by rewrite Hpickle.
Qed.

End CacheMore.

(** X16.  The cache is keyed by the path alone.  Once the writing process
    (the one with [local_rank = -1] or rank 0) has loaded features for a
    path, every later load for that path, in any process, returns those same
    features and leaves the files as they are, whatever examples,
    vocabulary, tokenizer or [max_seq_length] it is given: the conversion is
    not run again, so it cannot raise either, and nothing is written.  This
    needs [pickle.load] to give back what [pickle.dump] wrote, and holds for
    the training features and for the unlabeled ones. *)
Theorem cache_reload_reuses_features {Blob : Type}
  (pickle_dump : list InputFeatures -> Blob)
  (pickle_load : Blob -> option (list InputFeatures))
  (writable : string -> bool)
  (fs fs' : gmap string Blob) (path : string) (local_rank rank : Z)
  (features : list InputFeatures) :
  (forall fts, pickle_load (pickle_dump fts) = Some fts) ->
  is_writer local_rank rank = true ->
  (forall label_vocab train_examples tokenizer max_seq_length,
     load_train_features Blob pickle_dump pickle_load writable fs path
       local_rank rank label_vocab train_examples tokenizer max_seq_length
     = Ok (features, fs') ->
     forall local_rank' rank' label_vocab' train_examples' tokenizer'
            max_seq_length',
       load_train_features Blob pickle_dump pickle_load writable fs' path
         local_rank' rank' label_vocab' train_examples' tokenizer'
         max_seq_length'
       = Ok (features, fs')) /\
  (forall unsupervised_examples tokenizer max_seq_length,
     _load_unsupervised_data Blob pickle_dump pickle_load writable fs path
       local_rank rank unsupervised_examples tokenizer max_seq_length
     = Ok (unsupervised_examples, features, fs') ->
     forall local_rank' rank' unsupervised_examples' tokenizer'
            max_seq_length',
       _load_unsupervised_data Blob pickle_dump pickle_load writable fs'
         path local_rank' rank' unsupervised_examples' tokenizer'
         max_seq_length'
       = Ok (unsupervised_examples', features, fs')).
Proof.
  intros Hpickle Hwriter. split.
  - intros v exs tok msl H lr' rank' v' exs' tok' msl'.
    unfold load_train_features in *.
    eapply load_or_convert_reload; eauto.
  - intros exs tok msl H lr' rank' exs' tok' msl'.
    unfold _load_unsupervised_data in *.
    apply bind_Ok in H as ([fts fs1] & H & [= <- <-]).
    by rewrite (load_or_convert_reload pickle_dump pickle_load writable
                  fs fs1 path local_rank rank lr' rank' _ _ fts Hpickle
                  Hwriter H).
Qed.

Lemma cache_reload_reuses_features_witness :
  load_train_features (list InputFeatures) plain_dump plain_load
    (fun _ => true)
    {["train.txt_bert_10" := john_features]} "train.txt_bert_10" 1 1
    LabelVocab.init [] word_tokenizer 10
  = Ok (john_features, {["train.txt_bert_10" := john_features]}).
Proof.
  destruct (cache_reload_reuses_features plain_dump plain_load
              (fun _ => true)
              ∅ {["train.txt_bert_10" := john_features]}
              "train.txt_bert_10" (-1) 0 john_features) as [H _].
  - reflexivity.
  - reflexivity.
  - apply (H (LabelVocab.update LabelVocab.init john) [john]
             word_tokenizer 10%Z).
    vm_compute. reflexivity.
Defined.

(** ** The supervised evaluator *)

Section Batches.

Context {A : Type}.

(** A sequential loader hands out every item once, in order. *)
Lemma batches_fuel_concat (fuel n : nat) (l : list A) :
  0 < n -> length l <= fuel -> concat (batches_fuel fuel n l) = l.
Proof.
  intros Hn. revert l. induction fuel as [|fuel IH]; intros l Hl.
  - destruct l; [done|]. simpl in Hl. lia.
  - destruct l as [|x l]; [done|]. cbn [batches_fuel concat].
    rewrite IH; [apply take_drop|].
    rewrite length_drop. simpl in *. lia.
Qed.

Lemma data_loader_concat (batch_size : Z) (l : list A) :
  (0 < batch_size)%Z ->
  exists batches, data_loader batch_size l = Ok batches /\ concat batches = l.
Proof.
  intros Hpos. unfold data_loader.
  destruct (Z.leb_spec batch_size 0) as [|_]; [lia|].
  eexists. split; [done|]. apply batches_fuel_concat; lia.
Qed.

Lemma data_loader_nonpositive (batch_size : Z) (l : list A) :
  (batch_size <= 0)%Z -> data_loader batch_size l = Err ValueError.
Proof.
  intros Hneg. unfold data_loader.
  by destruct (Z.leb_spec batch_size 0) as [_|]; [|lia].
Qed.

Lemma enumerate_from_snd (n : nat) (l : list A) : (enumerate_from n l).*2 = l.
Proof. revert n. induction l as [|x l IH]; intros n; simpl; [done|]. by rewrite IH. Qed.

Lemma enumerate_from_indexed (n : nat) (l : list A) (p : nat * A) :
  p ∈ enumerate_from n l -> n <= p.1 /\ l !! (p.1 - n) = Some p.2.
Proof. destruct p as [i x]. apply enumerate_from_elem. Qed.

End Batches.

Section EvaluateLemmas.

Variable g : TensorRow -> list (list Q).
Variable model : list TensorRow -> list (list (list Q)).
Hypothesis model_rowwise : forall rows, model rows = g <$> rows.

Lemma collect_result_rows (feats : list InputFeatures)
  (logits : list (list (list Q))) (batch : list (nat * InputFeatures))
  (k : nat) (acc : list (Z * list (list Q))) :
  (forall j p, batch !! j = Some p ->
     feats !! p.1 = Some p.2 /\
     logits !! (k + j) = Some (g (tensor_row p.2))) ->
  foldM (collect_result feats logits) acc (enumerate_from k batch.*1)
  = Ok (acc ++ ((fun p : nat * InputFeatures =>
                   (unique_id p.2, g (tensor_row p.2))) <$> batch)).
Proof.
  revert k acc. induction batch as [|[i f] batch IH]; intros k acc H.
  - simpl. by rewrite app_nil_r.
  - cbn [fmap list_fmap enumerate_from foldM].
    unfold collect_result at 1. cbn [fst snd].
    destruct (H 0 (i, f) eq_refl) as [Hf Hl]. cbn [fst snd] in Hf, Hl.
    rewrite Nat.add_0_r in Hl. rewrite Hl, Hf.
    unfold of_option. rewrite !result_bind_Ok.
    change (Py.bind (Ok ?a) ?k') with (k' a). cbv beta.
    rewrite IH.
    + by rewrite <- app_assoc.
    + intros j p Hj. destruct (H (S j) p Hj) as [? Hl']. split; [done|].
      by replace (S k + j) with (k + S j) by lia.
Qed.

Lemma collect_batch_rows (feats : list InputFeatures)
  (batch : list (nat * InputFeatures)) (acc : list (Z * list (list Q))) :
  (forall p, p ∈ batch -> feats !! p.1 = Some p.2) ->
  collect_batch model feats acc batch
  = Ok (acc ++ ((fun p : nat * InputFeatures =>
                   (unique_id p.2, g (tensor_row p.2))) <$> batch)).
Proof.
  intros H. unfold collect_batch, enumerate. apply collect_result_rows.
  intros j p Hj. split; [eapply H, list_elem_of_lookup_2, Hj|].
  change (0 + j) with j. by rewrite model_rowwise, !list_lookup_fmap, Hj.
Qed.

Lemma collect_batches_rows (feats : list InputFeatures)
  (batches : list (list (nat * InputFeatures)))
  (acc : list (Z * list (list Q))) :
  (forall p, p ∈ concat batches -> feats !! p.1 = Some p.2) ->
  foldM (collect_batch model feats) acc batches
  = Ok (acc ++ ((fun p : nat * InputFeatures =>
                   (unique_id p.2, g (tensor_row p.2))) <$> concat batches)).
Proof.
  revert acc. induction batches as [|b batches IH]; intros acc H.
  - simpl. by rewrite app_nil_r.
  - cbn [foldM concat]. rewrite collect_batch_rows.
    + change (Py.bind (Ok ?a) ?k') with (k' a). cbv beta.
      rewrite IH, fmap_app, <- app_assoc; [done|].
      intros p Hp. apply H. cbn [concat]. apply elem_of_app. by right.
    + intros p Hp. apply H. cbn [concat]. apply elem_of_app. by left.
Qed.

End EvaluateLemmas.

(** X17.  The batch size does not change what [evaluate_model] computes.
    For a model that scores every row of a batch on its own, the loop over
    the batches collects the logits of the features in their order, one
    result per feature, so with any positive batch size the outcome is that
    of [write_predictions] on the logits of the single features.  A batch
    size of 0 or less makes the loader raise [ValueError]. *)
Theorem evaluate_model_batch_size (model : list TensorRow -> list (list (list Q)))
  (g : TensorRow -> list (list Q))
  (evaluate : list string -> list string -> result (Q * Q * Q))
  (label_vocab : LabelVocab) (eval_examples : list NERExample)
  (eval_features : list InputFeatures) (batch_size : Z) :
  (forall rows, model rows = g <$> rows) ->
  ((0 < batch_size)%Z ->
   evaluate_model model evaluate label_vocab eval_examples eval_features
     batch_size
   = write_predictions evaluate label_vocab eval_examples eval_features
       ((fun f => g (tensor_row f)) <$> eval_features)) /\
  ((batch_size <= 0)%Z ->
   evaluate_model model evaluate label_vocab eval_examples eval_features
     batch_size
   = Err ValueError).
Proof.
  intros Hrows. split; intros Hsize; unfold evaluate_model.
  - destruct (data_loader_concat batch_size (enumerate eval_features) Hsize)
      as (batches & -> & Hconcat).
    rewrite result_bind_Ok.
    rewrite (collect_batches_rows g model Hrows).
    + rewrite result_bind_Ok, Hconcat. cbn [app]. f_equal.
      rewrite <- list_fmap_compose.
      rewrite <- (enumerate_from_snd 0 eval_features) at 2.
      by rewrite <- list_fmap_compose.
    + rewrite Hconcat. intros p Hp%enumerate_from_indexed.
      destruct Hp as [_ Hp]. by rewrite Nat.sub_0_r in Hp.
  - by rewrite data_loader_nonpositive.
Qed.

Lemma evaluate_model_batch_size_witness :
  evaluate_model (fun rows => (fun _ => background_logits 10) <$> rows)
    (fun _ _ => Ok (0%Q, 0%Q, 0%Q)) john_vocab [john] john_features 3
  = write_predictions (fun _ _ => Ok (0%Q, 0%Q, 0%Q)) john_vocab [john]
      john_features [background_logits 10].
Proof.
  apply (proj1 (evaluate_model_batch_size
                  (fun rows => (fun _ => background_logits 10) <$> rows)
                  (fun _ => background_logits 10)
                  (fun _ _ => Ok (0%Q, 0%Q, 0%Q)) john_vocab [john]
                  john_features 3 (fun rows => eq_refl))).
  lia.
Defined.

(** ** The assertions of [write_predictions] *)

Section WriteLemmas.



End WriteLemmas.


(** ** More on the unsupervised evaluator *)

Section FoldOutcome.

Context {A S : Type}.

(** A loop whose body keeps an invariant and raises only exceptions of one
    kind does the same as a whole. *)
Lemma foldM_outcome (P : S -> Prop) (E : exn -> Prop)
  (f : S -> A -> result S) (l : list A) (s : S) :
  P s ->
  (forall s x, P s -> match f s x with Ok s' => P s' | Err e => E e end) ->
  match foldM f s l with Ok s' => P s' | Err e => E e end.
Proof.
  intros Hs Hstep. revert s Hs.
  induction l as [|x l IH]; intros s Hs; simpl; [done|].
  specialize (Hstep s x Hs). destruct (f s x) as [s1|e]; simpl; [|done].
  by apply IH.
Qed.

End FoldOutcome.

Section UnsupervisedMore.

Variable model : list TensorRow -> list (list (list Q)).
Variable perturbe :
  list TensorRow -> list (list (list Q)) -> list TensorRow.
Variable evaluate : list string -> list string -> result (Q * Q * Q).

Lemma uwalk_step_outcome (v : LabelVocab) (f : InputFeatures)
  (o_raw p_raw : list string) (st : UWalk) (it : nat * string) :
  (forall l, l ∈ o_raw -> l ∈ labels v) ->
  (forall l, l ∈ p_raw -> l ∈ labels v) ->
  length (original_labels st) = length (perturbed_labels st) /\
  Forall (fun l => l ∈ labels v) (original_labels st) /\
  Forall (fun l => l ∈ labels v) (perturbed_labels st) ->
  match uwalk_step f o_raw p_raw st it with
  | Ok st' =>
      length (original_labels st') = length (perturbed_labels st') /\
      Forall (fun l => l ∈ labels v) (original_labels st') /\
      Forall (fun l => l ∈ labels v) (perturbed_labels st')
  | Err e => e = KeyError \/ e = IndexError
  end.
Proof.
  intros Ho Hp (Hlen & Horig & Hpert). destruct it as [i token].
  unfold uwalk_step. destruct (is_marker token); [done|].
  destruct (token_to_orig_map f !! i) as [oi|]; simpl; [|by left].
  destruct (_ =? _)%Z; [done|].
  destruct (o_raw !! i) as [o|] eqn:Eo; simpl; [|by right].
  destruct (p_raw !! i) as [p|] eqn:Ep; simpl; [|by right].
  rewrite !length_app, !Forall_app, !Forall_singleton. simpl.
  split_and!; try done; [lia| |].
  - eapply Ho, list_elem_of_lookup_2, Eo.
  - eapply Hp, list_elem_of_lookup_2, Ep.
Qed.

Lemma unsupervised_example_outcome (v : LabelVocab)
  (eval_features : list InputFeatures) (acc : list string * list string)
  (e : nat * list nat * list nat) :
  length acc.1 = length acc.2 /\
  Forall (fun l => l ∈ labels v) acc.1 /\
  Forall (fun l => l ∈ labels v) acc.2 ->
  match unsupervised_example v eval_features acc e with
  | Ok acc' =>
      length acc'.1 = length acc'.2 /\
      Forall (fun l => l ∈ labels v) acc'.1 /\
      Forall (fun l => l ∈ labels v) acc'.2
  | Err e => e = KeyError \/ e = IndexError
  end.
Proof.
  intros Hacc. destruct e as [[index o_ids] p_ids].
  unfold unsupervised_example.
  destruct (LabelVocab.convert_ids_to_labels v o_ids) as [o_raw|e] eqn:Eo.
  2:{ apply convert_ids_to_labels_error in Eo as ->. by right. }
  rewrite result_bind_Ok.
  destruct (LabelVocab.convert_ids_to_labels v p_ids) as [p_raw|e] eqn:Ep.
  2:{ apply convert_ids_to_labels_error in Ep as ->. by right. }
  rewrite result_bind_Ok.
  destruct (eval_features !! index) as [f|]; simpl; [|by right].
  match goal with
  | |- context [foldM ?gg ?ss ?xs] =>
      pose proof (foldM_outcome
        (fun st : UWalk =>
           length (original_labels st) = length (perturbed_labels st) /\
           Forall (fun l => l ∈ labels v) (original_labels st) /\
           Forall (fun l => l ∈ labels v) (perturbed_labels st))
        (fun e => e = KeyError \/ e = IndexError) gg xs ss) as H;
      destruct (foldM gg ss xs) as [st|e']
  end.
  - simpl. apply H; [exact Hacc|].
    intros st' it Hst. apply uwalk_step_outcome; [| |exact Hst].
    + intros l. by apply convert_ids_to_labels_elem with (ids := o_ids).
    + intros l. by apply convert_ids_to_labels_elem with (ids := p_ids).
  - simpl. apply H; [exact Hacc|].
    intros st' it Hst. apply uwalk_step_outcome; [| |exact Hst].
    + intros l. by apply convert_ids_to_labels_elem with (ids := o_ids).
    + intros l. by apply convert_ids_to_labels_elem with (ids := p_ids).
Qed.

Lemma unsupervised_batch_outcome (v : LabelVocab)
  (eval_features : list InputFeatures) (acc : list string * list string)
  (batch : list (nat * InputFeatures)) :
  length acc.1 = length acc.2 /\
  Forall (fun l => l ∈ labels v) acc.1 /\
  Forall (fun l => l ∈ labels v) acc.2 ->
  match unsupervised_batch model perturbe v eval_features acc batch with
  | Ok acc' =>
      length acc'.1 = length acc'.2 /\
      Forall (fun l => l ∈ labels v) acc'.1 /\
      Forall (fun l => l ∈ labels v) acc'.2
  | Err e => e = KeyError \/ e = IndexError
  end.
Proof.
  intros (Hlen & Ho & Hp). unfold unsupervised_batch.
  match goal with
  | |- context [foldM ?gg ?ss ?xs] =>
      pose proof (foldM_outcome
        (fun a : list string * list string =>
           length a.1 = length a.2 /\
           Forall (fun l => l ∈ labels v) a.1 /\
           Forall (fun l => l ∈ labels v) a.2)
        (fun e => e = KeyError \/ e = IndexError) gg xs ss) as H;
      destruct (foldM gg ss xs) as [[o p]|e']
  end.
  - destruct H as (Hlen' & Ho' & Hp').
    + by split_and!.
    + intros a e Ha. by apply unsupervised_example_outcome.
    + simpl in Hlen', Ho', Hp'. rewrite result_bind_Ok. cbv beta iota.
      rewrite Hlen', Nat.eqb_refl. unfold Py.assert.
      rewrite result_bind_Ok. simpl.
      rewrite !length_app, !Forall_app. split_and!; try done. lia.
  - simpl. apply H; [by split_and!|].
    intros a e Ha. by apply unsupervised_example_outcome.
Qed.

Lemma unsupervised_labels_outcome (v : LabelVocab)
  (eval_features : list InputFeatures) (batch_size : Z) :
  match unsupervised_labels model perturbe v eval_features batch_size with
  | Ok acc =>
      (0 < batch_size)%Z /\
      length acc.1 = length acc.2 /\
      Forall (fun l => l ∈ labels v) acc.1 /\
      Forall (fun l => l ∈ labels v) acc.2
  | Err e =>
      (batch_size <= 0)%Z /\ e = ValueError \/
      (0 < batch_size)%Z /\ (e = KeyError \/ e = IndexError)
  end.
Proof.
  unfold unsupervised_labels, data_loader.
  destruct (Z.leb_spec batch_size 0) as [Hle|Hlt]; [by left|].
  rewrite result_bind_Ok.
  match goal with
  | |- context [foldM ?gg ?ss ?xs] =>
      pose proof (foldM_outcome
        (fun a : list string * list string =>
           length a.1 = length a.2 /\
           Forall (fun l => l ∈ labels v) a.1 /\
           Forall (fun l => l ∈ labels v) a.2)
        (fun e => e = KeyError \/ e = IndexError) gg xs ss) as H;
      destruct (foldM gg ss xs) as [acc|e']
  end.
  - split; [done|]. apply H; [by split_and!|].
    intros a b Ha. by apply unsupervised_batch_outcome.
  - right. split; [done|]. apply H; [by split_and!|].
    intros a b Ha. by apply unsupervised_batch_outcome.
Qed.

End UnsupervisedMore.

(** X19.  The guard of the unsupervised evaluator covers only the case of
    a non-empty list of clean labels that are all "O".  When the walk
    collects no label at all, or a clean label other than "O", the outcome
    is that of the scorer on the collected lists, whatever it is; in
    particular with no evaluation features and a positive batch size the
    scorer is called on two empty lists. *)
Theorem unsupervised_scorer_consulted
  (model : list TensorRow -> list (list (list Q)))
  (perturbe : list TensorRow -> list (list (list Q)) -> list TensorRow)
  (evaluate : list string -> list string -> result (Q * Q * Q))
  (label_vocab : LabelVocab) (eval_features : list InputFeatures)
  (batch_size : Z) (all_original_labels all_perturbed_labels : list string) :
  unsupervised_labels model perturbe label_vocab eval_features batch_size
    = Ok (all_original_labels, all_perturbed_labels) ->
  all_original_labels = [] \/
    (exists l, l ∈ all_original_labels /\ l <> "O") ->
  evaluate_model_unsupervised model perturbe evaluate label_vocab
    eval_features batch_size
  = evaluate all_original_labels all_perturbed_labels /\
  ((0 < batch_size)%Z ->
   evaluate_model_unsupervised model perturbe evaluate label_vocab []
     batch_size
   = evaluate [] []).
Proof.
  intros Hlabels Hnot. split.
  - unfold evaluate_model_unsupervised. rewrite Hlabels, result_bind_Ok.
    cbv beta iota.
    pose proof (unsupervised_labels_outcome model perturbe label_vocab
                  eval_features batch_size) as H.
    rewrite Hlabels in H. destruct H as (_ & Hlen & _). simpl in Hlen.
    rewrite Hlen, Nat.eqb_refl. unfold Py.assert. rewrite result_bind_Ok.
    rewrite decide_False; [done|]. intros Hset.
    destruct Hnot as [->|(l & Hl & HO)].
    + apply (f_equal (fun X : gset string => size X)) in Hset.
      by rewrite size_singleton in Hset.
    + apply HO. apply (elem_of_singleton (C := gset string)).
      rewrite <- Hset. by apply elem_of_list_to_set.
  - intros Hpos. unfold evaluate_model_unsupervised, unsupervised_labels,
      data_loader.
    destruct (Z.leb_spec batch_size 0) as [|_]; [lia|]. done.
Qed.

Lemma unsupervised_scorer_consulted_witness :
  evaluate_model_unsupervised
    (fun rows => (fun _ => background_logits 10) <$> rows)
    (fun rows _ => rows)
    (fun _ _ => Err ZeroDivisionError)
    john_vocab [] 8
  = Err ZeroDivisionError.
Proof.
  refine (proj1 (unsupervised_scorer_consulted
           (fun rows => (fun _ => background_logits 10) <$> rows)
           (fun rows _ => rows) (fun _ _ => Err ZeroDivisionError)
           john_vocab [] 8 [] [] _ _)).
  - reflexivity.
  - by left.
Defined.

(** X20.  The two assertions of the unsupervised evaluator never fail.
    Collecting the labels raises [ValueError] when the batch size is 0 or
    less, and otherwise only [KeyError] or [IndexError] (a position without
    a word, an id outside the vocabulary, too few scores), which the
    evaluator passes on.  When it returns, the batch size is positive, there
    are as many clean as perturbed labels, and all of them are labels of the
    vocabulary. *)
Theorem unsupervised_evaluator_errors
  (model : list TensorRow -> list (list (list Q)))
  (perturbe : list TensorRow -> list (list (list Q)) -> list TensorRow)
  (evaluate : list string -> list string -> result (Q * Q * Q))
  (label_vocab : LabelVocab) (eval_features : list InputFeatures)
  (batch_size : Z) :
  let collected :=
    unsupervised_labels model perturbe label_vocab eval_features batch_size in
  (forall e, collected = Err e ->
     evaluate_model_unsupervised model perturbe evaluate label_vocab
       eval_features batch_size = Err e /\
     ((batch_size <= 0)%Z /\ e = ValueError \/
      (0 < batch_size)%Z /\ (e = KeyError \/ e = IndexError))) /\
  (forall all_original_labels all_perturbed_labels,
     collected = Ok (all_original_labels, all_perturbed_labels) ->
     (0 < batch_size)%Z /\
     length all_original_labels = length all_perturbed_labels /\
     Forall (fun l => l ∈ labels label_vocab) all_original_labels /\
     Forall (fun l => l ∈ labels label_vocab) all_perturbed_labels) /\
  ((batch_size <= 0)%Z -> collected = Err ValueError).
Proof.
  intros collected.
  pose proof (unsupervised_labels_outcome model perturbe label_vocab
                eval_features batch_size) as H.
  fold collected in H. split; [|split].
  - intros e He. rewrite He in H. split; [|exact H].
    unfold evaluate_model_unsupervised. fold collected. by rewrite He.
  - intros o p Hop. by rewrite Hop in H.
  - intros Hle. unfold collected, unsupervised_labels, data_loader.
    by destruct (Z.leb_spec batch_size 0) as [_|]; [|lia].
Qed.

(** ** The readers *)

Section ZipStar.

Context {A : Type}.

(** Column [j] of the unzipped rows exists when every row has a field
    [j], and then holds these fields. *)
Lemma zip_star_lookup (d : A) (rows : list (list A)) (j : nat) :
  rows <> [] ->
  zip_star rows !! j
  = if decide (Forall (fun r => j < length r) rows)
    then Some ((fun r => default d (r !! j)) <$> rows)
    else None.
Proof.
  induction rows as [|r rs IH]; [done|]. intros _.
  cbn [zip_star]. destruct rs as [|r' rs'].
  - rewrite list_lookup_fmap.
    destruct (decide (Forall _ [r])) as [H|H].
    + rewrite Forall_singleton in H.
      destruct (lookup_lt_is_Some_2 r j H) as [x Hx]. simpl.
      by rewrite Hx.
    + destruct (r !! j) eqn:E; [|done]. exfalso. apply H.
      apply Forall_singleton. eapply lookup_lt_Some, E.
  - rewrite lookup_zip_with, IH by done.
    destruct (r !! j) as [x|] eqn:E; simpl.
    + destruct (decide (Forall _ (r' :: rs'))) as [H|H]; simpl.
      * rewrite decide_True; [rewrite E; reflexivity|].
        constructor; [eapply lookup_lt_Some, E|done].
      * rewrite decide_False; [done|]. by intros [_ H']%Forall_cons_1.
    + rewrite decide_False; [done|]. intros [Hlt _]%Forall_cons_1.
      apply lookup_lt_is_Some_2 in Hlt. rewrite E in Hlt. by destruct Hlt.
Qed.

End ZipStar.

Section GroupBy.

Context {A : Type}.


End GroupBy.

Section ReaderLemmas.

Variable strip : string -> string.
Variable split : string -> list string.

Lemma is_divider_outcome (line : string) :
  match _is_divider strip split line with
  | Ok true => True
  | Ok false => strip line <> "" /\ split line <> []
  | Err e => e = IndexError /\ strip line <> "" /\ split line = []
  end.
Proof.
  unfold _is_divider. destruct (String.eqb_spec (strip line) ""); [done|].
  destruct (split line) as [|first_token rest]; simpl; [done|].
  by destruct (String.eqb first_token "-DOCSTART-").
Qed.

(** One sentence: the tokens are column 0 and the labels the last column
    that all its lines have. *)
Lemma read_group_sentence (label_vocab : LabelVocab)
  (examples : list NERExample) (lines : list string) :
  let rows := (fun line => split (strip line)) <$> lines in
  match read_group strip split (label_vocab, examples) (false, lines) with
  | Ok st =>
      lines <> [] /\
      exists m, 0 < m /\
        Forall (fun r => m <= length r) rows /\
        length (zip_star rows) = m /\
        let example := {| ex_tokens := column 0 rows;
                          ex_labels := column (m - 1) rows |} in
        st = (LabelVocab.update label_vocab example, examples ++ [example])
  | Err e =>
      e = IndexError /\ (lines = [] \/ exists line, line ∈ lines /\
                                       split (strip line) = [])
  end.
Proof.
  intros rows. unfold read_group. fold rows.
  destruct lines as [|line0 lines'].
  { simpl. split; [done|]. by left. }
  assert (Hrows : rows <> []) by done.
  assert (Hrows_def :
    rows = (fun line => split (strip line)) <$> line0 :: lines') by done.
  clearbody rows.
  pose proof (fun j => zip_star_lookup ""%string rows j Hrows) as Hcol.
  rewrite head_lookup, last_lookup.
  destruct (decide (Forall (fun r => 0 < length r) rows)) as [H0|H0].
  - rewrite (Hcol 0), decide_True by done. simpl.
    set (m := length (zip_star rows)).
    assert (Hm : 0 < m).
    { unfold m. eapply lookup_lt_Some. rewrite (Hcol 0), decide_True; done. }
    assert (Hlast : is_Some (zip_star rows !! pred m)).
    { apply lookup_lt_is_Some_2. lia. }
    rewrite (Hcol (pred m)) in Hlast. rewrite (Hcol (pred m)).
    destruct (decide (Forall (fun r => pred m < length r) rows)) as [Hm'|];
      [|by destruct Hlast].
    simpl. split; [done|]. exists m. split; [done|]. split.
    { eapply Forall_impl; [exact Hm'|]. intros r. simpl. lia. }
    split; [done|]. by replace (m - 1) with (pred m) by lia.
  - rewrite (Hcol 0), decide_False by done. simpl. split; [done|]. right.
    apply not_Forall_Exists in H0; [|intros r; apply _].
    apply Exists_exists in H0 as (r & Hr & Hlen).
    rewrite Hrows_def in Hr. apply list_elem_of_fmap in Hr as (line & -> & Hl).
    exists line. split; [done|].
    destruct (split (strip line)); [done|]. simpl in Hlen. lia.
Qed.

End ReaderLemmas.

Section ReadLemmas.

Variable strip : string -> string.
Variable split : string -> list string.


Lemma groupby_same_key {A : Type} (k : bool) (xs : list A) :
  xs <> [] -> groupby ((fun x => (k, x)) <$> xs) = [(k, xs)].
Proof.
  induction xs as [|x xs IH]; [done|]. intros _. cbn [fmap list_fmap groupby].
  destruct xs as [|y ys]; [done|]. rewrite IH by done.
  by rewrite Bool.eqb_reflx.
Qed.

Lemma column_length (j : nat) (rows : list (list string)) :
  length (column j rows) = length rows.
Proof. unfold column. by rewrite length_fmap. Qed.

Lemma read_group_well_read (st : LabelVocab * list NERExample)
  (group : bool * list string) :
  well_read st ->
  match read_group strip split st group with
  | Ok st' => well_read st'
  | Err e => e = IndexError
  end.
Proof.
  intros Hst. destruct st as [v exs], group as [[|] lines]; [done|].
  pose proof (read_group_sentence strip split v exs lines) as H.
  cbv zeta in H.
  destruct (read_group strip split (v, exs) (false, lines)) as [st'|e];
    [|by destruct H].
  destruct H as (Hlines & m & Hm & _ & _ & ->).
  destruct Hst as (Hal & Hset & Hlabels & Hdict).
  unfold well_read. cbn [fst snd] in *. split_and!; try done.
  - apply Forall_app. split; [done|]. apply Forall_singleton.
    cbn [ex_tokens ex_labels]. rewrite !column_length. split; [done|].
    intros E%(f_equal length). rewrite column_length, length_fmap in E.
    by destruct lines.
  - intros l. cbn [label_set LabelVocab.update].
    rewrite elem_of_union, elem_of_list_to_set, Hset. split.
    + intros [(e & He & Hl)|Hl].
      * exists e. split; [|done]. apply elem_of_app. by left.
      * eexists. split; [apply elem_of_app; right; left|done].
    + intros (e & [He| ->%list_elem_of_singleton]%elem_of_app & Hl).
      * left. by exists e.
      * by right.
Qed.


Lemma read_ner_examples_well_read (input_file : list string) :
  match read_ner_examples strip split input_file with
  | Ok st => well_read st
  | Err e => e = IndexError
  end.
Proof.
  unfold read_ner_examples.
  destruct (mapM_cases
    (fun line => k ← _is_divider strip split line; Ok (k, line)) input_file)
    as [[keyed ->]|(line & e & _ & Hline & ->)].
  - rewrite result_bind_Ok.
    apply (foldM_outcome well_read (fun e => e = IndexError)).
    + unfold well_read. simpl. split_and!; try done. intros l. split.
      * intros Hl. by apply elem_of_empty in Hl.
      * intros (e & He & _). by apply elem_of_nil in He.
    + intros st group Hst. by apply read_group_well_read.
  - simpl. pose proof (is_divider_outcome strip split line) as H.
    destruct (_is_divider strip split line) as [k|e']; [discriminate|].
    simpl in Hline. injection Hline as <-. by destruct H.
Qed.

End ReadLemmas.


(** X22.  The columns of a sentence.  For a file that is one sentence (no
    line is a divider), whose shortest line has [m >= 1] fields, the tokens
    are the first fields of the lines and the labels are their fields
    number [m]: the last field of every line only when all lines have
    equally many fields.  The vocabulary has seen exactly these labels. *)
Theorem sentence_columns (strip : string -> string)
  (split : string -> list string) (lines : list string) (m : nat) :
  let rows := (fun line => split (strip line)) <$> lines in
  lines <> [] ->
  Forall (fun line => _is_divider strip split line = Ok false) lines ->
  0 < m ->
  Forall (fun r => m <= length r) rows ->
  Exists (fun r => length r = m) rows ->
  let example := {| ex_tokens := column 0 rows;
                    ex_labels := column (m - 1) rows |} in
  read_ner_examples strip split lines
  = Ok (LabelVocab.update LabelVocab.init example, [example]).
Proof.
  intros rows Hne Hdiv Hm Hall Hex example. unfold read_ner_examples.
  assert (Hkeyed :
    mapM (fun line => k ← _is_divider strip split line; Ok (k, line)) lines
    = Ok ((fun line => (false, line)) <$> lines)).
  { apply mapM_Forall2_Ok. apply Forall2_fmap_r, Forall_Forall2_diag.
    eapply Forall_impl; [exact Hdiv|]. intros line Hl. cbv beta.
    by rewrite Hl. }
  rewrite Hkeyed, result_bind_Ok, groupby_same_key by done.
  cbn [foldM].
  pose proof (read_group_sentence strip split LabelVocab.init [] lines)
    as H.
  cbv zeta in H. fold rows in H.
  destruct (read_group strip split (LabelVocab.init, []) (false, lines))
    as [st|e].
  - destruct H as (_ & m' & Hm' & Hall' & Hlen & ->).
    assert (m' = m) as ->; [|done].
    apply Exists_exists in Hex as (r & Hr & Hlen_r).
    pose proof (proj1 (Forall_forall _ _) Hall' r Hr) as Hle. cbv beta in Hle.
    assert (Hcol : is_Some (zip_star rows !! (m - 1))).
    { rewrite (zip_star_lookup ""%string) by (by destruct lines).
      rewrite decide_True; [done|].
      eapply Forall_impl; [exact Hall|]. intros r'. simpl. lia. }
    apply lookup_lt_is_Some_1 in Hcol. lia.
  - destruct H as (_ & [->|(line & Hline & Hsplit)]); [done|].
    assert (Hr : split (strip line) ∈ rows).
    { apply list_elem_of_fmap. by exists line. }
    pose proof (proj1 (Forall_forall _ _) Hall _ Hr) as Hle. cbv beta in Hle.
    rewrite Hsplit in Hle. simpl in Hle. lia.
Qed.

Lemma sentence_columns_witness :
  read_ner_examples ws_strip ws_split ["John NNP B-NP B-PER"; "lives O"]
  = Ok ({| label_set := {["NNP"; "O"]}; labels := []; labels_dict := ∅ |},
        [ {| ex_tokens := ["John"; "lives"]; ex_labels := ["NNP"; "O"] |} ]).
Proof.
  etransitivity.
  - apply (sentence_columns ws_strip ws_split
             ["John NNP B-NP B-PER"; "lives O"] 2).
    + discriminate.
    + repeat constructor.
    + lia.
    + repeat constructor.
    + apply Exists_cons_tl, Exists_cons_hd. reflexivity.
  - vm_compute. reflexivity.
Defined.



(** X24.  What was read can be converted.  With [max_seq_length >= 2] the
    conversion of the examples of a file, with the vocabulary that reading
    them built, produces one feature per example and the frozen vocabulary:
    no label is unknown, so there is no [KeyError].  When the file has no
    sentence, the conversion raises [IndexError]. *)
Theorem read_then_convert (strip : string -> string)
  (split : string -> list string) (input_file : list string)
  (tokenizer : Tokenizer) (max_seq_length : Z)
  (label_vocab : LabelVocab) (examples : list NERExample) :
  read_ner_examples strip split input_file = Ok (label_vocab, examples) ->
  (2 <= max_seq_length)%Z ->
  (examples = [] ->
   convert_examples_to_features label_vocab examples tokenizer
     max_seq_length = Err IndexError) /\
  (examples <> [] ->
   exists features,
     convert_examples_to_features label_vocab examples tokenizer
       max_seq_length = Ok (LabelVocab.build label_vocab, features) /\
     length features = length examples).
Proof.
  intros Hread Hmsl.
  pose proof (read_ner_examples_well_read strip split input_file) as H.
  rewrite Hread in H. destruct H as (_ & Hset & _). cbn [fst snd] in Hset.
  split; [by intros ->|]. intros Hne.
  unfold convert_examples_to_features.
  destruct examples as [|e0 exs]; [done|]. cbn [head of_option].
  rewrite result_bind_Ok.
  destruct (mapM_total
    (fun ie : nat * NERExample =>
       convert_example tokenizer (LabelVocab.build label_vocab)
         max_seq_length (1000000000 + Z.of_nat ie.1) ie.1 ie.2)
    (enumerate (e0 :: exs))) as [features Hfeatures].
  { intros [i e] Hie%enumerate_elem. cbn [fst snd].
    apply convert_example_total; [done|].
    intros l Hl. apply Hset. by exists e. }
  rewrite Hfeatures, result_bind_Ok. exists features. split; [done|].
  apply mapM_Ok_length in Hfeatures. by rewrite enumerate_length in Hfeatures.
Qed.

Lemma read_then_convert_witness :
  exists label_vocab examples features,
    read_ner_examples ws_strip ws_split sample_conll
      = Ok (label_vocab, examples) /\
    convert_examples_to_features label_vocab examples word_tokenizer 10
      = Ok (LabelVocab.build label_vocab, features) /\
    length features = 2.
Proof.
  eexists _, _. 
  destruct (read_then_convert ws_strip ws_split sample_conll word_tokenizer
              10 _ _ ltac:(vm_compute; reflexivity) ltac:(lia))
    as [_ H].
  destruct H as (features & Hconv & Hlen); [discriminate|].
  exists features. split; [vm_compute; reflexivity|]. split; [exact Hconv|].
  exact Hlen.
Defined.

Section UnlabeledLines.

Variable tokenizer : Tokenizer.



End UnlabeledLines.



(** ** The expected label distribution *)

Section DistributionLemmas.

Context {Freq : Type}.

Lemma dict_fold_lookup (kvs : list (string * Freq)) (d : gmap string Freq)
  (k : string) :
  (is_Some (fold_left (fun d kv => <[kv.1 := kv.2]> d) kvs d !! k) <->
   k ∈ kvs.*1 \/ is_Some (d !! k)) /\
  (forall v,
     fold_left (fun d kv => <[kv.1 := kv.2]> d) kvs d !! k = Some v ->
     (k, v) ∈ kvs \/ d !! k = Some v).
Proof.
  revert d. induction kvs as [|[k' v'] kvs IH]; intros d.
  - simpl. split; [|by right]. split; [by right|].
    intros [H%elem_of_nil|H]; done.
  - cbn [fold_left fmap list_fmap fst snd].
    destruct (IH (<[k' := v']> d)) as [IH1 IH2]. split.
    + rewrite IH1, elem_of_cons. destruct (decide (k = k')) as [->|Hne].
      * rewrite lookup_insert_eq. split; [intros _; by left; left|].
        intros _. right. by eexists.
      * rewrite lookup_insert_ne by done. split.
        -- intros [?|?]; [left; by right|by right].
        -- intros [[?|?]|?]; [done|by left|by right].
    + intros v Hv. destruct (IH2 v Hv) as [Hin|Hd].
      * left. by right.
      * destruct (decide (k = k')) as [->|Hne].
        -- rewrite lookup_insert_eq in Hd. injection Hd as ->. left. left.
        -- rewrite lookup_insert_ne in Hd by done. by right.
Qed.

End DistributionLemmas.

(** X27.  [_get_validation_file_distribution] freezes the vocabulary and
    looks every frozen label up among the unigrams of the validation file.
    When each frozen label is paired with a frequency, it returns one
    frequency per frozen label, in the order of the label ids, each the
    frequency of a pair of its label.  When some frozen label has no pair it
    raises [KeyError]; "O" is always among the frozen labels, so this is the
    case whenever "O" is not among the unigrams. *)
Theorem validation_distribution {Freq : Type} (unigrams : list string)
  (unigram_frequencies : list Freq) (label_vocab : LabelVocab) :
  let frozen := LabelVocab.build label_vocab in
  let pairs := zip unigrams unigram_frequencies in
  let known l := l ∈ pairs.*1 in
  (Forall known (labels frozen) ->
   exists distribution,
     _get_validation_file_distribution Freq unigrams unigram_frequencies
       label_vocab = Ok (frozen, distribution) /\
     Forall2 (fun l fr => (l, fr) ∈ pairs) (labels frozen) distribution) /\
  (~ Forall known (labels frozen) ->
   _get_validation_file_distribution Freq unigrams unigram_frequencies
     label_vocab = Err KeyError) /\
  (~ known "O" ->
   _get_validation_file_distribution Freq unigrams unigram_frequencies
     label_vocab = Err KeyError).
Proof.
  intros frozen pairs known.
  assert (Hmiss : ~ Forall known (labels frozen) ->
    _get_validation_file_distribution Freq unigrams unigram_frequencies
      label_vocab = Err KeyError).
  { intros Hnot. unfold _get_validation_file_distribution.
    fold frozen. unfold dict_of_zip. fold pairs.
    destruct (mapM_cases
      (fun label =>
         of_option KeyError
           (fold_left (fun d kv => <[kv.1 := kv.2]> d) pairs
              (∅ : gmap string Freq) !! label))
      (labels frozen)) as [[dist Hdist]|(l & e & _ & Hl & ->)].
    - exfalso. apply Hnot. apply mapM_Ok_Forall2 in Hdist.
      apply Forall_forall. intros l [i Hi]%list_elem_of_lookup.
      destruct (Forall2_lookup_l _ _ _ _ _ Hdist Hi) as (fr & _ & Hfr).
      cbv beta in Hfr.
      destruct (fold_left _ pairs ∅ !! l) as [fr'|] eqn:E; [|discriminate].
      destruct (proj1 (proj1 (dict_fold_lookup pairs ∅ l))) as [H|H];
        [by rewrite E|done|].
      rewrite lookup_empty in H. by destruct H.
    - simpl. destruct (fold_left _ pairs ∅ !! l); [discriminate|].
      by injection Hl as <-. }
  split; [|split; [exact Hmiss|]].
  - intros Hknown. unfold _get_validation_file_distribution.
    fold frozen. unfold dict_of_zip. fold pairs.
    destruct (mapM_total
      (fun label =>
         of_option KeyError
           (fold_left (fun d kv => <[kv.1 := kv.2]> d) pairs
              (∅ : gmap string Freq) !! label))
      (labels frozen)) as [dist Hdist].
    { intros l Hl.
      pose proof (proj1 (Forall_forall _ _) Hknown l Hl) as Hk.
      destruct (proj2 (proj1 (dict_fold_lookup pairs ∅ l))) as [fr Hfr];
        [by left|].
      exists fr. by rewrite Hfr. }
    rewrite Hdist, result_bind_Ok. exists dist. split; [done|].
    apply mapM_Ok_Forall2 in Hdist.
    eapply Forall2_impl; [exact Hdist|]. intros l fr Hfr. cbv beta in Hfr.
    destruct (fold_left _ pairs ∅ !! l) as [fr'|] eqn:E; [|discriminate].
    injection Hfr as <-.
    destruct (proj2 (dict_fold_lookup pairs ∅ l) fr' E) as [H|H]; [done|].
    by rewrite lookup_empty in H.
  - intros HO. apply Hmiss. intros Hall. apply HO.
    apply (proj1 (Forall_forall _ _) Hall). left.
Qed.
